(** * Memento: relevance scoring, graph distance and repository operations

    A shallow embedding of the parts of the Memento knowledge-graph memory
    server (src/src/scoring-utils.js, src/src/context-manager.js, the
    search-context manager, the knowledge-graph manager and the SQLite and
    PostgreSQL graph repositories) that its specification talks about. *)

From Stdlib Require Import Reals Lra Lia List String Bool Arith Sorted Permutation.
Import ListNotations.

Set Warnings "-register-all".

Open Scope R_scope.
Open Scope string_scope.

(** ** JavaScript numbers and values *)

Module Js.

(** A JavaScript number: a finite real, an infinity or NaN.  Rounding to
    binary64 is not modelled; the formulas are evaluated over the reals. *)
Inductive num : Type :=
| Fin (r : R)
| PInf
| NInf
| NaN.

Definition rlt (a b : R) : bool := if Rlt_dec a b then true else false.
Definition req (a b : R) : bool := if Req_dec_T a b then true else false.

(** [a + b] on numbers. *)
Definition add (x y : num) : num :=
  match x, y with
  | Fin a, Fin b => Fin (a + b)
  | NaN, _ | _, NaN => NaN
  | PInf, NInf | NInf, PInf => NaN
  | PInf, _ | _, PInf => PInf
  | NInf, _ | _, NInf => NInf
  end.

Definition neg (x : num) : num :=
  match x with
  | Fin a => Fin (- a)
  | PInf => NInf
  | NInf => PInf
  | NaN => NaN
  end.

Definition sub (x y : num) : num := add x (neg y).

(** The infinity of the sign of [a] ([a] non-zero), flipped by [flip]. *)
Definition inf_of_sign (a : R) (flip : bool) : num :=
  if xorb (rlt 0 a) flip then PInf else NInf.

Definition mul (x y : num) : num :=
  match x, y with
  | Fin a, Fin b => Fin (a * b)
  | NaN, _ | _, NaN => NaN
  | Fin a, PInf | PInf, Fin a => if req a 0 then NaN else inf_of_sign a false
  | Fin a, NInf | NInf, Fin a => if req a 0 then NaN else inf_of_sign a true
  | PInf, PInf | NInf, NInf => PInf
  | PInf, NInf | NInf, PInf => NInf
  end.

Definition div (x y : num) : num :=
  match x, y with
  | Fin a, Fin b =>
      if req b 0 then (if req a 0 then NaN else inf_of_sign a false)
      else Fin (a / b)
  | NaN, _ | _, NaN => NaN
  | Fin _, PInf | Fin _, NInf => Fin 0
  | PInf, Fin b => if rlt b 0 then NInf else PInf
  | NInf, Fin b => if rlt b 0 then PInf else NInf
  | _, _ => NaN
  end.

(** [Math.exp]. *)
Definition exp (x : num) : num :=
  match x with
  | Fin a => Fin (Rtrigo_def.exp a)
  | PInf => PInf
  | NInf => Fin 0
  | NaN => NaN
  end.

(** [Math.log10]. *)
Definition log10 (x : num) : num :=
  match x with
  | Fin a => if rlt 0 a then Fin (ln a / ln 10)
             else if req a 0 then NInf else NaN
  | PInf => PInf
  | _ => NaN
  end.

(** [x < y]; every comparison with NaN is false. *)
Definition lt (x y : num) : bool :=
  match x, y with
  | Fin a, Fin b => rlt a b
  | NaN, _ | _, NaN => false
  | NInf, NInf | PInf, _ => false
  | NInf, _ | _, PInf => true
  | Fin _, NInf => false
  end.

Definition gt (x y : num) : bool := lt y x.
Definition le (x y : num) : bool :=
  match x, y with
  | NaN, _ | _, NaN => false
  | _, _ => negb (lt y x)
  end.

(** [Math.min] and [Math.max] of two numbers. *)
Definition min (x y : num) : num :=
  match x, y with
  | NaN, _ | _, NaN => NaN
  | _, _ => if lt y x then y else x
  end.

Definition max (x y : num) : num :=
  match x, y with
  | NaN, _ | _, NaN => NaN
  | _, _ => if lt x y then y else x
  end.

(** The JavaScript values the modelled code handles.  [JDate t] is a
    [Date] object with time value [t] (milliseconds). *)
Inductive value : Type :=
| JUndef
| JNull
| JBool (b : bool)
| JNum (n : num)
| JStr (s : string)
| JDate (t : num)
| JObj (fields : list (string * value)).

Definition truthy (v : value) : bool :=
  match v with
  | JUndef | JNull => false
  | JBool b => b
  | JNum (Fin a) => negb (req a 0)
  | JNum NaN => false
  | JNum _ => true
  | JStr s => negb (String.eqb s EmptyString)
  | JDate _ | JObj _ => true
  end.

(** [a || b]. *)
Definition or (a b : value) : value := if truthy a then a else b.

(** ToNumber; strings are taken to be non-numeric text. *)
Definition to_number (v : value) : num :=
  match v with
  | JUndef => NaN
  | JNull => Fin 0
  | JBool b => Fin (if b then 1 else 0)
  | JNum n => n
  | JStr _ => NaN
  | JDate t => t
  | JObj _ => NaN
  end.

(** An own property of an object literal ([None]: the key is absent). *)
Fixpoint assoc (k : string) (fs : list (string * value)) : option value :=
  match fs with
  | [] => None
  | (k', v) :: fs' => if String.eqb k k' then Some v else assoc k fs'
  end.

Definition own (o : value) (k : string) : option value :=
  match o with
  | JObj fs => assoc k fs
  | _ => None
  end.

(** [o.k]. *)
Definition get (o : value) (k : string) : value :=
  match own o k with Some v => v | None => JUndef end.

(** [{...d, ...o}.k]: the key of the later spread wins. *)
Definition spread_get (d o : value) (k : string) : value :=
  match own o k with Some v => v | None => get d k end.

End Js.

(** ** scoring-utils.js *)

Module Scoring.
Import Js.

Definition n (r : R) : value := JNum (Fin r).

(** [ImportanceLevel] *)
Definition CRITICAL : string := "critical".
Definition IMPORTANT : string := "important".
Definition NORMAL : string := "normal".
Definition TEMPORARY : string := "temporary".
Definition DEPRECATED : string := "deprecated".

Definition ImportanceLevel_values : list string :=
  [CRITICAL; IMPORTANT; NORMAL; TEMPORARY; DEPRECATED].

(** [IMPORTANCE_WEIGHTS[level]] ([None]: undefined).  Keys inherited from
    [Object.prototype] are not modelled. *)
Definition IMPORTANCE_WEIGHTS (k : string) : option R :=
  if String.eqb k CRITICAL then Some 2.0
  else if String.eqb k IMPORTANT then Some 1.5
  else if String.eqb k NORMAL then Some 1.0
  else if String.eqb k TEMPORARY then Some 0.7
  else if String.eqb k DEPRECATED then Some 0.3
  else None.

Definition DEFAULT_SCORING_CONFIG : value :=
  JObj [("weights", JObj [("temporal", n 0.4); ("popularity", n 0.2);
                          ("contextual", n 0.2); ("importance", n 0.2)]);
        ("temporal", JObj [("halfLifeDays", n 30); ("recencyThreshold", n 7);
                           ("recencyBoost", n 1.2)]);
        ("popularity", JObj [("scaleFactor", n 0.1); ("baseScore", n 1.0)]);
        ("contextual", JObj [("maxDistance", n 3); ("nearWeight", n 1.5);
                             ("decayRate", n 0.2)])].

Definition ms_per_day : R := 1000 * 60 * 60 * 24.

Section WithDateParser.

(** [Date.parse] on strings is implementation-defined: a parameter. *)
Variable parse_date : string -> num.

(** The time value of [new Date(v)] (the TimeClip range check and the
    truncation to an integer are not modelled). *)
Definition date_value (v : value) : num :=
  match v with
  | JUndef => NaN
  | JNull => Fin 0
  | JBool b => Fin (if b then 1 else 0)
  | JNum (Fin r) => Fin r
  | JNum _ => NaN
  | JStr s => parse_date s
  | JDate t => t
  | JObj _ => NaN
  end.

(** [getTemporalScore(createdAt, lastAccessed, config)] at time [now]. *)
Definition getTemporalScore (now : R) (createdAt lastAccessed config : value) : num :=
  let created := date_value createdAt in
  let accessed := if truthy lastAccessed then date_value lastAccessed else created in
  let relevantDate := if gt accessed created then accessed else created in
  let ageInDays := div (sub (Fin now) relevantDate) (Fin ms_per_day) in
  let decayFactor :=
    exp (div (mul (Fin (-0.693)) ageInDays) (to_number (get config "halfLifeDays"))) in
  let daysSinceAccess :=
    if truthy lastAccessed
    then div (sub (Fin now) (date_value lastAccessed)) (Fin ms_per_day)
    else PInf in
  let recencyMultiplier :=
    if lt daysSinceAccess (to_number (get config "recencyThreshold"))
    then to_number (get config "recencyBoost")
    else Fin 1.0 in
  min (mul decayFactor recencyMultiplier) (to_number (get config "recencyBoost")).

End WithDateParser.

(** [getPopularityScore(accessCount, config)] *)
Definition getPopularityScore (accessCount config : value) : num :=
  if le (to_number accessCount) (Fin 0)
  then to_number (get config "baseScore")
  else
    let logScore := log10 (add (Fin 1) (to_number accessCount)) in
    add (to_number (get config "baseScore"))
        (mul logScore (to_number (get config "scaleFactor"))).

Definition is_nullish (v : value) : bool :=
  match v with JNull | JUndef => true | _ => false end.

(** [distance === 0] *)
Definition strict_eq_zero (v : value) : bool :=
  match v with JNum (Fin r) => req r 0 | _ => false end.

(** [getContextualScore(distance, config)] *)
Definition getContextualScore (distance config : value) : num :=
  if is_nullish distance || gt (to_number distance) (to_number (get config "maxDistance"))
  then Fin 1.0
  else if strict_eq_zero distance
  then to_number (get config "nearWeight")
  else
    let score := sub (to_number (get config "nearWeight"))
                     (mul (to_number distance) (to_number (get config "decayRate"))) in
    max score (Fin 0.5).

(** [getImportanceScore(importance)]; a non-string key is never one of
    the five levels. *)
Definition getImportanceScore (importance : value) : num :=
  match importance with
  | JStr s =>
      if truthy importance then
        match IMPORTANCE_WEIGHTS s with
        | Some w => Fin w
        | None => Fin 1.0
        end
      else Fin 1.0
  | _ => Fin 1.0
  end.

Record components : Type := mk_components {
  c_temporal : num;
  c_popularity : num;
  c_contextual : num;
  c_importance : num
}.

Record score_data : Type := mk_score {
  finalScore : num;
  score_components : components
}.

(** [calculateRelevanceScore(entity, contextDistance, config)] *)
Definition calculateRelevanceScore (parse_date : string -> num) (now : R)
    (entity contextDistance config : value) : score_data :=
  let temporalScore :=
    getTemporalScore parse_date now (get entity "createdAt") (get entity "lastAccessed")
      (get config "temporal") in
  let popularityScore :=
    getPopularityScore (or (get entity "accessCount") (n 0)) (get config "popularity") in
  let contextualScore := getContextualScore contextDistance (get config "contextual") in
  let importanceScore := getImportanceScore (get entity "importance") in
  let weights := get config "weights" in
  let fs :=
    add (add (add (mul temporalScore (to_number (get weights "temporal")))
                  (mul popularityScore (to_number (get weights "popularity"))))
             (mul contextualScore (to_number (get weights "contextual"))))
        (mul importanceScore (to_number (get weights "importance"))) in
  mk_score fs (mk_components temporalScore popularityScore contextualScore importanceScore).

(** The own enumerable fields contributed by [...v] ([v] a plain object;
    spreading a primitive adds none of the keys read here). *)
Definition own_fields (v : value) : list (string * value) :=
  match v with JObj fs => fs | _ => [] end.

(** [{...d, ...o}] *)
Definition spread (d o : value) : value := JObj (own_fields o ++ own_fields d).

(** [createScoringConfig(customConfig = {})] *)
Definition createScoringConfig (customConfig : value) : value :=
  let c := match customConfig with JUndef => JObj [] | _ => customConfig end in
  let D := DEFAULT_SCORING_CONFIG in
  JObj [("weights", spread (get D "weights") (get c "weights"));
        ("temporal", spread (get D "temporal") (get c "temporal"));
        ("popularity", spread (get D "popularity") (get c "popularity"));
        ("contextual", spread (get D "contextual") (get c "contextual"))].

(** The configuration [scoreSearchResults] scores with:
    [createScoringConfig(options.scoringProfile || 'balanced')]. *)
Definition search_scoring_config (scoringProfile : value) : value :=
  createScoringConfig (or scoringProfile (JStr "balanced")).

End Scoring.

Module ScoringProfiles.
Import Js Scoring.

Definition default_contextual : value := get DEFAULT_SCORING_CONFIG "contextual".

Definition default_weights : value := get DEFAULT_SCORING_CONFIG "weights".

(** The weight of component [k] after merging the profile's [weights] field
    over the defaults, key by key. *)
Definition merged_weight (scoringProfile : value) (k : string) : num :=
  to_number
    (match own (get (or scoringProfile (JStr "balanced")) "weights") k with
     | Some v => v
     | None => get default_weights k
     end).

Definition weighted_sum (c : components) (wt wp wc wi : num) : num :=
  add (add (add (mul (c_temporal c) wt) (mul (c_popularity c) wp))
           (mul (c_contextual c) wc))
      (mul (c_importance c) wi).

Definition default_temporal : value := get DEFAULT_SCORING_CONFIG "temporal".

Definition probe_entity : value :=
  JObj [("createdAt", JDate (Fin 0)); ("lastAccessed", JDate (Fin 0));
        ("accessCount", n 0); ("importance", JStr "normal")].

Definition flat_weights_profile : value :=
  JObj [("temporal", n 1); ("popularity", n 0); ("contextual", n 0); ("importance", n 0)].

End ScoringProfiles.

(** ** Graph repository and knowledge-graph manager *)

Module Repo.

(** Rows of the [entities], [observations], [relations] and [obs_vec]
    tables.  An embedding is the Float32 buffer's sequence of words. *)
Record entity_row : Type := mk_entity {
  e_id : nat;
  e_name : string;
  e_type : string
}.

Record obs_row : Type := mk_obs {
  o_id : nat;
  o_entity : nat;
  o_content : string;
  o_importance : string;
  o_last_accessed : option nat
}.

Record rel_row : Type := mk_rel {
  r_from : nat;
  r_to : nat;
  r_type : string
}.

Record vec_row : Type := mk_vec {
  v_obs : nat;
  v_entity : nat;
  v_embedding : list nat
}.

(** The database; [ent_seq] and [obs_seq] are the next row ids. *)
Record tables : Type := mk_tables {
  entities : list entity_row;
  observations : list obs_row;
  relations : list rel_row;
  obs_vec : list vec_row;
  ent_seq : nat;
  obs_seq : nat
}.

(** The connection state: the tables, the snapshot an open transaction
    rolls back to, and the batches handed to the embedding model. *)
Record state : Type := mk_state {
  db : tables;
  tx : option tables;
  embed_log : list (list string)
}.

Inductive result (A : Type) : Type :=
| Ok (a : A)
| Err (msg : string).
Arguments Ok {A} a.
Arguments Err {A} msg.

(** A state and error monad: an awaited call that may throw. *)
Definition M (A : Type) : Type := state -> result A * state.

Definition ret {A} (a : A) : M A := fun s => (Ok a, s).

Definition bind {A B} (m : M A) (f : A -> M B) : M B :=
  fun s => match m s with
           | (Ok a, s') => f a s'
           | (Err e, s') => (Err e, s')
           end.

Notation "x <- m ;; k" := (bind m (fun x => k))
  (at level 61, m at next level, right associativity).

Definition throw {A} (e : string) : M A := fun s => (Err e, s).

(** [try { m } catch (error) { h(error.message) }] *)
Definition catch {A} (m : M A) (h : string -> M A) : M A :=
  fun s => match m s with
           | (Err e, s') => h e s'
           | r => r
           end.

Definition gets {A} (f : tables -> A) : M A := fun s => (Ok (f (db s)), s).

Definition set_db (t : tables) (s : state) : state := mk_state t (tx s) (embed_log s).

Definition modify {A} (f : tables -> A * tables) : M A :=
  fun s => let (a, t) := f (db s) in (Ok a, set_db t s).

Fixpoint find_entity_by_name (name : string) (es : list entity_row) : option entity_row :=
  match es with
  | [] => None
  | e :: es' => if String.eqb (e_name e) name then Some e else find_entity_by_name name es'
  end.

(** [getEntityId(name)]: [SELECT id FROM entities WHERE name = ?]. *)
Definition getEntityId (name : string) : M (option nat) :=
  gets (fun t => option_map e_id (find_entity_by_name name (entities t))).

(** [createEntity(name, entityType)]: the [UNIQUE] name constraint makes a
    second insertion of a name fail. *)
Definition createEntity (name entityType : string) : M nat :=
  fun s =>
    let t := db s in
    match find_entity_by_name name (entities t) with
    | Some _ => (Err "UNIQUE constraint failed: entities.name", s)
    | None =>
        let id := ent_seq t in
        (Ok id, set_db (mk_tables (entities t ++ [mk_entity id name entityType])
                                  (observations t) (relations t) (obs_vec t)
                                  (S id) (obs_seq t)) s)
    end.

(** [getOrCreateEntityId(name, entityType)] *)
Definition getOrCreateEntityId (name entityType : string) : M nat :=
  existing <- getEntityId name ;;
  match existing with
  | Some id => ret id
  | None => createEntity name entityType
  end.

Fixpoint find_obs (entityId : nat) (content : string) (os : list obs_row) : option obs_row :=
  match os with
  | [] => None
  | o :: os' =>
      if Nat.eqb (o_entity o) entityId && String.eqb (o_content o) content
      then Some o else find_obs entityId content os'
  end.

Record insert_result : Type := mk_insert_result {
  inserted : bool;
  observationId : option nat
}.

(** [insertObservation(entityId, content)]: [INSERT OR IGNORE] under
    [UNIQUE(entity_id, content)]; when nothing changed, the id of the
    existing row.  The foreign key [entity_id REFERENCES entities(id)] is
    not checked here (SQLite throws on an unknown id, [foreign_keys=ON]):
    the model is meant for ids of stored entities. *)
Definition insertObservation (entityId : nat) (content : string) : M insert_result :=
  modify (fun t =>
    match find_obs entityId content (observations t) with
    | Some o => (mk_insert_result false (Some (o_id o)), t)
    | None =>
        let id := obs_seq t in
        (mk_insert_result true (Some id),
         mk_tables (entities t)
                   (observations t ++ [mk_obs id entityId content "normal" None])
                   (relations t) (obs_vec t) (ent_seq t) (S id))
    end).

(** [BEGIN TRANSACTION], [COMMIT] and [ROLLBACK]. *)
Definition begin_tx : M unit :=
  fun s => match tx s with
           | Some _ => (Err "cannot start a transaction within a transaction", s)
           | None => (Ok tt, mk_state (db s) (Some (db s)) (embed_log s))
           end.

Definition commit_tx : M unit :=
  fun s => (Ok tt, mk_state (db s) None (embed_log s)).

Definition rollback_tx : M unit :=
  fun s => match tx s with
           | Some snap => (Ok tt, mk_state snap None (embed_log s))
           | None => (Ok tt, s)
           end.

(** The column type of [obs_vec.embedding], from the schemas: sqlite-vec's
    [vec0(... embedding FLOAT[1024])], pgvector's [vector(1024)], and the
    plain [TEXT] column of a PostgreSQL store without pgvector. *)
Inductive vec_column : Type :=
| Vec0Float (dim : nat)
| PgVector (dim : nat)
| PgText.

(** Whether the column type accepts an embedding: the fixed-width vector
    types take exactly [dim] floats, [TEXT] takes any base64 string. *)
Definition column_accepts (col : vec_column) (embedding : list nat) : bool :=
  match col with
  | Vec0Float d | PgVector d => Nat.eqb (List.length embedding) d
  | PgText => true
  end.

Fixpoint replace_vec (r : vec_row) (vs : list vec_row) : list vec_row :=
  match vs with
  | [] => [r]
  | v :: vs' => if Nat.eqb (v_obs v) (v_obs r) then r :: vs' else v :: replace_vec r vs'
  end.

Section WithDriver.

(** The backend's column type, driver-level failures of a single insert
    (I/O, locking, any constraint), and the embedding model. *)
Variable column : vec_column.
Variable vec_insert_fails : tables -> vec_row -> bool.
Variable embed : string -> list nat.

(** One [INSERT OR REPLACE INTO obs_vec(observation_id, entity_id,
    embedding)] (PostgreSQL: [ON CONFLICT(observation_id) DO UPDATE]). *)
Definition insert_vec (r : vec_row) : M unit :=
  fun s =>
    if vec_insert_fails (db s) r || negb (column_accepts column (v_embedding r))
    then (Err "obs_vec insert failed", s)
    else (Ok tt, set_db (mk_tables (entities (db s)) (observations (db s))
                                   (relations (db s)) (replace_vec r (obs_vec (db s)))
                                   (ent_seq (db s)) (obs_seq (db s))) s).

Fixpoint insert_vecs (rows : list vec_row) : M unit :=
  match rows with
  | [] => ret tt
  | r :: rows' => _ <- insert_vec r ;; insert_vecs rows'
  end.

(** [insertObservationVectors(rows)] *)
Definition insertObservationVectors (rows : list vec_row) : M unit :=
  match rows with
  | [] => ret tt
  | _ =>
      _ <- begin_tx ;;
      catch (_ <- insert_vecs rows ;; commit_tx)
            (fun e => _ <- rollback_tx ;; throw e)
  end.

(** [embedTexts(textArr)]: one call of the model per text, recorded as one
    batch. *)
Definition embedTexts (textArr : list string) : M (list (list nat)) :=
  fun s => (Ok (map embed textArr), mk_state (db s) (tx s) (embed_log s ++ [textArr])).

Fixpoint insert_contents (entityId : nat) (contents : list string)
    : M (list (nat * string)) :=
  match contents with
  | [] => ret []
  | content :: rest =>
      r <- insertObservation entityId content ;;
      tl <- insert_contents entityId rest ;;
      match inserted r, observationId r with
      | true, Some id => ret ((id, content) :: tl)
      | _, _ => ret tl
      end
  end.

Record added_result : Type := mk_added {
  ar_entityName : string;
  addedObservations : list string
}.

(** The body of the loop of [addObservations] for one entry. *)
Definition addObservations_entry (entityName : string) (contents : list string)
    : M added_result :=
  entityId <- getOrCreateEntityId entityName "Unknown" ;;
  ins <- insert_contents entityId contents ;;
  _ <- match ins with
       | [] => ret tt
       | _ =>
           embeddings <- embedTexts (map snd ins) ;;
           insertObservationVectors
             (map (fun '((id, _), emb) => mk_vec id entityId emb) (combine ins embeddings))
       end ;;
  ret (mk_added entityName (map snd ins)).

(** [addObservations(list)]; the parameter [list] is [entries] here. *)
Fixpoint addObservations (entries : list (string * list string)) : M (list added_result) :=
  match entries with
  | [] => ret []
  | (entityName, contents) :: rest =>
      r <- addObservations_entry entityName contents ;;
      rs <- addObservations rest ;;
      ret (r :: rs)
  end.

End WithDriver.

Definition rel_eqb (a b : rel_row) : bool :=
  Nat.eqb (r_from a) (r_from b) && Nat.eqb (r_to a) (r_to b) && String.eqb (r_type a) (r_type b).

(** [createRelation(fromId, toId, relationType)]: [INSERT OR IGNORE] under
    [UNIQUE(from_id, to_id, relationType)], then [Boolean(result.changes)].
    As for [insertObservation], the foreign keys are not checked: the model
    is meant for ids of stored entities. *)
Definition createRelation (fromId toId : nat) (relationType : string) : M bool :=
  modify (fun t =>
    let r := mk_rel fromId toId relationType in
    if existsb (rel_eqb r) (relations t) then (false, t)
    else (true, mk_tables (entities t) (observations t) (relations t ++ [r])
                          (obs_vec t) (ent_seq t) (obs_seq t))).

(** A relation as the manager's API has it: endpoint names and a type. *)
Record relation : Type := mk_relation {
  from : string;
  to : string;
  relationType : string
}.

(** [createRelations(relations)]; the parameter is [rels] here. *)
Fixpoint createRelations (rels : list relation) : M (list relation) :=
  match rels with
  | [] => ret []
  | relation :: rest =>
      fromId <- getOrCreateEntityId (from relation) "Unknown" ;;
      toId <- getOrCreateEntityId (to relation) "Unknown" ;;
      ins <- createRelation fromId toId (relationType relation) ;;
      created <- createRelations rest ;;
      ret (if ins then relation :: created else created)
  end.

Record node : Type := mk_node {
  n_name : string;
  n_entityType : string;
  n_observations : list string
}.

Record open_result : Type := mk_open {
  or_entities : list node;
  or_relations : list relation
}.

Definition in_names (names : list string) (x : string) : bool := existsb (String.eqb x) names.
Definition in_ids (ids : list nat) (x : nat) : bool := existsb (Nat.eqb x) ids.

(** The relations query of [openNodes]: [relations r JOIN entities ef ON
    ef.id = r.from_id JOIN entities et ON et.id = r.to_id WHERE r.from_id IN
    ids AND r.to_id IN ids], rows in table order. *)
Definition open_relation_rows (t : tables) (ids : list nat) : list relation :=
  flat_map (fun r =>
    flat_map (fun ef =>
      flat_map (fun et =>
        if in_ids ids (r_from r) && in_ids ids (r_to r)
        then [mk_relation (e_name ef) (e_name et) (r_type r)] else [])
        (filter (fun et => Nat.eqb (e_id et) (r_to r)) (entities t)))
      (filter (fun ef => Nat.eqb (e_id ef) (r_from r)) (entities t)))
    (relations t).

(** [openNodes(names)].  Its queries have no ORDER BY; the model takes the
    rows in table order, one order the database may return them in. *)
Definition openNodes (names : list string) : M open_result :=
  gets (fun t =>
    match names with
    | [] => mk_open [] []
    | _ =>
        match filter (fun e => in_names names (e_name e)) (entities t) with
        | [] => mk_open [] []
        | ents =>
            let ids := map e_id ents in
            let obs := filter (fun o => in_ids ids (o_entity o)) (observations t) in
            mk_open
              (map (fun e => mk_node (e_name e) (e_type e)
                               (map o_content (filter (fun o => Nat.eqb (o_entity o) (e_id e)) obs)))
                   ents)
              (open_relation_rows t ids)
        end
    end).

(** A fresh database: SQLite row ids start at 1. *)
Definition init_tables : tables := mk_tables [] [] [] [] 1 1.
Definition init_state : state := mk_state init_tables None [].

Module SqliteRepository.

(** [setImportance(entityId, importance)]: [UPDATE observations SET
    importance = ? WHERE entity_id = ?], then [result.changes > 0]. *)
Definition setImportance (entityId : nat) (importance : string) : M bool :=
  modify (fun t =>
    let changes := List.length (filter (fun o => Nat.eqb (o_entity o) entityId) (observations t)) in
    (Nat.ltb 0 changes,
     mk_tables (entities t)
       (map (fun o => if Nat.eqb (o_entity o) entityId
                      then mk_obs (o_id o) (o_entity o) (o_content o) importance (o_last_accessed o)
                      else o) (observations t))
       (relations t) (obs_vec t) (ent_seq t) (obs_seq t))).

(** [ORDER BY o2.last_accessed DESC]: [NULL] sorts last. *)
Definition la_gt (a b : option nat) : bool :=
  match a, b with
  | Some x, Some y => Nat.ltb y x
  | Some _, None => true
  | None, _ => false
  end.

(** The first row of that order ([LIMIT 1]); among equal timestamps the
    first in table order. *)
Fixpoint latest (os : list obs_row) : option obs_row :=
  match os with
  | [] => None
  | o :: os' =>
      match latest os' with
      | None => Some o
      | Some o' => if la_gt (o_last_accessed o') (o_last_accessed o) then Some o' else Some o
      end
  end.

(** The [importance] column of [fetchEntitiesWithDetails]:
    [COALESCE((SELECT o2.importance ... LIMIT 1), 'normal')]. *)
Definition fetch_importance (t : tables) (entityId : nat) : string :=
  match latest (filter (fun o => Nat.eqb (o_entity o) entityId) (observations t)) with
  | Some o => o_importance o
  | None => "normal"
  end.

End SqliteRepository.

Module ContextManager.

(** [ContextManager.setImportance(entityId, importance)], inherited by
    [SearchContextManager]. *)
Definition setImportance (entityId : nat) (importance : string) : M bool :=
  if existsb (String.eqb importance) Scoring.ImportanceLevel_values
  then SqliteRepository.setImportance entityId importance
  else throw ("Invalid importance level: " ++ importance ++ ". Use ImportanceLevel enum values.").

End ContextManager.

Module KnowledgeGraphManager.

Definition dq : string := String (Ascii.ascii_of_nat 34) EmptyString.

Record set_importance_result : Type := mk_sir {
  success : bool;
  entityName : option string;
  importance : option string;
  message : option string;
  error : option string
}.

(** [getEntityId(name)] with [create = false]. *)
Definition getEntityId (name : string) : M (option nat) :=
  existing <- Repo.getEntityId name ;;
  match existing with
  | Some id => ret (Some id)
  | None => ret None
  end.

(** [setImportance(entityName, importance)]; [!entityId] holds for [null]
    and for the id [0]. *)
Definition setImportance (entityName importance : string) : M set_importance_result :=
  catch
    (entityId <- getEntityId entityName ;;
     match entityId with
     | None | Some 0 =>
         ret (mk_sir false None None None
                (Some ("Entity " ++ dq ++ entityName ++ dq ++ " not found")))
     | Some id =>
         success <- ContextManager.setImportance id importance ;;
         ret (mk_sir success (Some entityName) (Some importance)
                (Some (if success
                       then "Importance set to '" ++ importance ++ "' for entity '" ++ entityName ++ "'"
                       else "Failed to set importance for entity '" ++ entityName ++ "'"))
                None)
     end)
    (fun e => ret (mk_sir false None None None (Some e))).

(** The entity object [scoreSearchResults] scores for a result row: the
    row's [created_at], [last_accessed] and [access_count] (after their
    [||] fallbacks) and its [importance] column. *)
Definition search_entity (createdAt lastAccessed accessCount : Js.value) (imp : string) : Js.value :=
  Js.JObj [("createdAt", createdAt); ("lastAccessed", lastAccessed);
           ("accessCount", accessCount); ("importance", Js.JStr imp)].

End KnowledgeGraphManager.

End Repo.

(** ** Observables of the repository claims *)

Module RepoSpec.
Import Repo.
Local Open Scope nat_scope.

(** Stored observations of the pair ([entityId], [content]). *)
Definition count_obs (entityId : nat) (content : string) (os : list obs_row) : nat :=
  List.length (filter (fun o => Nat.eqb (o_entity o) entityId && String.eqb (o_content o) content) os).

(** Stored relation rows with the triple of [r]. *)
Definition count_rel (r : rel_row) (rs : list rel_row) : nat :=
  List.length (filter (rel_eqb r) rs).

Definition with_obs_vec (t : tables) (vs : list vec_row) : tables :=
  mk_tables (entities t) (observations t) (relations t) vs (ent_seq t) (obs_seq t).

(** The [obs_vec] rows after upserting [rows] one by one. *)
Definition fold_vecs (rows : list vec_row) (vs : list vec_row) : list vec_row :=
  fold_left (fun acc r => replace_vec r acc) rows vs.

(** The calls of the embedding model a batch makes: none for no text. *)
Definition batch (xs : list string) : list (list string) :=
  match xs with [] => [] | _ => [xs] end.

(** One entry ([entityName], [contents]) of [addObservations], run from
    state [s] to state [s1] with result [r]: the entity now exists and
    every entity found before still is;
    [addedObservations] holds, without repetition, exactly the contents that
    had no stored observation for the entity; each listed content has one
    more stored row exactly when it had none, every other count is kept;
    and the model was called once, on exactly the added contents. *)
Definition entry_spec (s : state) (entityName : string) (contents : list string)
    (r : added_result) (s1 : state) : Prop :=
  exists e,
    find_entity_by_name entityName (entities (db s1)) = Some e /\
    (forall nm e', find_entity_by_name nm (entities (db s)) = Some e' ->
                   find_entity_by_name nm (entities (db s1)) = Some e') /\
    ar_entityName r = entityName /\
    (forall c, In c (addedObservations r) <->
               In c contents /\ count_obs (e_id e) c (observations (db s)) = 0) /\
    NoDup (addedObservations r) /\
    (forall c, count_obs (e_id e) c (observations (db s1)) =
               count_obs (e_id e) c (observations (db s)) +
               (if in_names contents c && Nat.eqb (count_obs (e_id e) c (observations (db s))) 0
                then 1 else 0)) /\
    (forall c, In c contents -> count_obs (e_id e) c (observations (db s)) <= 1 ->
               count_obs (e_id e) c (observations (db s1)) = 1) /\
    embed_log s1 = app (embed_log s) (batch (addedObservations r)).

(** The entries run one after the other, each meeting [entry_spec]. *)
Inductive entries_spec : state -> list (string * list string) -> list added_result -> state -> Prop :=
| entries_nil s : entries_spec s [] [] s
| entries_cons s s1 s2 entityName contents xs r rs :
    entry_spec s entityName contents r s1 -> entries_spec s1 xs rs s2 ->
    entries_spec s ((entityName, contents) :: xs) (r :: rs) s2.

(** One relation of [createRelations], run from [s] to [s1]: both
    endpoints now exist, the relation counts as created exactly when its
    triple had no stored row, and the table grew by that row only then. *)
Definition rel_step (s : state) (x : relation) (created : bool) (s1 : state) : Prop :=
  exists ef et,
    find_entity_by_name (from x) (entities (db s1)) = Some ef /\
    find_entity_by_name (to x) (entities (db s1)) = Some et /\
    (created = true <->
     count_rel (mk_rel (e_id ef) (e_id et) (relationType x)) (relations (db s)) = 0) /\
    relations (db s1) =
      app (relations (db s)) (if created then [mk_rel (e_id ef) (e_id et) (relationType x)] else []).

Inductive rels_spec : state -> list relation -> list relation -> state -> Prop :=
| rels_nil s : rels_spec s [] [] s
| rels_cons s s1 s2 x xs b cs :
    rel_step s x b s1 -> rels_spec s1 xs cs s2 ->
    rels_spec s (x :: xs) (if b then x :: cs else cs) s2.

(** The tables after [UPDATE observations SET importance = ? WHERE entity_id = ?]. *)
Definition set_obs_importance (entityId : nat) (importance : string) (t : tables) : tables :=
  mk_tables (entities t)
    (map (fun o => if Nat.eqb (o_entity o) entityId
                   then mk_obs (o_id o) (o_entity o) (o_content o) importance (o_last_accessed o)
                   else o) (observations t))
    (relations t) (obs_vec t) (ent_seq t) (obs_seq t).

End RepoSpec.

(** ** Sample databases *)

Module RepoExamples.
Import Repo.
Local Open Scope nat_scope.

(** Entities A, B, C with relations A->B and A->C. *)
Definition abc_state : state :=
  mk_state (mk_tables [mk_entity 1 "A" "T"; mk_entity 2 "B" "T"; mk_entity 3 "C" "T"]
                      [] [mk_rel 1 2 "knows"; mk_rel 1 3 "knows"] [] 4 1)
           None [].

(** One entity A with one observation. *)
Definition one_obs_state : state :=
  mk_state (mk_tables [mk_entity 1 "A" "T"] [mk_obs 1 1 "x" "normal" (Some 5)] [] [] 2 2)
           None [].

(** One entity A without observations. *)
Definition no_obs_state : state :=
  mk_state (mk_tables [mk_entity 1 "A" "T"] [] [] [] 2 1) None [].

End RepoExamples.

(** ** Graph distance (context-manager.js) *)

Module GraphDistance.
Local Open Scope nat_scope.

(** [Map.prototype.get] on a map kept as an association list. *)
Fixpoint lookup {V : Type} (k : string) (m : list (string * V)) : option V :=
  match m with
  | [] => None
  | (k', v) :: m' => if String.eqb k k' then Some v else lookup k m'
  end.

(** [Map.prototype.set] *)
Definition map_set {V : Type} (k : string) (v : V) (m : list (string * V)) : list (string * V) :=
  (k, v) :: filter (fun kv => negb (String.eqb k (fst kv))) m.

(** [Set.prototype.has] and [Set.prototype.add] on a set kept in insertion
    order. *)
Definition has (x : string) (s : list string) : bool := existsb (String.eqb x) s.

Definition set_add (x : string) (s : list string) : list string :=
  if has x s then s else s ++ [x].

(** [GraphCache]: adjacency sets by entity id and distances by
    ["from:to"]; a distance is a number or [null] ([None]).  Metrics and
    the cache expiry are not modelled. *)
Record graph_cache : Type := mk_cache {
  adjacencyCache : list (string * list string);
  distanceCache : list (string * option nat)
}.

Definition cache_key (from to : string) : string := from ++ ":" ++ to.

(** [getDistance(from, to)]: the cached value, [null] when absent. *)
Definition getDistance (c : graph_cache) (from to : string) : option nat :=
  match lookup (cache_key from to) (distanceCache c) with
  | Some d => d
  | None => None
  end.

Definition setDistance (c : graph_cache) (from to : string) (d : option nat) : graph_cache :=
  mk_cache (adjacencyCache c) (map_set (cache_key from to) d (distanceCache c)).

(** [getAdjacent(entityId)]: [adjacencyCache.get(entityId) || null]; a
    [Set] is truthy even when empty. *)
Definition getAdjacent (c : graph_cache) (entityId : string) : option (list string) :=
  lookup entityId (adjacencyCache c).

Definition setAdjacent (c : graph_cache) (entityId : string) (connections : list string)
    : graph_cache :=
  mk_cache (map_set entityId connections (adjacencyCache c)) (distanceCache c).

(** [getRelationsForEntityIds(ids)] over the [relations] table, each row as
    its [(from_id.toString(), to_id.toString())]. *)
Definition getRelationsForEntityIds (rels : list (string * string)) (ids : list string)
    : list (string * string) :=
  filter (fun row => has (fst row) ids || has (snd row) ids) rels.

(** The [connections] set built from the fetched rows for [entityId]. *)
Definition connections_of (entityId : string) (rows : list (string * string)) : list string :=
  fold_left (fun s row =>
               let s1 := if String.eqb (fst row) entityId then set_add (snd row) s else s in
               if String.eqb (snd row) entityId then set_add (fst row) s1 else s1)
            rows [].

(** [for (const connectedId of connections) if (!visited.has(connectedId))
    { visited.add(connectedId); queue.push({entityId: connectedId, depth}) }] *)
Fixpoint enqueue (connections : list string) (depth : nat) (queue : list (string * nat))
    (visited : list string) : list (string * nat) * list string :=
  match connections with
  | [] => (queue, visited)
  | connectedId :: rest =>
      if has connectedId visited then enqueue rest depth queue visited
      else enqueue rest depth (queue ++ [(connectedId, depth)]) (connectedId :: visited)
  end.

Section BFS.

(** The [relations] table, the bound and the two endpoints. *)
Variable rels : list (string * string).
Variable maxDepth : nat.
Variables fromEntityId toEntityId : string.

(** The [while (queue.length > 0)] loop and what follows it; [fuel] bounds
    the iterations (each pops one queued entity, and an entity is queued at
    most once). *)
Fixpoint bfs (fuel : nat) (queue : list (string * nat)) (visited : list string)
    (c : graph_cache) : option nat * graph_cache :=
  match fuel with
  | 0 => (None, setDistance c fromEntityId toEntityId None)
  | S fuel' =>
      match queue with
      | [] => (None, setDistance c fromEntityId toEntityId None)
      | (entityId, depth) :: rest =>
          if Nat.leb maxDepth depth then (None, setDistance c fromEntityId toEntityId None)
          else
            let '(connections, c1) :=
              match getAdjacent c entityId with
              | Some s => (s, c)
              | None =>
                  let s := connections_of entityId (getRelationsForEntityIds rels [entityId]) in
                  (s, setAdjacent c entityId s)
              end in
            if has toEntityId connections then
              (Some (S depth),
               setDistance (setDistance c1 fromEntityId toEntityId (Some (S depth)))
                 toEntityId fromEntityId (Some (S depth)))
            else
              let '(queue', visited') := enqueue connections (S depth) rest visited in
              bfs fuel' queue' visited' c1
      end
  end.

(** Every entity the search can reach: the start, the rows' endpoints and
    the cached adjacency sets. *)
Definition bfs_universe (c : graph_cache) : list string :=
  fromEntityId :: app (flat_map (fun row => [fst row; snd row]) rels)
                      (List.concat (map snd (adjacencyCache c))).

Definition bfs_fuel (c : graph_cache) : nat := 2 + List.length (bfs_universe c).

(** [calculateGraphDistance(fromEntityId, toEntityId, maxDepth)]; the
    repository does not fail here, so the [catch] is not modelled. *)
Definition calculateGraphDistance (c : graph_cache) : option nat * graph_cache :=
  if String.eqb fromEntityId toEntityId then (Some 0, c)
  else
    match getDistance c fromEntityId toEntityId with
    | Some d => (Some d, c)
    | None => bfs (bfs_fuel c) [(fromEntityId, 0)] [fromEntityId] c
    end.

End BFS.

Definition empty_cache : graph_cache := mk_cache [] [].

(** The path A - B - C - D - E. *)
Definition path_rels : list (string * string) :=
  [("A", "B"); ("B", "C"); ("C", "D"); ("D", "E")].

End GraphDistance.

(** ** Graph distance, the specification side *)

Module GraphSpec.
Import GraphDistance.
Local Open Scope nat_scope.

(** Undirected adjacency given by the relation rows. *)
Definition edge (rels : list (string * string)) (x y : string) : Prop :=
  In (x, y) rels \/ In (y, x) rels.

(** [walk rels a b n]: a walk of [n] hops from [a] to [b]. *)
Inductive walk (rels : list (string * string)) : string -> string -> nat -> Prop :=
| walk_nil a : walk rels a a 0
| walk_cons a b c n : edge rels a b -> walk rels b c n -> walk rels a c (S n).

(** [k] is the shortest hop count from [a] to [b]. *)
Definition shortest (rels : list (string * string)) (a b : string) (k : nat) : Prop :=
  walk rels a b k /\ forall j, j < k -> ~ walk rels a b j.

(** Every cached adjacency set is the one the search itself would fetch. *)
Definition adj_consistent (rels : list (string * string)) (c : graph_cache) : Prop :=
  forall e s, getAdjacent c e = Some s ->
              s = connections_of e (getRelationsForEntityIds rels [e]).

(** The loop invariant of [bfs] with queue [q] and visited set [V], all
    queued depths being [d0] or [d0 + 1]. *)
Definition bfs_inv (rels : list (string * string)) (from to : string) (U : list string)
    (d0 : nat) (q : list (string * nat)) (V : list string) : Prop :=
  (forall x d, In (x, d) q -> shortest rels from x d /\ In x V) /\
  (exists A B, q = app (map (fun y => (y, d0)) A) (map (fun y => (y, S d0)) B)) /\
  (forall y j, walk rels from y j -> j <= d0 -> In y V) /\
  (forall y, In y V -> (exists d, In (y, d) q) \/ (forall z, edge rels y z -> In z V)) /\
  ~ In to V /\
  (forall y, In y V -> In y U).

Definition bfs_measure (U : list string) (q : list (string * nat)) (V : list string) : nat :=
  List.length q + List.length (filter (fun u => negb (has u V)) (nodup string_dec U)).

End GraphSpec.

Module ScoringExtra.
Import Js Scoring.

(** [Object.entries(ImportanceLevel)] in declaration order. *)
Definition ImportanceLevel_entries : list (string * string) :=
  [("CRITICAL", CRITICAL); ("IMPORTANT", IMPORTANT); ("NORMAL", NORMAL);
   ("TEMPORARY", TEMPORARY); ("DEPRECATED", DEPRECATED)].

(** [ImportanceLevel[key]] *)
Definition ImportanceLevel_get (key : string) : value :=
  match find (fun kv => String.eqb (fst kv) key) ImportanceLevel_entries with
  | Some kv => JStr (snd kv)
  | None => JUndef
  end.

(** [s === v] for a string [s]. *)
Definition str_strict_eq (s : string) (v : value) : bool :=
  match v with JStr t => String.eqb s t | _ => false end.

(** [isValidImportanceLevel(value)]:
    [Object.values(ImportanceLevel).includes(value)]. *)
Definition isValidImportanceLevel (v : value) : bool :=
  existsb (fun l => str_strict_eq l v) (map snd ImportanceLevel_entries).

(** The [for (const [key, enumValue] of Object.entries(ImportanceLevel))]
    loop of [getImportanceLevelConstant]. *)
Fixpoint find_level_constant (es : list (string * string)) (v : value) : value :=
  match es with
  | [] => JNull
  | (key, enumValue) :: es' =>
      if str_strict_eq enumValue v then ImportanceLevel_get key else find_level_constant es' v
  end.

(** [getImportanceLevelConstant(value)] *)
Definition getImportanceLevelConstant (v : value) : value :=
  find_level_constant ImportanceLevel_entries v.

(** [x === y] on numbers: [NaN] equals nothing. *)
Definition num_strict_eq (x y : num) : bool :=
  match x, y with
  | Fin a, Fin b => req a b
  | PInf, PInf | NInf, NInf => true
  | _, _ => false
  end.

(** [Math.min(...xs)] and [Math.max(...xs)]. *)
Definition math_min_list (xs : list num) : num := fold_left min xs PInf.
Definition math_max_list (xs : list num) : num := fold_left max xs NInf.

(** [normalizeScores(scores)]; [None] is a [null] or [undefined] argument. *)
Definition normalizeScores (scores : option (list num)) : list num :=
  match scores with
  | None => []
  | Some [] => []
  | Some xs =>
      let mn := math_min_list xs in
      let mx := math_max_list xs in
      if num_strict_eq mn mx then map (fun _ => Fin 1.0) xs
      else map (fun score => div (sub score mn) (sub mx mn)) xs
  end.

Definition default_popularity : value := get DEFAULT_SCORING_CONFIG "popularity".

End ScoringExtra.

(** ** [Array.prototype.sort] *)

Module JsSort.
Import Js.

(** The comparator's result asks for [a] after [b] when it is positive;
    NaN counts as +0. *)
Definition cmp_gt (c : num) : bool :=
  match c with
  | Fin r => rlt 0 r
  | PInf => true
  | NInf | NaN => false
  end.

(** The sort is stable: insertion places [x] after every element that does
    not compare greater than it. *)
Fixpoint insert_sorted {A} (cmp : A -> A -> num) (x : A) (s : list A) : list A :=
  match s with
  | [] => [x]
  | y :: s' => if cmp_gt (cmp y x) then x :: s else y :: insert_sorted cmp x s'
  end.

Definition js_sort {A} (cmp : A -> A -> num) (xs : list A) : list A :=
  fold_left (fun acc x => insert_sorted cmp x acc) xs [].

End JsSort.

Module SortRelevance.
Import Js JsSort.

(** The character ['.']. *)
Definition dot : Ascii.ascii := Ascii.ascii_of_nat 46.

Fixpoint includes_dot (s : string) : bool :=
  match s with
  | EmptyString => false
  | String c s' => Ascii.eqb c dot || includes_dot s'
  end.

(** [s.split('.')] *)
Fixpoint split_dot_from (s cur : string) : list string :=
  match s with
  | EmptyString => [cur]
  | String c s' =>
      if Ascii.eqb c dot then cur :: split_dot_from s' EmptyString
      else split_dot_from s' (cur ++ String c EmptyString)
  end.

Definition split_dot (s : string) : list string := split_dot_from s EmptyString.

(** [obj?.[key]] *)
Definition opt_index (obj : value) (key : string) : value :=
  match obj with
  | JUndef | JNull => JUndef
  | _ => get obj key
  end.

(** The score the comparator reads from an entity. *)
Definition score_of (scoreField : string) (a : value) : value :=
  if includes_dot scoreField
  then fold_left opt_index (split_dot scoreField) a
  else get a scoreField.

(** [(scoreB || 0) - (scoreA || 0)] *)
Definition relevance_cmp (scoreField : string) (a b : value) : num :=
  sub (to_number (or (score_of scoreField b) (JNum (Fin 0))))
      (to_number (or (score_of scoreField a) (JNum (Fin 0)))).

(** [sortByRelevance(entities, scoreField = 'finalScore')] *)
Definition sortByRelevance (entities : list value) (scoreField : string) : list value :=
  js_sort (relevance_cmp scoreField) entities.

(** The number the comparator subtracts for an entity. *)
Definition relevance_key (scoreField : string) (a : value) : num :=
  to_number (or (score_of scoreField a) (JNum (Fin 0))).

End SortRelevance.

(** ** [SqliteGraphRepository.hybridSearch] and its caller [searchNodes] *)

Module HybridSearch.
Import Js JsSort.
Local Open Scope nat_scope.

(** A row of [results]: [{ entity_id, distance, score }]. *)
Record hybrid_row : Type := mk_hrow {
  h_entity_id : nat;
  h_distance : R;
  h_score : R
}.

(** [ftsSet.has(id)] *)
Definition fts_has (ftsRows : list nat) (id : nat) : bool := existsb (Nat.eqb id) ftsRows.

(** The first loop, over [vecRows] ([entity_id], [distance]). *)
Definition keep_vec_rows (ftsRows : list nat) (thr : R) (vecRows : list (nat * R)) :
    list hybrid_row :=
  fold_left
    (fun results row =>
       if le (Fin (snd row)) (Fin (thr * 1.5)%R)
       then app results
              [mk_hrow (fst row) (snd row)
                 (if fts_has ftsRows (fst row) then (snd row * 0.3)%R else snd row)]
       else results)
    vecRows [].

(** The second loop: an FTS id with no row yet gets [adjustedThreshold * 0.5]. *)
Definition add_fts_rows (thr : R) (ftsRows : list nat) (results : list hybrid_row) :
    list hybrid_row :=
  fold_left
    (fun results id =>
       match find (fun row => Nat.eqb (h_entity_id row) id) results with
       | Some _ => results
       | None => app results [mk_hrow id (thr * 0.5)%R (thr * 0.5)%R]
       end)
    ftsRows results.

(** [hybridSearch(query, vector, topK, adjustedThreshold)]: [ftsRows] is the
    DISTINCT FTS match, [vecAll] the vector rows in the [ORDER BY distance]
    of the query, which applies [LIMIT topK * 2]. *)
Definition hybridSearch (ftsRows : list nat) (vecAll : list (nat * R)) (topK : nat) (thr : R) :
    list hybrid_row :=
  let vecRows := firstn (topK * 2) vecAll in
  let results := add_fts_rows thr ftsRows (keep_vec_rows ftsRows thr vecRows) in
  firstn topK (js_sort (fun a b => sub (Fin (h_score a)) (Fin (h_score b))) results).

(** The hybrid branch of [searchNodes]: the ids handed to [#applyScoring]. *)
Definition searchNodes_hybrid_ids (ftsRows : list nat) (vecAll : list (nat * R))
    (topK : nat) (threshold : R) : list nat :=
  let distanceCap := threshold in
  let rows := hybridSearch ftsRows vecAll (Nat.max (topK * 3) (topK + 10)) distanceCap in
  map h_entity_id (firstn topK (filter (fun r => le (Fin (h_distance r)) (Fin distanceCap)) rows)).

End HybridSearch.

(** ** [mergeAndScoreResults] *)

Module MergeResults.
Import Js.

(** An element of a result array: the object's reference and its value. *)
Record result : Type := mk_result {
  res_ref : nat;
  res_value : value
}.

(** A value of [mergedMap]: the fields copied by [...result] and the fields
    this function sets ([None]: not set). *)
Record merged : Type := mk_merged {
  m_result : value;
  searchMethods : list string;
  keywordRank : option num;
  semanticRank : option num;
  hybridBoost : option num
}.

(** [result.entity_id || result.id] *)
Definition result_key (r : value) : value := or (get r "entity_id") (get r "id").

Definition num_same_value_zero (x y : num) : bool :=
  match x, y with
  | Fin a, Fin b => req a b
  | PInf, PInf | NInf, NInf | NaN, NaN => true
  | _, _ => false
  end.

(** SameValueZero, the key equality of a [Map].  Objects compare by
    identity, which [value] does not carry: an object key equals no key. *)
Definition same_value_zero (x y : value) : bool :=
  match x, y with
  | JUndef, JUndef | JNull, JNull => true
  | JBool a, JBool b => Bool.eqb a b
  | JNum a, JNum b => num_same_value_zero a b
  | JStr a, JStr b => String.eqb a b
  | _, _ => false
  end.

(** A [Map] as its entries in insertion order. *)
Fixpoint map_get (k : value) (m : list (value * merged)) : option merged :=
  match m with
  | [] => None
  | (k', v) :: m' => if same_value_zero k k' then Some v else map_get k m'
  end.

(** [Map.prototype.set]: an existing key keeps its place. *)
Fixpoint map_set (k : value) (v : merged) (m : list (value * merged)) : list (value * merged) :=
  match m with
  | [] => [(k, v)]
  | (k', v') :: m' =>
      if same_value_zero k k' then (k', v) :: m' else (k', v') :: map_set k v m'
  end.

(** [xs.indexOf(r)]: strict equality on objects is identity. *)
Fixpoint index_of_from (i : nat) (r : result) (xs : list result) : num :=
  match xs with
  | [] => Fin (-1)
  | x :: xs' => if Nat.eqb (res_ref x) (res_ref r) then Fin (INR i) else index_of_from (S i) r xs'
  end.

Definition indexOf (xs : list result) (r : result) : num := index_of_from 0 r xs.

Definition keyword_step (mergedMap : list (value * merged)) (r : result) :
    list (value * merged) :=
  let key := result_key (res_value r) in
  match map_get key mergedMap with
  | Some _ => mergedMap
  | None =>
      map_set key
        (mk_merged (res_value r) ["keyword"] (Some (Fin (INR (List.length mergedMap)))) None None)
        mergedMap
  end.

Definition semantic_step (semanticResults : list result) (mergedMap : list (value * merged))
    (r : result) : list (value * merged) :=
  let key := result_key (res_value r) in
  match map_get key mergedMap with
  | Some existing =>
      map_set key
        (mk_merged (m_result existing) (app (searchMethods existing) ["semantic"])
           (keywordRank existing) (Some (indexOf semanticResults r)) (Some (Fin 1.2)))
        mergedMap
  | None =>
      map_set key
        (mk_merged (res_value r) ["semantic"] None (Some (indexOf semanticResults r)) None)
        mergedMap
  end.

Definition merged_map (keywordResults semanticResults : list result) : list (value * merged) :=
  fold_left (semantic_step semanticResults) semanticResults
    (fold_left keyword_step keywordResults []).

(** [mergeAndScoreResults(keywordResults, semanticResults)]:
    [Array.from(mergedMap.values())]. *)
Definition mergeAndScoreResults (keywordResults semanticResults : list result) : list merged :=
  map snd (merged_map keywordResults semanticResults).

(** A key compared by value. *)
Definition is_primitive (v : value) : bool :=
  match v with JDate _ | JObj _ => false | _ => true end.

End MergeResults.

(** Predicates used to state the properties of [mergeAndScoreResults]. *)
Module MergeSpec.
Import Js MergeResults.

(** The invariant of the map between the loops. *)
Definition map_ok (m : list (value * merged)) : Prop :=
  ForallOrdPairs (fun a b => same_value_zero a b = false) (map fst m) /\
  Forall (fun e => fst e = result_key (m_result (snd e)) /\ is_primitive (fst e) = true) m.

(** One step of the second loop, seen from one key [k]. *)
Definition sem_update (sem : list result) (k : value) (o : option merged) (r : result) :
    option merged :=
  if same_value_zero k (result_key (res_value r)) then
    Some (match o with
          | Some e => mk_merged (m_result e) (app (searchMethods e) ["semantic"])
                        (keywordRank e) (Some (indexOf sem r)) (Some (Fin 1.2))
          | None => mk_merged (res_value r) ["semantic"] None (Some (indexOf sem r)) None
          end)
  else o.

End MergeSpec.

(** Deletions, [readGraph] and [createEntities]. *)
Module RepoDeletes.
Import Repo.
Local Open Scope nat_scope.

(** The tables after [DELETE FROM entities WHERE name IN (names)]: with
    [PRAGMA foreign_keys=ON], the [ON DELETE CASCADE] keys of
    [observations.entity_id], [relations.from_id] and [relations.to_id]
    remove the rows of the deleted ids; the [vec0] table [obs_vec] has no
    foreign key. *)
Definition delete_entities_tables (names : list string) (t : tables) : tables :=
  let ids := map e_id (filter (fun e => in_names names (e_name e)) (entities t)) in
  mk_tables (filter (fun e => negb (in_names names (e_name e))) (entities t))
            (filter (fun o => negb (in_ids ids (o_entity o))) (observations t))
            (filter (fun r => negb (in_ids ids (r_from r) || in_ids ids (r_to r))) (relations t))
            (obs_vec t) (ent_seq t) (obs_seq t).

(** [deleteEntities(names)] *)
Definition deleteEntities (names : list string) : M unit :=
  match names with
  | [] => ret tt
  | _ => modify (fun t => (tt, delete_entities_tables names t))
  end.

(** [deleteObservations(entityId, observations)]: [DELETE FROM
    observations WHERE entity_id = ? AND content IN (...)]. *)
Definition deleteObservations (entityId : nat) (observations : list string) : M unit :=
  match observations with
  | [] => ret tt
  | _ =>
      modify (fun t =>
        (tt, mk_tables (entities t)
               (filter (fun o => negb (Nat.eqb (o_entity o) entityId &&
                                       in_names observations (o_content o)))
                       (Repo.observations t))
               (relations t) (obs_vec t) (ent_seq t) (obs_seq t)))
  end.

(** [DELETE FROM relations WHERE from_id = ? AND to_id = ? AND relationType = ?] *)
Definition delete_relation_row (fromId toId : nat) (relationType : string) : M unit :=
  modify (fun t =>
    (tt, mk_tables (entities t) (observations t)
           (filter (fun r => negb (rel_eqb (mk_rel fromId toId relationType) r)) (relations t))
           (obs_vec t) (ent_seq t) (obs_seq t))).

(** [deleteRelations(relations)]; the parameter is [rels] here, and
    [!fromId || !toId] holds for [null] and for the id [0]. *)
Fixpoint deleteRelations (rels : list relation) : M unit :=
  match rels with
  | [] => ret tt
  | relation :: rest =>
      fromId <- getEntityId (from relation) ;;
      toId <- getEntityId (to relation) ;;
      _ <- match fromId, toId with
           | Some (S _ as f), Some (S _ as t) => delete_relation_row f t (Repo.relationType relation)
           | _, _ => ret tt
           end ;;
      deleteRelations rest
  end.

(** [readGraph()]: every entity with its observations, and every relation
    row joined to the names of its endpoints, rows in table order. *)
Definition readGraph : M open_result :=
  gets (fun t =>
    mk_open
      (map (fun e => mk_node (e_name e) (e_type e)
                       (map o_content (filter (fun o => Nat.eqb (o_entity o) (e_id e))
                                              (observations t))))
           (entities t))
      (flat_map (fun r =>
         flat_map (fun ef =>
           flat_map (fun et => [mk_relation (e_name ef) (e_name et) (r_type r)])
             (filter (fun et => Nat.eqb (e_id et) (r_to r)) (entities t)))
           (filter (fun ef => Nat.eqb (e_id ef) (r_from r)) (entities t)))
         (relations t))).

Module KnowledgeGraphManager.

(** [deleteObservations(list)]; the parameter is [entries] here. *)
Fixpoint deleteObservations (entries : list (string * list string)) : M unit :=
  match entries with
  | [] => ret tt
  | (entityName, observations) :: rest =>
      entityId <- getEntityId entityName ;;
      _ <- match entityId with
           | None | Some 0 => ret tt
           | Some id => RepoDeletes.deleteObservations id observations
           end ;;
      deleteObservations rest
  end.

(** An element of the argument of [createEntities]. *)
Record entity_input : Type := mk_entity_input {
  ei_name : string;
  ei_entityType : string;
  ei_observations : option (list string)
}.

Section WithDriver.

Variable column : vec_column.
Variable vec_insert_fails : tables -> vec_row -> bool.
Variable embed : string -> list nat.

(** [createEntities(entities)]; the parameter is [ents] here, [!existingId]
    holds for [null] and for the id [0], and [entity.observations?.length]
    is truthy for a non-empty array only. *)
Fixpoint createEntities_loop (ents : list entity_input) (created : list entity_input)
    : M (list entity_input) :=
  match ents with
  | [] => ret created
  | entity :: rest =>
      existingId <- Repo.getEntityId (ei_name entity) ;;
      created' <- match existingId with
                  | None | Some 0 =>
                      _ <- createEntity (ei_name entity) (ei_entityType entity) ;;
                      ret (app created [entity])
                  | Some _ => ret created
                  end ;;
      _ <- match ei_observations entity with
           | Some (_ :: _ as obs) =>
               _ <- addObservations column vec_insert_fails embed [(ei_name entity, obs)] ;;
               ret tt
           | _ => ret tt
           end ;;
      createEntities_loop rest created'
  end.

Definition createEntities (ents : list entity_input) : M (list entity_input) :=
  createEntities_loop ents [].

End WithDriver.

End KnowledgeGraphManager.

End RepoDeletes.

(** The inputs [createEntities] creates: each one whose name is neither
    stored nor the name of an earlier created input. *)
Module RepoDeletesSpec.
Import Repo RepoDeletes.KnowledgeGraphManager.

Fixpoint new_entities (known : list string) (xs : list entity_input) : list entity_input :=
  match xs with
  | [] => []
  | x :: xs' =>
      if in_names known (ei_name x) then new_entities known xs'
      else x :: new_entities (ei_name x :: known) xs'
  end.

(** Two graphs hold the same entities, each with the same type and the
    same observations, and the same relations, in whatever order each of
    them lists its rows: the queries of [readGraph] and [openNodes] have no
    ORDER BY, so the database may return their rows in any order (a
    [WHERE name IN] query is answered through the unique name index, a full
    scan in rowid order). *)
Definition same_node (a b : node) : Prop :=
  n_name a = n_name b /\ n_entityType a = n_entityType b /\
  Permutation (n_observations a) (n_observations b).

Definition same_graph (g1 g2 : open_result) : Prop :=
  exists l, Permutation (or_entities g2) l /\ Forall2 same_node (or_entities g1) l /\
            Permutation (or_relations g1) (or_relations g2).

End RepoDeletesSpec.

(** ** Sample inputs of the extra properties *)

Module ExtraExamples.
Import Js Repo RepoDeletes.KnowledgeGraphManager SortRelevance MergeResults.

(** Rows scored by a boolean field, one of them without it. *)
Definition sort_rows : list value :=
  [JObj [("s", JBool false)]; JObj []; JObj [("s", JBool true)]].

Definition sort_rank (e : value) : R :=
  match relevance_key "s" e with Fin r => r | _ => 0 end.

(** A keyword result and two semantic ones, one with the same entity. *)
Definition merge_kw : list result := [mk_result 1 (JObj [("entity_id", JStr "a")])].
Definition merge_sem : list result :=
  [mk_result 2 (JObj [("entity_id", JStr "a")]); mk_result 3 (JObj [("id", JStr "b")])].

(** A repeated name, with observations each time, and a second entity. *)
Definition sample_inputs : list entity_input :=
  [mk_entity_input "a" "T" (Some ["x"; "y"]);
   mk_entity_input "a" "U" (Some ["z"]);
   mk_entity_input "b" "T" None].

End ExtraExamples.

(** * Properties *)

(** Case analysis on the real comparisons the number operations make. *)
Ltac rdec :=
  unfold Js.rlt, Js.req in *;
  repeat match goal with
         | |- context [Rlt_dec ?a ?b] => destruct (Rlt_dec a b)
         | |- context [Req_dec_T ?a ?b] => destruct (Req_dec_T a b)
         | |- context [Rle_dec ?a ?b] => destruct (Rle_dec a b)
         | H : context [Rlt_dec ?a ?b] |- _ => destruct (Rlt_dec a b)
         | H : context [Req_dec_T ?a ?b] |- _ => destruct (Req_dec_T a b)
         end.


Module JsFacts.
Import Js.

Lemma add_fin (a b : R) : add (Fin a) (Fin b) = Fin (a + b).
Proof. reflexivity. Qed.

Lemma sub_fin (a b : R) : sub (Fin a) (Fin b) = Fin (a - b).
Proof. reflexivity. Qed.

Lemma mul_fin (a b : R) : mul (Fin a) (Fin b) = Fin (a * b).
Proof. reflexivity. Qed.

Lemma div_fin (a b : R) : b <> 0 -> div (Fin a) (Fin b) = Fin (a / b).
Proof. intros H. cbn. rdec; try contradiction; reflexivity. Qed.

Lemma exp_fin (a : R) : exp (Fin a) = Fin (Rtrigo_def.exp a).
Proof. reflexivity. Qed.

Lemma min_fin (a b : R) : min (Fin a) (Fin b) = Fin (Rmin a b).
Proof. cbn. unfold Rmin. rdec; f_equal; lra. Qed.

Lemma max_fin (a b : R) : max (Fin a) (Fin b) = Fin (Rmax a b).
Proof. cbn. unfold Rmax. rdec; f_equal; lra. Qed.

Lemma lt_fin (a b : R) : lt (Fin a) (Fin b) = rlt a b.
Proof. reflexivity. Qed.

Lemma rlt_iff (a b : R) : rlt a b = true <-> a < b.
Proof. rdec; split; intros; try lra; congruence. Qed.

(** [Math.min(x, b)] is at most [b] whenever it is a finite number. *)
Lemma min_le_bound (x : num) (b r : R) : min x (Fin b) = Fin r -> r <= b.
Proof.
  destruct x as [a| | |]; cbn; rdec; intros H; try discriminate;
  injection H as <-; lra.
Qed.

End JsFacts.

Module ScoringFacts.
Import Js Scoring ScoringProfiles.

Lemma contextual_default_pos (d : R) :
  0 < d -> d <= 3 ->
  getContextualScore (n d) default_contextual = Fin (Rmax (1.5 - d * 0.2) 0.5).
Proof.
  intros H0 H3. unfold getContextualScore, default_contextual, n; cbn.
  unfold Rmax; rdec; cbn; try lra; f_equal; lra.
Qed.

(** C6: under the default contextual configuration (nearWeight 1.5,
    decayRate 0.2, maxDistance 3) the score is 1.5 at distance 0,
    [max(1.5 - 0.2 d, 0.5)] for [0 < d <= 3] and non-increasing there, and
    exactly 1.0 for a null or undefined distance or one above 3. *)
Theorem getContextualScore_default_profile :
  getContextualScore (n 0) default_contextual = Fin 1.5 /\
  (forall d, 0 < d -> d <= 3 ->
     getContextualScore (n d) default_contextual = Fin (Rmax (1.5 - d * 0.2) 0.5)) /\
  (forall d1 d2 r1 r2, 0 < d1 -> d1 <= d2 -> d2 <= 3 ->
     getContextualScore (n d1) default_contextual = Fin r1 ->
     getContextualScore (n d2) default_contextual = Fin r2 -> r2 <= r1) /\
  getContextualScore JNull default_contextual = Fin 1.0 /\
  getContextualScore JUndef default_contextual = Fin 1.0 /\
  (forall d, 3 < d -> getContextualScore (n d) default_contextual = Fin 1.0).
Proof.
  split; [|split; [|split; [|split; [|split]]]].
  - unfold getContextualScore, default_contextual, n; cbn; rdec; cbn; try lra; reflexivity.
  - exact contextual_default_pos.
  - intros d1 d2 r1 r2 H1 H12 H2 E1 E2.
    rewrite contextual_default_pos in E1, E2 by lra.
    injection E1 as <-. injection E2 as <-.
    unfold Rmax; repeat destruct (Rle_dec _ _); lra.
  - reflexivity.
  - reflexivity.
  - intros d Hd. unfold getContextualScore, default_contextual, n; cbn; rdec; cbn;
      try lra; reflexivity.
Qed.

(** Witness for C6: distance 2 lies in the decay band. *)
Lemma getContextualScore_default_profile_witness :
  0 < 2 /\ 2 <= 3 /\
  getContextualScore (n 2) default_contextual = Fin (Rmax (1.5 - 2 * 0.2) 0.5).
Proof.
  split; [lra|]. split; [lra|].
  apply (proj1 (proj2 getContextualScore_default_profile)); lra.
Defined.

End ScoringFacts.

Module ProfileFacts.
Import Js Scoring ScoringProfiles.

Lemma assoc_app (k : string) (l1 l2 : list (string * value)) :
  assoc k (l1 ++ l2) = match assoc k l1 with Some v => Some v | None => assoc k l2 end.
Proof.
  induction l1 as [|[k' v] l1 IH]; cbn; [reflexivity|].
  destruct (String.eqb k k'); [reflexivity|exact IH].
Qed.

Lemma get_spread (d o : value) (k : string) :
  get (spread d o) k = match own o k with Some v => v | None => get d k end.
Proof.
  unfold get at 1, spread; cbn. rewrite assoc_app.
  unfold get, own, own_fields.
  destruct o; destruct d; try reflexivity;
  match goal with |- context [assoc k ?l] => destruct (assoc k l) end; reflexivity.
Qed.

Lemma createScoringConfig_weights (c : value) :
  get (createScoringConfig c) "weights" =
  spread (get DEFAULT_SCORING_CONFIG "weights")
         (get (match c with JUndef => JObj [] | _ => c end) "weights").
Proof. reflexivity. Qed.

Lemma search_config_weight (p : value) (k : string) :
  to_number (get (get (search_scoring_config p) "weights") k) = merged_weight p k.
Proof.
  unfold search_scoring_config, merged_weight.
  rewrite createScoringConfig_weights, get_spread.
  assert (Hor : match or p (JStr "balanced") with
                | JUndef => JObj [] | _ => or p (JStr "balanced") end = or p (JStr "balanced")).
  { unfold or; destruct (truthy p) eqn:E; [|reflexivity]. destruct p; try reflexivity.
    discriminate. }
  rewrite Hor. reflexivity.
Qed.

End ProfileFacts.

Module TemporalFacts.
Import Js Scoring ScoringProfiles.

Lemma ms_per_day_pos : 0 < ms_per_day.
Proof. unfold ms_per_day; lra. Qed.

(** The temporal score of an item with valid creation and access times. *)
Lemma temporal_valid_dates (parse_date : string -> num) (now c a : R) :
  getTemporalScore parse_date now (JDate (Fin c)) (JDate (Fin a)) default_temporal =
  Fin (Rmin (Rtrigo_def.exp (-0.693 * ((now - Rmax a c) / ms_per_day) / 30) *
             (if Rlt_dec ((now - a) / ms_per_day) 7 then 1.2 else 1.0)) 1.2).
Proof.
  pose proof ms_per_day_pos as Hms.
  assert (H30 : (30 : R) <> 0) by lra.
  unfold getTemporalScore, default_temporal; cbn -[ms_per_day Rtrigo_def.exp div mul sub min exp].
  rewrite !JsFacts.sub_fin, !JsFacts.div_fin by lra.
  rewrite JsFacts.lt_fin; unfold rlt at 2.
  destruct (Rlt_dec ((now - a) / ms_per_day) 7); unfold Rmax;
  destruct (rlt c a) eqn:E1; rdec; try discriminate; destruct (Rle_dec a c); try lra;
  rewrite !JsFacts.sub_fin, !JsFacts.div_fin, !JsFacts.mul_fin, !JsFacts.div_fin,
    JsFacts.exp_fin, JsFacts.mul_fin, JsFacts.min_fin by lra; reflexivity.
Qed.

(** An item created and last accessed at the current time. *)
Lemma temporal_fresh (parse_date : string -> num) (now : R) :
  getTemporalScore parse_date now (JDate (Fin now)) (JDate (Fin now)) default_temporal =
  Fin 1.2.
Proof.
  pose proof ms_per_day_pos as Hms.
  rewrite temporal_valid_dates.
  rewrite Rmax_left by lra.
  replace ((now - now) / ms_per_day) with 0 by (field; lra).
  destruct (Rlt_dec 0 7); [|lra].
  replace (-0.693 * 0 / 30) with 0 by lra. rewrite exp_0.
  rewrite Rmin_left by lra. f_equal; lra.
Qed.

(** The temporal score when [lastAccessed] is missing: no recency boost and
    the age is measured from [createdAt]. *)
Lemma temporal_not_accessed (parse_date : string -> num) (now c : R) (la : value) :
  truthy la = false ->
  getTemporalScore parse_date now (JDate (Fin c)) la default_temporal =
  Fin (Rmin (Rtrigo_def.exp (-0.693 * ((now - c) / ms_per_day) / 30) * 1.0) 1.2).
Proof.
  intros Hla. pose proof ms_per_day_pos as Hms.
  unfold getTemporalScore, default_temporal; rewrite Hla.
  cbn -[ms_per_day Rtrigo_def.exp div mul sub min exp].
  replace (if rlt c c then Fin c else Fin c) with (Fin c) by (destruct (rlt c c); reflexivity).
  rewrite !JsFacts.sub_fin, !JsFacts.div_fin, !JsFacts.mul_fin, !JsFacts.div_fin,
    JsFacts.exp_fin, JsFacts.mul_fin, JsFacts.min_fin by lra; reflexivity.
Qed.

(** A missing or unparsable [createdAt] makes the temporal score NaN. *)
Lemma temporal_invalid_created (parse_date : string -> num) (now : R) (ca la cfg : value) :
  date_value parse_date ca = NaN ->
  getTemporalScore parse_date now ca la cfg = NaN.
Proof.
  intros Hc. unfold getTemporalScore. rewrite Hc.
  destruct (truthy la); [destruct (date_value parse_date la)|]; reflexivity.
Qed.

(** Under the default configuration a finite temporal score never exceeds
    the recency boost 1.2. *)
Lemma temporal_ceiling (parse_date : string -> num) (now : R) (ca la : value) (r : R) :
  getTemporalScore parse_date now ca la default_temporal = Fin r -> r <= 1.2.
Proof.
  intros H. unfold getTemporalScore in H. apply JsFacts.min_le_bound in H. exact H.
Qed.

Lemma exp_double (x : R) : Rtrigo_def.exp (2 * x) = Rtrigo_def.exp x * Rtrigo_def.exp x.
Proof. replace (2 * x) with (x + x) by lra. apply exp_plus. Qed.

(** [exp(-0.693)], the decay factor at an age of one half-life, is 0.5 up to
    0.01. *)
Lemma exp_m0693_bounds : 0.49 < Rtrigo_def.exp (-0.693) < 0.51.
Proof.
  set (y := 0.693 / 32).
  set (e := Rtrigo_def.exp (- y)).
  assert (He : Rtrigo_def.exp (-0.693) =
                 ((((e * e) * (e * e)) * ((e * e) * (e * e))) *
                  (((e * e) * (e * e)) * ((e * e) * (e * e)))) *
                 ((((e * e) * (e * e)) * ((e * e) * (e * e))) *
                  (((e * e) * (e * e)) * ((e * e) * (e * e))))).
  { unfold e. rewrite <- !exp_double. f_equal. unfold y. lra. }
  assert (Hlo : 1 - y <= e) by (unfold e; pose proof (exp_ineq1_le (- y)); lra).
  assert (Hy : 1 + y <= Rtrigo_def.exp y) by apply exp_ineq1_le.
  assert (Hey : e * Rtrigo_def.exp y = 1).
  { unfold e. rewrite <- exp_plus. replace (- y + y) with 0 by lra. apply exp_0. }
  assert (Hpos : 0 < e) by apply exp_pos.
  assert (Hup : e <= 0.97881).
  { assert (0 < Rtrigo_def.exp y) by apply exp_pos. unfold y in *. nra. }
  rewrite He.
  set (e2 := e * e). set (e4 := e2 * e2). set (e8 := e4 * e4).
  set (e16 := e8 * e8).
  assert (L2 : 0.9571 <= e2) by (unfold e2; unfold y in Hlo; nra).
  assert (U2 : e2 <= 0.95807) by (unfold e2; nra).
  assert (L4 : 0.916 <= e4) by (unfold e4; nra).
  assert (U4 : e4 <= 0.9179) by (unfold e4; nra).
  assert (L8 : 0.839 <= e8) by (unfold e8; nra).
  assert (U8 : e8 <= 0.84255) by (unfold e8; nra).
  assert (L16 : 0.7039 <= e16) by (unfold e16; nra).
  assert (U16 : e16 <= 0.7099) by (unfold e16; nra).
  split; nra.
Qed.

End TemporalFacts.

Module TemporalClaims.
Import Js Scoring ScoringProfiles TemporalFacts.

(** C5 (amended): under the default temporal configuration the score is
    [min(exp(-0.693 * age / 30) * boost, 1.2)] where the age in days runs
    from the later of [createdAt] and [lastAccessed] (from [createdAt] when
    [lastAccessed] is missing) and [boost] is 1.2 exactly when a present
    [lastAccessed] is less than 7 days old; every finite score is at most
    1.2; an item created and accessed now scores 1.2; an item created one
    half-life ago and never accessed scores [exp(-0.693)], within 0.01 of
    0.5; a missing or unparsable [createdAt] gives NaN, not 1.0. *)
Theorem getTemporalScore_amended :
  (forall parse_date now c a,
     getTemporalScore parse_date now (JDate (Fin c)) (JDate (Fin a)) default_temporal =
     Fin (Rmin (Rtrigo_def.exp (-0.693 * ((now - Rmax a c) / ms_per_day) / 30) *
                (if Rlt_dec ((now - a) / ms_per_day) 7 then 1.2 else 1.0)) 1.2)) /\
  (forall parse_date now c la, truthy la = false ->
     getTemporalScore parse_date now (JDate (Fin c)) la default_temporal =
     Fin (Rmin (Rtrigo_def.exp (-0.693 * ((now - c) / ms_per_day) / 30) * 1.0) 1.2)) /\
  (forall parse_date now ca la r,
     getTemporalScore parse_date now ca la default_temporal = Fin r -> r <= 1.2) /\
  (forall parse_date now,
     getTemporalScore parse_date now (JDate (Fin now)) (JDate (Fin now)) default_temporal =
     Fin 1.2) /\
  (forall parse_date now la, truthy la = false ->
     getTemporalScore parse_date now (JDate (Fin (now - 30 * ms_per_day))) la
       default_temporal = Fin (Rtrigo_def.exp (-0.693)) /\
     0.49 < Rtrigo_def.exp (-0.693) < 0.51) /\
  (forall parse_date now ca la cfg, date_value parse_date ca = NaN ->
     getTemporalScore parse_date now ca la cfg = NaN).
Proof.
  pose proof ms_per_day_pos as Hms.
  split; [exact temporal_valid_dates|].
  split; [exact temporal_not_accessed|].
  split; [exact temporal_ceiling|].
  split.
  { exact temporal_fresh. }
  split.
  { intros parse_date now la Hla. rewrite temporal_not_accessed by exact Hla.
    pose proof exp_m0693_bounds as Hb.
    replace (-0.693 * ((now - (now - 30 * ms_per_day)) / ms_per_day) / 30) with (-0.693)
      by (field; lra).
    rewrite Rmin_left by lra. split; [f_equal; lra|exact Hb]. }
  exact temporal_invalid_created.
Qed.

(** Witness for C5: the half-life case for an item never accessed. *)
Lemma getTemporalScore_amended_witness :
  truthy JUndef = false /\
  getTemporalScore (fun _ => NaN) 0 (JDate (Fin (0 - 30 * ms_per_day))) JUndef
    default_temporal = Fin (Rtrigo_def.exp (-0.693)).
Proof.
  split; [reflexivity|].
  exact (proj1 (proj1 (proj2 (proj2 (proj2 (proj2 getTemporalScore_amended))))
                  (fun _ => NaN) 0 JUndef eq_refl)).
Defined.

(** C5 counterexample: an item with no [createdAt] and no [lastAccessed]
    does not get the neutral score 1.0 (its score is NaN). *)
Lemma getTemporalScore_missing_dates_not_neutral :
  getTemporalScore (fun _ => NaN) 0 JUndef JUndef default_temporal <> Fin 1.0.
Proof. cbn. discriminate. Qed.

End TemporalClaims.

Module ProfileClaims.
Import Js Scoring ScoringProfiles ProfileFacts TemporalFacts.

Lemma finalScore_weighted (parse_date : string -> num) (now : R) (e d p : value) :
  let r := calculateRelevanceScore parse_date now e d (search_scoring_config p) in
  finalScore r =
  weighted_sum (score_components r) (merged_weight p "temporal") (merged_weight p "popularity")
    (merged_weight p "contextual") (merged_weight p "importance").
Proof.
  cbn zeta. unfold calculateRelevanceScore, weighted_sum.
  cbn [finalScore score_components c_temporal c_popularity c_contextual c_importance].
  rewrite !search_config_weight. reflexivity.
Qed.

Lemma merged_weight_name (s k : string) :
  merged_weight (JStr s) k = to_number (get default_weights k).
Proof. unfold merged_weight, or. destruct (truthy (JStr s)); reflexivity. Qed.

(** The scoring profile as [createScoringConfig] reads it: the final score
    is the weighted sum of the four components, each weight being the
    profile's [weights] field for that key merged over the default weights;
    a profile name (a string, 'balanced', 'recency' or any other) or an
    absent profile selects no preset and yields exactly the defaults, as
    does an object without a [weights] field, so there
    finalScore = 0.4 temporal + 0.2 popularity + 0.2 contextual +
    0.2 importance; only a key given in [weights] overrides that weight. *)
Theorem calculateRelevanceScore_profile_amended :
  (forall parse_date now e d p,
     let r := calculateRelevanceScore parse_date now e d (search_scoring_config p) in
     finalScore r =
     weighted_sum (score_components r) (merged_weight p "temporal")
       (merged_weight p "popularity") (merged_weight p "contextual")
       (merged_weight p "importance")) /\
  (forall s k, merged_weight (JStr s) k = to_number (get default_weights k)) /\
  merged_weight JUndef = merged_weight (JStr "balanced") /\
  (forall fs k, assoc "weights" fs = None ->
     merged_weight (JObj fs) k = to_number (get default_weights k)) /\
  (forall fs ws k v, assoc "weights" fs = Some (JObj ws) -> assoc k ws = Some v ->
     merged_weight (JObj fs) k = to_number v) /\
  (forall parse_date now e d s,
     let r := calculateRelevanceScore parse_date now e d (search_scoring_config (JStr s)) in
     finalScore r = weighted_sum (score_components r) (Fin 0.4) (Fin 0.2) (Fin 0.2) (Fin 0.2)).
Proof.
  split; [exact finalScore_weighted|].
  split; [exact merged_weight_name|].
  split; [reflexivity|].
  split.
  { intros fs k H. unfold merged_weight. cbn [or truthy].
    change (get (JObj fs) "weights")
      with (match assoc "weights" fs with Some v => v | None => JUndef end).
    rewrite H. reflexivity. }
  split.
  { intros fs ws k v H1 H2. unfold merged_weight. cbn [or truthy].
    change (get (JObj fs) "weights")
      with (match assoc "weights" fs with Some v => v | None => JUndef end).
    rewrite H1. cbn [own]. rewrite H2. reflexivity. }
  intros parse_date now e d s. cbn zeta. rewrite finalScore_weighted.
  rewrite !merged_weight_name. reflexivity.
Qed.

(** A custom [weights] field overrides its key. *)
Lemma calculateRelevanceScore_profile_amended_witness :
  assoc "weights" [("weights", JObj [("temporal", n 1)])] = Some (JObj [("temporal", n 1)]) /\
  assoc "temporal" [("temporal", n 1)] = Some (n 1) /\
  merged_weight (JObj [("weights", JObj [("temporal", n 1)])]) "temporal" = Fin 1.
Proof.
  split; [reflexivity|]. split; [reflexivity|].
  exact (proj1 (proj2 (proj2 (proj2 (proj2 calculateRelevanceScore_profile_amended))))
           [("weights", JObj [("temporal", n 1)])] [("temporal", n 1)] "temporal" (n 1)
           eq_refl eq_refl).
Defined.

(** C4 counterexample: a custom override of the four weights given as a
    flat weights object (the form the [scoringProfile] option documents as
    "custom weights") is not applied: with temporal weight 1 and the others
    0, an entity created and accessed now would score 1.2; it scores 1.08
    under the default weights instead. Named profiles fare the same: any
    string, 'recency' included, yields the default weights
    ([merged_weight_name]). *)
Lemma flat_custom_weights_ignored :
  let r := calculateRelevanceScore (fun _ => NaN) 0 probe_entity JNull
             (search_scoring_config flat_weights_profile) in
  finalScore r = Fin 1.08 /\
  finalScore r <> weighted_sum (score_components r) (Fin 1) (Fin 0) (Fin 0) (Fin 0).
Proof.
  cbn zeta. rewrite finalScore_weighted.
  unfold calculateRelevanceScore; cbn [score_components c_temporal c_popularity c_contextual
    c_importance].
  change (get probe_entity "createdAt") with (JDate (Fin 0)).
  change (get probe_entity "lastAccessed") with (JDate (Fin 0)).
  change (get (search_scoring_config flat_weights_profile) "temporal") with default_temporal.
  rewrite temporal_fresh.
  unfold weighted_sum, merged_weight, getPopularityScore; cbn.
  replace (or (n 0) (n 0)) with (n 0) by (unfold or; destruct (truthy (n 0)); reflexivity).
  cbn; rdec; try lra; cbn.
  split; [f_equal; lra|].
  intros H; injection H; lra.
Qed.

End ProfileClaims.

Module RepoFacts.
Import Repo RepoSpec SqliteRepository.
Local Open Scope nat_scope.

Lemma bind_ok {A B} (m : M A) (f : A -> M B) s a s1 :
  m s = (Ok a, s1) -> bind m f s = f a s1.
Proof. intros H. unfold bind. rewrite H. reflexivity. Qed.

Lemma bind_err {A B} (m : M A) (f : A -> M B) s e s1 :
  m s = (Err e, s1) -> bind m f s = (Err e, s1).
Proof. intros H. unfold bind. rewrite H. reflexivity. Qed.

Lemma find_entity_app_some name es l e :
  find_entity_by_name name es = Some e -> find_entity_by_name name (es ++ l) = Some e.
Proof.
  induction es as [|x es IH]; cbn; [discriminate|].
  destruct (String.eqb (e_name x) name); auto.
Qed.

Lemma find_entity_app_none name es l :
  find_entity_by_name name es = None ->
  find_entity_by_name name (es ++ l) = find_entity_by_name name l.
Proof.
  induction es as [|x es IH]; cbn; [reflexivity|].
  destruct (String.eqb (e_name x) name); [discriminate|auto].
Qed.

(** [getOrCreateEntityId] never fails, returns the id of the entity now
    holding the name, keeps every entity found before and touches no other
    table. *)
Lemma getOrCreateEntityId_spec name ty s :
  exists e s1,
    getOrCreateEntityId name ty s = (Ok (e_id e), s1) /\
    find_entity_by_name name (entities (db s1)) = Some e /\
    (forall nm e', find_entity_by_name nm (entities (db s)) = Some e' ->
                   find_entity_by_name nm (entities (db s1)) = Some e') /\
    observations (db s1) = observations (db s) /\
    relations (db s1) = relations (db s) /\
    tx s1 = tx s /\ embed_log s1 = embed_log s.
Proof.
  unfold getOrCreateEntityId, getEntityId, gets, bind.
  destruct (find_entity_by_name name (entities (db s))) as [e|] eqn:E; cbn.
  - exists e, s. repeat split; auto.
  - unfold createEntity. rewrite E.
    eexists (mk_entity (ent_seq (db s)) name ty), _. split; [reflexivity|].
    cbn. rewrite (find_entity_app_none _ _ _ E). cbn. rewrite String.eqb_refl.
    repeat split; auto.
    intros nm e' H. apply find_entity_app_some. exact H.
Qed.

Lemma count_obs_app eid c os l :
  count_obs eid c (os ++ l) = count_obs eid c os + count_obs eid c l.
Proof. unfold count_obs. rewrite filter_app, length_app. reflexivity. Qed.

Lemma count_obs_single eid c id c' imp la :
  count_obs eid c [mk_obs id eid c' imp la] = if String.eqb c' c then 1 else 0.
Proof. unfold count_obs. cbn. rewrite Nat.eqb_refl. cbn. destruct (String.eqb c' c); reflexivity. Qed.

Lemma find_obs_none eid c os : find_obs eid c os = None <-> count_obs eid c os = 0.
Proof.
  unfold count_obs. induction os as [|o os IH]; cbn; [tauto|].
  destruct (Nat.eqb (o_entity o) eid && String.eqb (o_content o) c); cbn; [|exact IH].
  split; discriminate.
Qed.

Lemma insertObservation_step eid c s :
  insertObservation eid c s =
  match find_obs eid c (observations (db s)) with
  | Some o => (Ok (mk_insert_result false (Some (o_id o))), s)
  | None =>
      (Ok (mk_insert_result true (Some (obs_seq (db s)))),
       set_db (mk_tables (entities (db s))
                 (observations (db s) ++ [mk_obs (obs_seq (db s)) eid c "normal" None])
                 (relations (db s)) (obs_vec (db s)) (ent_seq (db s)) (S (obs_seq (db s)))) s)
  end.
Proof.
  destruct s as [t tx0 lg]. unfold insertObservation, modify. cbn.
  destruct (find_obs eid c (observations t)); reflexivity.
Qed.

(** What [insert_contents] does: nothing fails, the pairs it returns are
    the contents with no stored row before, each once, and each listed
    content gets a row exactly when it had none. *)
Lemma insert_contents_spec eid cs s :
  exists ins s1,
    insert_contents eid cs s = (Ok ins, s1) /\
    entities (db s1) = entities (db s) /\
    tx s1 = tx s /\ embed_log s1 = embed_log s /\
    (forall c, In c (map snd ins) <-> In c cs /\ count_obs eid c (observations (db s)) = 0) /\
    NoDup (map snd ins) /\
    (forall c, count_obs eid c (observations (db s1)) =
       count_obs eid c (observations (db s)) +
       (if in_names cs c && Nat.eqb (count_obs eid c (observations (db s))) 0 then 1 else 0)).
Proof.
  revert s; induction cs as [|c cs IH]; intros s.
  - exists [], s. split; [reflexivity|]. do 3 (split; [reflexivity|]).
    split; [|split].
    + intros c. cbn. tauto.
    + constructor.
    + intros c. cbn. lia.
  - cbn [insert_contents].
    destruct (find_obs eid c (observations (db s))) as [o|] eqn:F.
    + assert (Hc : count_obs eid c (observations (db s)) <> 0).
      { intros H. apply find_obs_none in H. congruence. }
      destruct (IH s) as (ins & s1 & Hrun & He & Ht & Hl & Hin & Hnd & Hcnt).
      exists ins, s1.
      rewrite (bind_ok _ _ s (mk_insert_result false (Some (o_id o))) s)
        by (rewrite insertObservation_step, F; reflexivity).
      rewrite (bind_ok _ _ s ins s1 Hrun). cbn.
      split; [reflexivity|]. do 3 (split; [assumption|]).
      split; [|split; [assumption|]].
      * intros c'. rewrite Hin. split; [cbn; tauto|].
        intros [[<-|H] H0]; [contradiction|tauto].
      * intros c'. rewrite Hcnt. cbn [in_names existsb].
        destruct (String.eqb_spec c' c) as [->|Hne]; cbn [orb].
        -- destruct (Nat.eqb_spec (count_obs eid c (observations (db s))) 0); [contradiction|].
           rewrite !andb_false_r. reflexivity.
        -- reflexivity.
    + apply find_obs_none in F as Hc0.
      remember (set_db (mk_tables (entities (db s))
                 (observations (db s) ++ [mk_obs (obs_seq (db s)) eid c "normal" None])
                 (relations (db s)) (obs_vec (db s)) (ent_seq (db s)) (S (obs_seq (db s)))) s)
        as sA eqn:EA.
      assert (HobsA : observations (db sA) =
                      app (observations (db s)) [mk_obs (obs_seq (db s)) eid c "normal" None])
        by (subst sA; reflexivity).
      assert (HeA : entities (db sA) = entities (db s)) by (subst sA; reflexivity).
      assert (HtA : tx sA = tx s) by (subst sA; reflexivity).
      assert (HlA : embed_log sA = embed_log s) by (subst sA; reflexivity).
      assert (HcA : forall c', count_obs eid c' (observations (db sA)) =
                               count_obs eid c' (observations (db s)) +
                               (if String.eqb c c' then 1 else 0)).
      { intros c'. rewrite HobsA, count_obs_app, count_obs_single. reflexivity. }
      destruct (IH sA) as (ins & s1 & Hrun & He & Ht & Hl & Hin & Hnd & Hcnt).
      exists ((obs_seq (db s), c) :: ins), s1.
      rewrite (bind_ok _ _ s (mk_insert_result true (Some (obs_seq (db s)))) sA)
        by (rewrite insertObservation_step, F, EA; reflexivity).
      rewrite (bind_ok _ _ sA ins s1 Hrun). cbn.
      split; [reflexivity|]. split; [congruence|]. split; [congruence|]. split; [congruence|].
      split; [|split].
      * intros c'. rewrite Hin, HcA.
        destruct (String.eqb_spec c c') as [<-|Hne].
        -- split; [intros _; split; [left; reflexivity|exact Hc0]|intros _; left; reflexivity].
        -- rewrite Nat.add_0_r.
           split; [intros [H|[H1 H2]]; [congruence|split; [right|]; assumption]
                  |intros [[H|H] H2]; [congruence|right; split; assumption]].
      * constructor; [|assumption].
        intros Hinc. apply Hin in Hinc as [_ H0]. rewrite HcA, String.eqb_refl in H0. lia.
      * intros c'. rewrite Hcnt, HcA. cbn [in_names existsb].
        destruct (String.eqb_spec c c') as [<-|Hne].
        -- rewrite String.eqb_refl, Hc0. cbn. rewrite andb_false_r. reflexivity.
        -- rewrite (proj2 (String.eqb_neq c' c)) by congruence. cbn [orb].
           rewrite Nat.add_0_r. reflexivity.
Qed.

Lemma insert_vec_cases col fails r s :
  insert_vec col fails r s =
  if fails (db s) r || negb (column_accepts col (v_embedding r))
  then (Err "obs_vec insert failed", s)
  else (Ok tt, set_db (with_obs_vec (db s) (replace_vec r (obs_vec (db s)))) s).
Proof. reflexivity. Qed.

Lemma insert_vecs_ok col fails rows s s1 :
  insert_vecs col fails rows s = (Ok tt, s1) ->
  db s1 = with_obs_vec (db s) (fold_vecs rows (obs_vec (db s))) /\
  tx s1 = tx s /\ embed_log s1 = embed_log s.
Proof.
  revert s; induction rows as [|r rows IH]; intros s H.
  - cbn in H. injection H as <-. destruct s as [[] ? ?]. repeat split.
  - cbn [insert_vecs] in H. unfold bind in H. rewrite insert_vec_cases in H.
    destruct (fails (db s) r || negb (column_accepts col (v_embedding r))); [discriminate|].
    apply IH in H as (H1 & H2 & H3). cbn in H1, H2, H3.
    repeat split; assumption.
Qed.

Lemma insert_vecs_err col fails rows s e s1 :
  insert_vecs col fails rows s = (Err e, s1) ->
  e = "obs_vec insert failed" /\ tx s1 = tx s /\ embed_log s1 = embed_log s.
Proof.
  revert s; induction rows as [|r rows IH]; intros s H.
  - discriminate.
  - cbn [insert_vecs] in H. unfold bind in H. rewrite insert_vec_cases in H.
    destruct (fails (db s) r || negb (column_accepts col (v_embedding r))).
    + injection H as <- <-. auto.
    + apply IH in H as (H1 & H2 & H3). cbn in H2, H3. auto.
Qed.

(** A row the column type refuses makes the loop throw. *)
Lemma insert_vecs_reject col fails rows s r :
  In r rows -> column_accepts col (v_embedding r) = false ->
  exists e s1, insert_vecs col fails rows s = (Err e, s1).
Proof.
  revert s; induction rows as [|r0 rows IH]; intros s Hin Hr; [destruct Hin|].
  cbn [insert_vecs]. unfold bind. rewrite insert_vec_cases.
  destruct (fails (db s) r0 || negb (column_accepts col (v_embedding r0))) eqn:E.
  - eauto.
  - destruct Hin as [<-|Hin].
    + rewrite Hr, orb_true_r in E. discriminate.
    + apply IH; assumption.
Qed.

(** [insertObservationVectors] on a non-empty batch, step by step. *)
Lemma insertObservationVectors_cases col fails rows s :
  rows <> [] ->
  insertObservationVectors col fails rows s =
  match tx s with
  | Some _ => (Err "cannot start a transaction within a transaction", s)
  | None =>
      match insert_vecs col fails rows (mk_state (db s) (Some (db s)) (embed_log s)) with
      | (Ok _, s2) => (Ok tt, mk_state (db s2) None (embed_log s2))
      | (Err e, s2) =>
          (Err e, match tx s2 with
                  | Some snap => mk_state snap None (embed_log s2)
                  | None => s2
                  end)
      end
  end.
Proof.
  intros Hne. destruct rows as [|r rows]; [contradiction|].
  cbv delta [insertObservationVectors bind begin_tx catch commit_tx rollback_tx throw ret]
    beta iota.
  destruct (tx s); [reflexivity|].
  destruct (insert_vecs col fails (r :: rows) (mk_state (db s) (Some (db s)) (embed_log s)))
    as [[u|e] s2]; [reflexivity|destruct (tx s2); reflexivity].
Qed.

Lemma with_obs_vec_same t : with_obs_vec t (obs_vec t) = t.
Proof. destruct t; reflexivity. Qed.

(** A successful batch replaces exactly the rows of the batch (the later row
    of an observation id wins) and touches no other table. *)
Lemma insertObservationVectors_ok col fails rows s s1 :
  insertObservationVectors col fails rows s = (Ok tt, s1) ->
  db s1 = with_obs_vec (db s) (fold_vecs rows (obs_vec (db s))) /\
  tx s1 = tx s /\ embed_log s1 = embed_log s.
Proof.
  destruct rows as [|r rows].
  - intros H. cbn in H. injection H as <-. rewrite with_obs_vec_same. auto.
  - intros H. rewrite insertObservationVectors_cases in H by discriminate.
    destruct (tx s) eqn:T; [discriminate|].
    destruct (insert_vecs col fails (r :: rows) (mk_state (db s) (Some (db s)) (embed_log s)))
      as [[u|e] s2] eqn:Hv; [|discriminate].
    injection H as <-. destruct u. apply insert_vecs_ok in Hv as (H1 & H2 & H3).
    cbn in *. auto.
Qed.

(** A failed batch, begun outside a transaction, leaves the tables as they
    were and closes the transaction; the error is the failing insert's. *)
Lemma insertObservationVectors_err col fails rows s e s1 :
  tx s = None ->
  insertObservationVectors col fails rows s = (Err e, s1) ->
  e = "obs_vec insert failed" /\ db s1 = db s /\ tx s1 = None /\ embed_log s1 = embed_log s.
Proof.
  intros T. destruct rows as [|r rows]; [discriminate|].
  intros H. rewrite insertObservationVectors_cases in H by discriminate. rewrite T in H.
  destruct (insert_vecs col fails (r :: rows) (mk_state (db s) (Some (db s)) (embed_log s)))
    as [[u|e'] s2] eqn:Hv; [discriminate|].
  apply insert_vecs_err in Hv as (H1 & H2 & H3). cbn in H2, H3. rewrite H2 in H.
  injection H as <- <-. cbn. auto.
Qed.

Lemma replace_vec_in r vs : In r (replace_vec r vs).
Proof.
  induction vs as [|v vs IH]; cbn; [left; reflexivity|].
  destruct (Nat.eqb (v_obs v) (v_obs r)); [left; reflexivity|right; exact IH].
Qed.

Lemma replace_vec_keep r v vs : In v vs -> v_obs v <> v_obs r -> In v (replace_vec r vs).
Proof.
  induction vs as [|v0 vs IH]; cbn; [tauto|].
  intros [<-|Hin] Hne.
  - apply Nat.eqb_neq in Hne. rewrite Hne. left; reflexivity.
  - destruct (Nat.eqb (v_obs v0) (v_obs r)); [right; exact Hin|right; apply IH; assumption].
Qed.

Lemma fold_vecs_keep rows v vs :
  In v vs -> ~ In (v_obs v) (map v_obs rows) -> In v (fold_vecs rows vs).
Proof.
  unfold fold_vecs. revert vs; induction rows as [|r rows IH]; intros vs Hin Hn; cbn; [exact Hin|].
  apply IH.
  - apply replace_vec_keep; [exact Hin|]. intros E. apply Hn. left. congruence.
  - intros H. apply Hn. right. exact H.
Qed.

Lemma fold_vecs_in rows r vs :
  NoDup (map v_obs rows) -> In r rows -> In r (fold_vecs rows vs).
Proof.
  revert vs; induction rows as [|r0 rows IH]; intros vs Hnd Hin; [destruct Hin|].
  cbn in Hnd. inversion Hnd as [|x l Hn Hnd']; subst.
  unfold fold_vecs; cbn [fold_left]. fold (fold_vecs rows (replace_vec r0 vs)).
  destruct Hin as [<-|Hin].
  - apply fold_vecs_keep; [apply replace_vec_in|exact Hn].
  - apply IH; assumption.
Qed.

Lemma in_names_spec l x : in_names l x = true <-> In x l.
Proof.
  unfold in_names. rewrite existsb_exists. split.
  - intros (y & Hy & E). apply String.eqb_eq in E. subst. exact Hy.
  - intros H. exists x. split; [exact H|apply String.eqb_refl].
Qed.

Lemma addObservations_entry_spec col fails embed name cs s r s1 :
  addObservations_entry col fails embed name cs s = (Ok r, s1) -> entry_spec s name cs r s1.
Proof.
  intros H. unfold addObservations_entry in H.
  destruct (getOrCreateEntityId_spec name "Unknown" s)
    as (e & sA & HA & HfA & HpA & HoA & _ & _ & HlA).
  rewrite (bind_ok _ _ _ _ _ HA) in H.
  destruct (insert_contents_spec (e_id e) cs sA)
    as (ins & sB & HB & HeB & _ & HlB & Hin & Hnd & Hcnt).
  rewrite (bind_ok _ _ _ _ _ HB) in H.
  rewrite HoA in Hin, Hcnt.
  assert (Hcore : exists sD,
            entities (db sD) = entities (db sB) /\
            observations (db sD) = observations (db sB) /\
            embed_log sD = app (embed_log sB) (batch (map snd ins)) /\
            r = mk_added name (map snd ins) /\ s1 = sD).
  { destruct ins as [|p ins'].
    - cbn in H. injection H as <- <-. exists sB. rewrite app_nil_r. auto.
    - cbv beta iota delta [bind embedTexts ret] in H.
      match type of H with
      | context [insertObservationVectors ?a ?b ?c ?d] =>
          destruct (insertObservationVectors a b c d) as [[u|err] sD] eqn:HD
      end; [|discriminate].
      destruct u. injection H as <- <-.
      apply insertObservationVectors_ok in HD as (H1 & _ & H3).
      exists sD. rewrite H1, H3. cbn. auto. }
  destruct Hcore as (sD & HeD & HoD & HlD & -> & ->).
  exists e. cbn [ar_entityName addedObservations].
  split; [rewrite HeD, HeB; exact HfA|].
  split; [intros nm e' He'; rewrite HeD, HeB; apply HpA; exact He'|].
  split; [reflexivity|].
  split; [exact Hin|].
  split; [exact Hnd|].
  split; [intros c; rewrite HoD; apply Hcnt|].
  split.
  - intros c Hc Hle. rewrite HoD, Hcnt. apply in_names_spec in Hc. rewrite Hc. cbn.
    destruct (Nat.eqb_spec (count_obs (e_id e) c (observations (db s))) 0); lia.
  - rewrite HlD, HlB, HlA. reflexivity.
Qed.

Lemma addObservations_spec col fails embed entries s rs s1 :
  addObservations col fails embed entries s = (Ok rs, s1) -> entries_spec s entries rs s1.
Proof.
  revert s rs; induction entries as [|[nm cs] entries IH]; intros s rs H.
  - cbn in H. injection H as <- <-. constructor.
  - cbn [addObservations] in H. unfold bind at 1 in H.
    destruct (addObservations_entry col fails embed nm cs s) as [[r|e] sA] eqn:HA;
      [|discriminate].
    unfold bind in H.
    destruct (addObservations col fails embed entries sA) as [[rs'|e] sB] eqn:HB;
      [|discriminate].
    injection H as <- <-.
    econstructor; [exact (addObservations_entry_spec _ _ _ _ _ _ _ _ HA)|apply IH; exact HB].
Qed.

Lemma rel_eqb_refl r : rel_eqb r r = true.
Proof. unfold rel_eqb. rewrite !Nat.eqb_refl, String.eqb_refl. reflexivity. Qed.

Lemma count_rel_zero r rs : existsb (rel_eqb r) rs = false <-> count_rel r rs = 0.
Proof.
  unfold count_rel. induction rs as [|x rs IH]; cbn; [tauto|].
  destruct (rel_eqb r x); cbn; [split; discriminate|exact IH].
Qed.

Lemma count_rel_app r rs l : count_rel r (rs ++ l) = count_rel r rs + count_rel r l.
Proof. unfold count_rel. rewrite filter_app, length_app. reflexivity. Qed.

Lemma createRelation_step f t ty s :
  createRelation f t ty s =
  if existsb (rel_eqb (mk_rel f t ty)) (relations (db s)) then (Ok false, s)
  else (Ok true, set_db (mk_tables (entities (db s)) (observations (db s))
                          (relations (db s) ++ [mk_rel f t ty])
                          (obs_vec (db s)) (ent_seq (db s)) (obs_seq (db s))) s).
Proof.
  destruct s as [tb tx0 lg]. unfold createRelation, modify. cbn.
  destruct (existsb (rel_eqb (mk_rel f t ty)) (relations tb)); reflexivity.
Qed.

(** [createRelation] never fails; it reports [true] exactly when the triple
    had no row, and adds that row only then. *)
Lemma createRelation_spec f t ty s :
  exists b s1,
    createRelation f t ty s = (Ok b, s1) /\
    (b = true <-> count_rel (mk_rel f t ty) (relations (db s)) = 0) /\
    relations (db s1) = app (relations (db s)) (if b then [mk_rel f t ty] else []) /\
    entities (db s1) = entities (db s).
Proof.
  rewrite createRelation_step.
  destruct (existsb (rel_eqb (mk_rel f t ty)) (relations (db s))) eqn:E.
  - exists false, s. split; [reflexivity|]. split; [|split; [symmetry; apply app_nil_r|reflexivity]].
    split; [discriminate|]. intros H. apply count_rel_zero in H. congruence.
  - eexists true, _. split; [reflexivity|]. split; [|split; reflexivity].
    split; [intros _; apply count_rel_zero; exact E|reflexivity].
Qed.

Lemma createRelations_spec rels s :
  exists cs s1, createRelations rels s = (Ok cs, s1) /\ rels_spec s rels cs s1.
Proof.
  revert s; induction rels as [|x rels IH]; intros s.
  - exists [], s. split; [reflexivity|constructor].
  - cbn [createRelations].
    destruct (getOrCreateEntityId_spec (from x) "Unknown" s)
      as (ef & sA & HA & HfA & _ & _ & HrA & _ & _).
    rewrite (bind_ok _ _ _ _ _ HA).
    destruct (getOrCreateEntityId_spec (to x) "Unknown" sA)
      as (et & sB & HB & HfB & HpB & _ & HrB & _ & _).
    rewrite (bind_ok _ _ _ _ _ HB).
    destruct (createRelation_spec (e_id ef) (e_id et) (relationType x) sB)
      as (b & sC & HC & Hb & HrC & HeC).
    rewrite (bind_ok _ _ _ _ _ HC).
    destruct (IH sC) as (cs & s1 & Hrun & Hspec).
    rewrite (bind_ok _ _ _ _ _ Hrun).
    exists (if b then x :: cs else cs), s1. split; [reflexivity|].
    apply rels_cons with (s1 := sC); [|exact Hspec].
    exists ef, et. rewrite HeC.
    split; [apply HpB; exact HfA|]. split; [exact HfB|].
    rewrite HrC, HrB, HrA in *. split; [exact Hb|reflexivity].
Qed.

Lemma createRelation_count f t ty s b s1 :
  createRelation f t ty s = (Ok b, s1) ->
  (b = true <-> count_rel (mk_rel f t ty) (relations (db s)) = 0) /\
  count_rel (mk_rel f t ty) (relations (db s1)) =
    count_rel (mk_rel f t ty) (relations (db s)) + (if b then 1 else 0).
Proof.
  intros H. destruct (createRelation_spec f t ty s) as (b' & s1' & H' & Hb & Hr & _).
  rewrite H in H'. injection H' as <- <-. split; [exact Hb|].
  rewrite Hr, count_rel_app. destruct b; [|reflexivity].
  unfold count_rel at 2. cbn. rewrite rel_eqb_refl. reflexivity.
Qed.

Lemma flat_map_nil {A B} (f : A -> list B) l : (forall x, f x = []) -> flat_map f l = [].
Proof. intros H. induction l as [|x l IH]; cbn; [reflexivity|]. rewrite H, IH. reflexivity. Qed.

Lemma open_relation_rows_nil t : open_relation_rows t [] = [].
Proof.
  unfold open_relation_rows. apply flat_map_nil. intros r.
  apply flat_map_nil. intros ef. apply flat_map_nil. intros et. reflexivity.
Qed.

(** The relations [openNodes] returns are those of the join with the ids of
    the entities whose names were asked for, in every case. *)
Lemma openNodes_relations names s res s1 :
  openNodes names s = (Ok res, s1) ->
  s1 = s /\
  or_relations res =
    open_relation_rows (db s) (map e_id (filter (fun e => in_names names (e_name e)) (entities (db s)))).
Proof.
  unfold openNodes, gets. intros H. injection H as <- <-. split; [reflexivity|].
  destruct names as [|nm names].
  - cbn.
    assert (E : filter (fun _ : entity_row => false) (entities (db s)) = []).
    { induction (entities (db s)) as [|e es IH]; cbn; [reflexivity|exact IH]. }
    rewrite E. symmetry. apply open_relation_rows_nil.
  - destruct (filter (fun e => in_names (nm :: names) (e_name e)) (entities (db s))) eqn:E.
    + symmetry. apply open_relation_rows_nil.
    + reflexivity.
Qed.

Lemma in_ids_spec ids x : in_ids ids x = true <-> In x ids.
Proof.
  unfold in_ids. rewrite existsb_exists. split.
  - intros (y & Hy & E). apply Nat.eqb_eq in E. subst. exact Hy.
  - intros H. exists x. split; [exact H|apply Nat.eqb_refl].
Qed.

Lemma nodup_ids_eq es a b :
  NoDup (map e_id es) -> In a es -> In b es -> e_id a = e_id b -> a = b.
Proof.
  induction es as [|x es IH]; cbn; [tauto|].
  intros Hnd Ha Hb E. inversion Hnd as [|? ? Hn Hnd']; subst.
  destruct Ha as [<-|Ha], Hb as [<-|Hb]; auto.
  - exfalso. apply Hn. rewrite E. apply in_map. exact Hb.
  - exfalso. apply Hn. rewrite <- E. apply in_map. exact Ha.
Qed.

(** With unique entity ids, an id is among those of the asked-for entities
    exactly when the entity holding it has an asked-for name. *)
Lemma asked_id t names e :
  NoDup (map e_id (entities t)) -> In e (entities t) ->
  (in_ids (map e_id (filter (fun e => in_names names (e_name e)) (entities t))) (e_id e) = true
   <-> In (e_name e) names).
Proof.
  intros Hnd He. rewrite in_ids_spec, in_map_iff. split.
  - intros (e' & Eid & He'). apply filter_In in He' as [He' Hn].
    rewrite (nodup_ids_eq _ _ _ Hnd He' He Eid) in Hn. apply in_names_spec. exact Hn.
  - intros Hn. exists e. split; [reflexivity|]. apply filter_In. split; [exact He|].
    apply in_names_spec. exact Hn.
Qed.

Lemma open_relation_rows_spec t names x :
  NoDup (map e_id (entities t)) ->
  (In x (open_relation_rows t (map e_id (filter (fun e => in_names names (e_name e)) (entities t))))
   <-> exists r ef et,
         In r (relations t) /\ In ef (entities t) /\ In et (entities t) /\
         e_id ef = r_from r /\ e_id et = r_to r /\
         In (e_name ef) names /\ In (e_name et) names /\
         x = mk_relation (e_name ef) (e_name et) (r_type r)).
Proof.
  intros Hnd. unfold open_relation_rows. rewrite in_flat_map. split.
  - intros (r & Hr & Hx). rewrite in_flat_map in Hx. destruct Hx as (ef & Hef & Hx).
    rewrite in_flat_map in Hx. destruct Hx as (et & Het & Hx).
    apply filter_In in Hef as [Hef Ef]. apply filter_In in Het as [Het Et].
    apply Nat.eqb_eq in Ef, Et.
    destruct (in_ids _ (r_from r) && in_ids _ (r_to r)) eqn:C; [|destruct Hx].
    apply andb_prop in C as [C1 C2].
    rewrite <- Ef in C1. rewrite <- Et in C2.
    apply (asked_id _ _ _ Hnd Hef) in C1. apply (asked_id _ _ _ Hnd Het) in C2.
    destruct Hx as [<-|[]].
    exists r, ef, et. repeat split; auto.
  - intros (r & ef & et & Hr & Hef & Het & Ef & Et & Nf & Nt & ->).
    exists r. split; [exact Hr|]. rewrite in_flat_map. exists ef.
    split; [apply filter_In; split; [exact Hef|apply Nat.eqb_eq; exact Ef]|].
    rewrite in_flat_map. exists et.
    split; [apply filter_In; split; [exact Het|apply Nat.eqb_eq; exact Et]|].
    rewrite <- Ef, <- Et.
    rewrite (proj2 (asked_id _ _ _ Hnd Hef) Nf), (proj2 (asked_id _ _ _ Hnd Het) Nt).
    left; reflexivity.
Qed.

Lemma repo_setImportance_step entityId importance s :
  SqliteRepository.setImportance entityId importance s =
  (Ok (Nat.ltb 0 (List.length (filter (fun o => Nat.eqb (o_entity o) entityId) (observations (db s))))),
   set_db (set_obs_importance entityId importance (db s)) s).
Proof. destruct s; reflexivity. Qed.

Lemma cm_setImportance_valid entityId importance :
  In importance Scoring.ImportanceLevel_values ->
  ContextManager.setImportance entityId importance = SqliteRepository.setImportance entityId importance.
Proof.
  intros H. unfold ContextManager.setImportance.
  replace (existsb (String.eqb importance) Scoring.ImportanceLevel_values) with true;
    [reflexivity|].
  symmetry. apply existsb_exists. exists importance. split; [exact H|apply String.eqb_refl].
Qed.

Lemma cm_setImportance_invalid entityId importance s :
  ~ In importance Scoring.ImportanceLevel_values ->
  ContextManager.setImportance entityId importance s =
  (Err ("Invalid importance level: " ++ importance ++ ". Use ImportanceLevel enum values."), s).
Proof.
  intros H. unfold ContextManager.setImportance.
  destruct (existsb (String.eqb importance) Scoring.ImportanceLevel_values) eqn:E; [|reflexivity].
  apply existsb_exists in E as (y & Hy & Ey). apply String.eqb_eq in Ey. subst. contradiction.
Qed.

Lemma kgm_setImportance_missing entityName importance s :
  find_entity_by_name entityName (entities (db s)) = None ->
  KnowledgeGraphManager.setImportance entityName importance s =
  (Ok (KnowledgeGraphManager.mk_sir false None None None
         (Some ("Entity " ++ KnowledgeGraphManager.dq ++ entityName ++ KnowledgeGraphManager.dq
                ++ " not found"))), s).
Proof.
  intros E.
  cbv delta [KnowledgeGraphManager.setImportance catch bind KnowledgeGraphManager.getEntityId
             Repo.getEntityId gets ret] beta iota.
  rewrite E. reflexivity.
Qed.

Lemma kgm_setImportance_found entityName importance s e :
  find_entity_by_name entityName (entities (db s)) = Some e -> e_id e <> 0 ->
  KnowledgeGraphManager.setImportance entityName importance s =
  match ContextManager.setImportance (e_id e) importance s with
  | (Ok b, s1) =>
      (Ok (KnowledgeGraphManager.mk_sir b (Some entityName) (Some importance)
             (Some (if b
                    then "Importance set to '" ++ importance ++ "' for entity '" ++ entityName ++ "'"
                    else "Failed to set importance for entity '" ++ entityName ++ "'"))
             None), s1)
  | (Err m, s1) => (Ok (KnowledgeGraphManager.mk_sir false None None None (Some m)), s1)
  end.
Proof.
  intros E Hid. destruct (e_id e) as [|k] eqn:Eid; [contradiction|].
  cbv delta [KnowledgeGraphManager.setImportance catch bind KnowledgeGraphManager.getEntityId
             Repo.getEntityId gets ret] beta iota.
  rewrite E. cbv delta [option_map] beta iota. rewrite Eid.
  destruct (ContextManager.setImportance (S k) importance s) as [[b|m] s1]; reflexivity.
Qed.

Lemma latest_in os o : latest os = Some o -> In o os.
Proof.
  revert o; induction os as [|o0 os IH]; intros o; cbn; [discriminate|].
  destruct (latest os) as [o'|] eqn:E.
  - destruct (la_gt (o_last_accessed o') (o_last_accessed o0)); intros H; injection H as <-.
    + right. apply IH. reflexivity.
    + left. reflexivity.
  - intros H; injection H as <-. left; reflexivity.
Qed.

Lemma latest_cons_some o os : exists o', latest (o :: os) = Some o'.
Proof.
  cbn. destruct (latest os) as [o'|];
    [destruct (la_gt (o_last_accessed o') (o_last_accessed o))|]; eauto.
Qed.

(** After the update, the importance the search reads back for an entity
    with observations is the one set. *)
Lemma fetch_importance_set t entityId importance :
  (exists o, In o (observations t) /\ o_entity o = entityId) ->
  fetch_importance (set_obs_importance entityId importance t) entityId = importance.
Proof.
  intros (o & Ho & Eo). unfold fetch_importance, set_obs_importance. cbn [observations].
  set (upd := fun o : obs_row => if Nat.eqb (o_entity o) entityId
                then mk_obs (o_id o) (o_entity o) (o_content o) importance (o_last_accessed o)
                else o).
  set (l := filter (fun o => Nat.eqb (o_entity o) entityId) (map upd (observations t))).
  assert (Hall : forall o', In o' l -> o_importance o' = importance).
  { intros o' Hin. apply filter_In in Hin as [Hin Ee]. apply in_map_iff in Hin as (o0 & <- & _).
    unfold upd in *. destruct (Nat.eqb (o_entity o0) entityId) eqn:E0; [reflexivity|].
    rewrite E0 in Ee. discriminate. }
  assert (Hl : In (upd o) l).
  { apply filter_In. split; [apply in_map; exact Ho|].
    unfold upd. rewrite Eo, Nat.eqb_refl. cbn. apply Nat.eqb_refl. }
  destruct l as [|x l'] eqn:El; [destruct Hl|].
  destruct (latest_cons_some x l') as (o' & Hlat). rewrite Hlat.
  apply Hall. apply latest_in. exact Hlat.
Qed.

Lemma changes_pos os entityId :
  (exists o, In o os /\ o_entity o = entityId) ->
  Nat.ltb 0 (List.length (filter (fun o => Nat.eqb (o_entity o) entityId) os)) = true.
Proof.
  intros (o & Ho & Eo). apply Nat.ltb_lt.
  destruct (filter (fun o => Nat.eqb (o_entity o) entityId) os) eqn:E; [|cbn; lia].
  exfalso. assert (Hin : In o (filter (fun o => Nat.eqb (o_entity o) entityId) os))
    by (apply filter_In; split; [exact Ho|apply Nat.eqb_eq; exact Eo]).
  rewrite E in Hin. destruct Hin.
Qed.

Lemma changes_zero os entityId :
  (forall o, In o os -> o_entity o <> entityId) ->
  Nat.ltb 0 (List.length (filter (fun o => Nat.eqb (o_entity o) entityId) os)) = false.
Proof.
  intros H. replace (filter (fun o => Nat.eqb (o_entity o) entityId) os) with (@nil obs_row);
    [reflexivity|].
  induction os as [|o os IH]; cbn; [reflexivity|].
  destruct (Nat.eqb_spec (o_entity o) entityId) as [E|_].
  - exfalso. exact (H o (or_introl eq_refl) E).
  - apply IH. intros o' Ho'. apply H. right. exact Ho'.
Qed.

(** The importance component of a row's score is the level's weight. *)
Lemma importance_component parse_date now ca la ac d cfg importance w :
  In importance Scoring.ImportanceLevel_values ->
  Scoring.IMPORTANCE_WEIGHTS importance = Some w ->
  Scoring.c_importance (Scoring.score_components
    (Scoring.calculateRelevanceScore parse_date now
       (KnowledgeGraphManager.search_entity ca la ac importance) d cfg)) = Js.Fin w.
Proof.
  intros Hin Hw.
  change (Scoring.getImportanceScore (Js.JStr importance) = Js.Fin w).
  unfold Scoring.ImportanceLevel_values in Hin.
  destruct Hin as [<-|[<-|[<-|[<-|[<-|[]]]]]]; cbn in Hw |- *; injection Hw as <-; reflexivity.
Qed.

End RepoFacts.

Module RepoClaims.
Import Repo RepoSpec RepoFacts RepoExamples.
Local Open Scope nat_scope.

(** C1: every successful call [addObservations(list)] runs its entries in
    order and each entry meets [entry_spec]: the returned
    [addedObservations] are exactly the contents with no stored observation
    for the entity before (each once), a content already stored keeps its
    row count (one row stays one row), a new one gets exactly one row, and
    the embedding model is called once on exactly the added contents (not
    at all when none was added).  In particular adding the same pair
    twice adds, embeds and stores nothing the second time. *)
Theorem addObservations_idempotent :
  (forall column vec_insert_fails embed entries s rs s1,
     addObservations column vec_insert_fails embed entries s = (Ok rs, s1) ->
     entries_spec s entries rs s1) /\
  (forall column vec_insert_fails embed name c s r1 s1 r2 s2,
     addObservations column vec_insert_fails embed [(name, [c])] s = (Ok [r1], s1) ->
     addObservations column vec_insert_fails embed [(name, [c])] s1 = (Ok [r2], s2) ->
     addedObservations r2 = [] /\ embed_log s2 = embed_log s1 /\
     exists e, find_entity_by_name name (entities (db s2)) = Some e /\
       1 <= count_obs (e_id e) c (observations (db s1)) /\
       count_obs (e_id e) c (observations (db s2)) = count_obs (e_id e) c (observations (db s1))).
Proof.
  split; [exact addObservations_spec|].
  intros col fails embed name c s r1 s1 r2 s2 H1 H2.
  apply addObservations_spec in H1, H2.
  inversion H1 as [|? sa ? ? ? ? ? ? E1 Nil1]; subst.
  inversion Nil1; subst.
  inversion H2 as [|? sb ? ? ? ? ? ? E2 Nil2]; subst.
  inversion Nil2; subst.
  destruct E1 as (e1 & Hf1 & _ & _ & _ & _ & Hc1 & _ & _).
  destruct E2 as (e2 & Hf2 & Hp2 & _ & Hin2 & _ & Hc2 & _ & Hl2).
  assert (He : e2 = e1) by (rewrite (Hp2 _ _ Hf1) in Hf2; congruence). subst e2.
  assert (Hge : 1 <= count_obs (e_id e1) c (observations (db s1))).
  { rewrite Hc1. cbn [in_names existsb]. rewrite String.eqb_refl. cbn.
    destruct (Nat.eqb_spec (count_obs (e_id e1) c (observations (db s))) 0); lia. }
  assert (Hnil : addedObservations r2 = []).
  { destruct (addedObservations r2) as [|c' l] eqn:E; [reflexivity|].
    exfalso. destruct (proj1 (Hin2 c') ltac:(left; reflexivity)) as [[<-|[]] H0]. lia. }
  split; [exact Hnil|]. split; [rewrite Hl2, Hnil; apply app_nil_r|].
  exists e1. split; [exact Hf2|]. split; [exact Hge|].
  rewrite Hc2. destruct (Nat.eqb_spec (count_obs (e_id e1) c (observations (db s1))) 0); [lia|].
  rewrite andb_false_r. lia.
Qed.

(** Witness for C1: the same pair added twice to a fresh database. *)
Lemma addObservations_idempotent_witness :
  let run := addObservations (Vec0Float 2) (fun _ _ => false) (fun _ => [0; 0]) [("A", ["x"])] in
  run init_state = (Ok [mk_added "A" ["x"]], snd (run init_state)) /\
  run (snd (run init_state)) = (Ok [mk_added "A" []], snd (run (snd (run init_state)))) /\
  entries_spec init_state [("A", ["x"])] [mk_added "A" ["x"]] (snd (run init_state)) /\
  addedObservations (mk_added "A" []) = [] /\
  embed_log (snd (run (snd (run init_state)))) = embed_log (snd (run init_state)).
Proof.
  intros run.
  assert (H1 : run init_state = (Ok [mk_added "A" ["x"]], snd (run init_state)))
    by (vm_compute; reflexivity).
  assert (H2 : run (snd (run init_state)) =
               (Ok [mk_added "A" []], snd (run (snd (run init_state)))))
    by (vm_compute; reflexivity).
  split; [exact H1|]. split; [exact H2|].
  split; [exact (proj1 addObservations_idempotent _ _ _ _ _ _ _ H1)|].
  destruct (proj2 addObservations_idempotent _ _ _ _ _ _ _ _ _ _ H1 H2) as (Ha & Hb & _).
  split; assumption.
Defined.

(** C2: a batch of vector rows, begun outside a transaction, is written all
    or nothing.  If the call returns, [obs_vec] holds the batch upserted row
    by row (every row of a batch with distinct observation ids is stored)
    and no other table changed; if any insert fails, the failing insert's
    error is re-raised and every table, observations included, is exactly
    as before the call. *)
Theorem insertObservationVectors_all_or_nothing :
  forall column vec_insert_fails rows s,
    tx s = None ->
    (forall s1, insertObservationVectors column vec_insert_fails rows s = (Ok tt, s1) ->
       db s1 = with_obs_vec (db s) (fold_vecs rows (obs_vec (db s))) /\ tx s1 = None /\
       (NoDup (map v_obs rows) -> forall r, In r rows -> In r (obs_vec (db s1)))) /\
    (forall e s1, insertObservationVectors column vec_insert_fails rows s = (Err e, s1) ->
       e = "obs_vec insert failed" /\ db s1 = db s /\ tx s1 = None).
Proof.
  intros col fails rows s T. split.
  - intros s1 H. apply insertObservationVectors_ok in H as (H1 & H2 & _).
    split; [exact H1|]. split; [congruence|].
    intros Hnd r Hr. rewrite H1. apply fold_vecs_in; assumption.
  - intros e s1 H. apply insertObservationVectors_err in H as (H1 & H2 & H3 & _); auto.
Qed.

(** Witness for C2: one row stored, and the same row refused by a column of
    another width, which leaves the database as it was. *)
Lemma insertObservationVectors_all_or_nothing_witness :
  let rows := [mk_vec 1 1 [0; 0]] in
  tx init_state = None /\
  In (mk_vec 1 1 [0; 0])
     (obs_vec (db (snd (insertObservationVectors (Vec0Float 2) (fun _ _ => false) rows init_state)))) /\
  db (snd (insertObservationVectors (Vec0Float 3) (fun _ _ => false) rows init_state)) = db init_state.
Proof.
  intros rows.
  pose proof (insertObservationVectors_all_or_nothing (Vec0Float 2) (fun _ _ => false) rows
                init_state eq_refl) as [Hok _].
  pose proof (insertObservationVectors_all_or_nothing (Vec0Float 3) (fun _ _ => false) rows
                init_state eq_refl) as [_ Herr].
  split; [reflexivity|]. split.
  - apply (proj2 (proj2 (Hok _ (eq_refl _)))); [repeat constructor; cbn; tauto|left; reflexivity].
  - exact (proj1 (proj2 (Herr _ _ (eq_refl _)))).
Defined.

(** C7: [createRelation] is idempotent on the triple: it returns [true]
    exactly when no row held the triple, and adds one row only then; so a
    second insertion of a triple returns [false] and leaves exactly one
    row.  [createRelations(list)] resolves or creates both endpoints of
    each relation in turn and returns, in order, exactly the relations whose
    triple had no row when it was reached ([rels_spec]). *)
Theorem createRelation_idempotent :
  (forall fromId toId relationType s b s1,
     createRelation fromId toId relationType s = (Ok b, s1) ->
     (b = true <-> count_rel (mk_rel fromId toId relationType) (relations (db s)) = 0) /\
     count_rel (mk_rel fromId toId relationType) (relations (db s1)) =
       count_rel (mk_rel fromId toId relationType) (relations (db s)) + (if b then 1 else 0)) /\
  (forall fromId toId relationType s b1 s1 b2 s2,
     count_rel (mk_rel fromId toId relationType) (relations (db s)) <= 1 ->
     createRelation fromId toId relationType s = (Ok b1, s1) ->
     createRelation fromId toId relationType s1 = (Ok b2, s2) ->
     b2 = false /\ count_rel (mk_rel fromId toId relationType) (relations (db s2)) = 1) /\
  (forall relations s, exists created s1,
     createRelations relations s = (Ok created, s1) /\ rels_spec s relations created s1).
Proof.
  split; [exact createRelation_count|]. split; [|exact createRelations_spec].
  intros f t ty s b1 s1 b2 s2 Hle H1 H2.
  apply createRelation_count in H1 as [Hb1 Hc1].
  apply createRelation_count in H2 as [Hb2 Hc2].
  assert (Hone : count_rel (mk_rel f t ty) (relations (db s1)) = 1).
  { rewrite Hc1. destruct b1.
    - rewrite (proj1 Hb1 eq_refl). reflexivity.
    - assert (count_rel (mk_rel f t ty) (relations (db s)) <> 0)
        by (intros E; apply Hb1 in E; discriminate).
      lia. }
  destruct b2.
  - pose proof (proj1 Hb2 eq_refl). lia.
  - split; [reflexivity|]. rewrite Hc2, Hone. reflexivity.
Qed.

(** Witness for C7: the same triple inserted twice into a fresh database. *)
Lemma createRelation_idempotent_witness :
  let s1 := snd (createRelation 1 2 "knows" init_state) in
  count_rel (mk_rel 1 2 "knows") (relations (db init_state)) <= 1 /\
  createRelation 1 2 "knows" init_state = (Ok true, s1) /\
  createRelation 1 2 "knows" s1 = (Ok false, snd (createRelation 1 2 "knows" s1)) /\
  count_rel (mk_rel 1 2 "knows") (relations (db (snd (createRelation 1 2 "knows" s1)))) = 1.
Proof.
  intros s1.
  assert (H0 : count_rel (mk_rel 1 2 "knows") (relations (db init_state)) <= 1)
    by (cbn; lia).
  assert (H1 : createRelation 1 2 "knows" init_state = (Ok true, s1)) by reflexivity.
  assert (H2 : createRelation 1 2 "knows" s1 = (Ok false, snd (createRelation 1 2 "knows" s1)))
    by reflexivity.
  split; [exact H0|]. split; [exact H1|]. split; [exact H2|].
  exact (proj2 (proj1 (proj2 createRelation_idempotent) _ _ _ _ _ _ _ _ H0 H1 H2)).
Defined.

(** C10: with unique entity ids, [openNodes(names)] returns exactly the
    relations both of whose endpoint entities have a requested name, given
    by endpoint names and type; a relation from an opened entity to an
    entity outside [names] is left out, so every returned relation has
    both endpoint names in [names]. *)
Theorem openNodes_relations_within :
  forall names s res s1,
    openNodes names s = (Ok res, s1) ->
    NoDup (map e_id (entities (db s))) ->
    (forall x, In x (or_relations res) <->
       exists r ef et,
         In r (relations (db s)) /\ In ef (entities (db s)) /\ In et (entities (db s)) /\
         e_id ef = r_from r /\ e_id et = r_to r /\
         In (e_name ef) names /\ In (e_name et) names /\
         x = mk_relation (e_name ef) (e_name et) (r_type r)) /\
    (forall x, In x (or_relations res) -> In (from x) names /\ In (to x) names).
Proof.
  intros names s res s1 H Hnd.
  apply openNodes_relations in H as [_ Hrel]. rewrite Hrel.
  assert (Hiff := fun x => open_relation_rows_spec (db s) names x Hnd).
  split; [exact Hiff|].
  intros x Hx. apply Hiff in Hx as (r & ef & et & _ & _ & _ & _ & _ & Nf & Nt & ->).
  split; assumption.
Qed.

(** Witness for C10: opening A and B returns A->B but not A->C. *)
Lemma openNodes_relations_within_witness :
  openNodes ["A"; "B"] abc_state =
    (Ok (mk_open [mk_node "A" "T" []; mk_node "B" "T" []] [mk_relation "A" "B" "knows"]),
     abc_state) /\
  NoDup (map e_id (entities (db abc_state))) /\
  ~ In (mk_relation "A" "C" "knows")
      (or_relations (mk_open [mk_node "A" "T" []; mk_node "B" "T" []] [mk_relation "A" "B" "knows"])).
Proof.
  assert (H1 : openNodes ["A"; "B"] abc_state =
    (Ok (mk_open [mk_node "A" "T" []; mk_node "B" "T" []] [mk_relation "A" "B" "knows"]),
     abc_state)) by (vm_compute; reflexivity).
  assert (H2 : NoDup (map e_id (entities (db abc_state)))).
  { cbn. repeat constructor; cbn; intuition discriminate. }
  split; [exact H1|]. split; [exact H2|].
  intros Hin.
  destruct (proj2 (openNodes_relations_within _ _ _ _ H1 H2) _ Hin) as [_ Hc].
  cbn in Hc. intuition discriminate.
Defined.

(** C8 (amended): [setImportance(entityName, importance)] never throws.
    For an unknown name it returns [{success: false, error: 'Entity "name"
    not found'}] and changes nothing.  For an existing entity and a valid
    level it returns [{success: true, entityName, importance, message}]
    only when the entity has at least one observation; then the importance
    a later search reads for the entity is the new level and the entity's
    importance score component is that level's weight.  An existing entity
    without observations gets [{success: false}] with the message "Failed
    to set importance for entity ...", and an invalid level gets
    [{success: false, error: "Invalid importance level: ..."}]. *)
Theorem setImportance_result :
  forall entityName importance s,
    (find_entity_by_name entityName (entities (db s)) = None ->
       KnowledgeGraphManager.setImportance entityName importance s =
       (Ok (KnowledgeGraphManager.mk_sir false None None None
              (Some ("Entity " ++ KnowledgeGraphManager.dq ++ entityName ++
                     KnowledgeGraphManager.dq ++ " not found"))), s)) /\
    (forall e, find_entity_by_name entityName (entities (db s)) = Some e -> e_id e <> 0 ->
       In importance Scoring.ImportanceLevel_values ->
       (exists o, In o (observations (db s)) /\ o_entity o = e_id e) ->
       exists s1,
         KnowledgeGraphManager.setImportance entityName importance s =
         (Ok (KnowledgeGraphManager.mk_sir true (Some entityName) (Some importance)
                (Some ("Importance set to '" ++ importance ++ "' for entity '" ++ entityName ++ "'"))
                None), s1) /\
         SqliteRepository.fetch_importance (db s1) (e_id e) = importance /\
         (forall w parse_date now createdAt lastAccessed accessCount contextDistance scoringProfile,
            Scoring.IMPORTANCE_WEIGHTS importance = Some w ->
            Scoring.c_importance (Scoring.score_components
              (Scoring.calculateRelevanceScore parse_date now
                 (KnowledgeGraphManager.search_entity createdAt lastAccessed accessCount
                    (SqliteRepository.fetch_importance (db s1) (e_id e)))
                 contextDistance (Scoring.search_scoring_config scoringProfile))) = Js.Fin w)) /\
    (forall e, find_entity_by_name entityName (entities (db s)) = Some e -> e_id e <> 0 ->
       In importance Scoring.ImportanceLevel_values ->
       (forall o, In o (observations (db s)) -> o_entity o <> e_id e) ->
       exists s1,
         KnowledgeGraphManager.setImportance entityName importance s =
         (Ok (KnowledgeGraphManager.mk_sir false (Some entityName) (Some importance)
                (Some ("Failed to set importance for entity '" ++ entityName ++ "'")) None), s1)) /\
    (forall e, find_entity_by_name entityName (entities (db s)) = Some e -> e_id e <> 0 ->
       ~ In importance Scoring.ImportanceLevel_values ->
       KnowledgeGraphManager.setImportance entityName importance s =
       (Ok (KnowledgeGraphManager.mk_sir false None None None
              (Some ("Invalid importance level: " ++ importance ++
                     ". Use ImportanceLevel enum values."))), s)).
Proof.
  intros name imp s. split; [apply kgm_setImportance_missing|]. split; [|split].
  - intros e Hf Hid Hv Ho.
    rewrite (kgm_setImportance_found _ _ _ _ Hf Hid), cm_setImportance_valid by exact Hv.
    rewrite repo_setImportance_step, changes_pos by exact Ho.
    eexists. split; [reflexivity|].
    assert (Hfetch : SqliteRepository.fetch_importance
                       (db (set_db (set_obs_importance (e_id e) imp (db s)) s)) (e_id e) = imp)
      by (apply fetch_importance_set; exact Ho).
    split; [exact Hfetch|].
    intros w pd now ca la ac d p Hw. rewrite Hfetch.
    apply importance_component; assumption.
  - intros e Hf Hid Hv Ho.
    rewrite (kgm_setImportance_found _ _ _ _ Hf Hid), cm_setImportance_valid by exact Hv.
    rewrite repo_setImportance_step, changes_zero by exact Ho.
    eexists. reflexivity.
  - intros e Hf Hid Hv.
    rewrite (kgm_setImportance_found _ _ _ _ Hf Hid), cm_setImportance_invalid by exact Hv.
    reflexivity.
Qed.

(** Witness for C8: setting entity A of [one_obs_state] to "critical". *)
Lemma setImportance_result_witness :
  find_entity_by_name "A" (entities (db one_obs_state)) = Some (mk_entity 1 "A" "T") /\
  e_id (mk_entity 1 "A" "T") <> 0 /\
  In "critical" Scoring.ImportanceLevel_values /\
  (exists o, In o (observations (db one_obs_state)) /\ o_entity o = e_id (mk_entity 1 "A" "T")) /\
  exists s1,
    KnowledgeGraphManager.setImportance "A" "critical" one_obs_state =
    (Ok (KnowledgeGraphManager.mk_sir true (Some "A") (Some "critical")
           (Some "Importance set to 'critical' for entity 'A'") None), s1) /\
    SqliteRepository.fetch_importance (db s1) 1 = "critical".
Proof.
  assert (H1 : find_entity_by_name "A" (entities (db one_obs_state)) = Some (mk_entity 1 "A" "T"))
    by reflexivity.
  assert (H2 : e_id (mk_entity 1 "A" "T") <> 0) by (cbn; lia).
  assert (H3 : In "critical" Scoring.ImportanceLevel_values) by (left; reflexivity).
  assert (H4 : exists o, In o (observations (db one_obs_state)) /\
                         o_entity o = e_id (mk_entity 1 "A" "T"))
    by (eexists; split; [left; reflexivity|reflexivity]).
  split; [exact H1|]. split; [exact H2|]. split; [exact H3|]. split; [exact H4|].
  destruct (proj1 (proj2 (setImportance_result "A" "critical" one_obs_state)) _ H1 H2 H3 H4)
    as (s1 & Hrun & Hfetch & _).
  exists s1. split; [exact Hrun|exact Hfetch].
Defined.

(** C8 counterexample: entity A exists, but has no observation; setting its
    importance returns [success: false]. *)
Lemma setImportance_existing_entity_fails :
  find_entity_by_name "A" (entities (db no_obs_state)) = Some (mk_entity 1 "A" "T") /\
  fst (KnowledgeGraphManager.setImportance "A" "critical" no_obs_state) =
  Ok (KnowledgeGraphManager.mk_sir false (Some "A") (Some "critical")
        (Some "Failed to set importance for entity 'A'") None).
Proof. split; vm_compute; reflexivity. Qed.

(** The PostgreSQL fallback store whose [obs_vec.embedding] column is
    [TEXT] (pgvector absent, [vectorEnabled] false) declares no vector
    dimension; a batch with a 768-float embedding is committed there and the
    row is stored as it is. *)
Lemma insertObservationVectors_text_column_stores_wrong_width :
  let row := mk_vec 1 1 (repeat 0 768) in
  List.length (v_embedding row) <> 1024 /\
  fst (insertObservationVectors PgText (fun _ _ => false) [row] init_state) = Ok tt /\
  In row (obs_vec (db (snd (insertObservationVectors PgText (fun _ _ => false) [row] init_state)))).
Proof.
  intros row. split; [cbn; lia|]. split; vm_compute; [reflexivity|left; reflexivity].
Qed.

(** C9: on a backend that declares a fixed vector dimension [d]
    (sqlite-vec's [FLOAT[d]] or pgvector's [vector(d)], with [d] = 1024 in
    the shipped schemas), [insertObservationVectors] rejects at write time
    every batch holding an embedding whose length is not [d]: the write
    fails and leaves every table as it was, so no wrong-width vector is
    stored. *)
Theorem insertObservationVectors_fixed_width_rejects :
  forall column d vec_insert_fails rows s r,
    (column = Vec0Float d \/ column = PgVector d) ->
    tx s = None -> In r rows -> List.length (v_embedding r) <> d ->
    exists e,
      fst (insertObservationVectors column vec_insert_fails rows s) = Err e /\
      db (snd (insertObservationVectors column vec_insert_fails rows s)) = db s.
Proof.
  intros col d fails rows s r Hcol T Hin Hlen.
  assert (Hacc : column_accepts col (v_embedding r) = false).
  { destruct Hcol as [->| ->]; cbn; apply Nat.eqb_neq; exact Hlen. }
  destruct (insert_vecs_reject col fails rows
              (mk_state (db s) (Some (db s)) (embed_log s)) r Hin Hacc) as (e & s2 & Hv).
  assert (Hne : rows <> []) by (intros ->; destruct Hin).
  assert (Hrun : exists s1, insertObservationVectors col fails rows s = (Err e, s1)).
  { rewrite insertObservationVectors_cases by exact Hne. rewrite T, Hv. eexists. reflexivity. }
  destruct Hrun as (s1 & Hrun). exists e. rewrite Hrun. cbn. split; [reflexivity|].
  apply insertObservationVectors_err in Hrun as (_ & Hdb & _); [exact Hdb|exact T].
Qed.

(** Witness for C9: a 2-float embedding refused by a 3-float sqlite-vec
    column. *)
Lemma insertObservationVectors_fixed_width_rejects_witness :
  (Vec0Float 3 = Vec0Float 3 \/ Vec0Float 3 = PgVector 3) /\
  tx init_state = None /\
  In (mk_vec 1 1 [0; 0]) [mk_vec 1 1 [0; 0]] /\
  List.length (v_embedding (mk_vec 1 1 [0; 0])) <> 3 /\
  exists e,
    fst (insertObservationVectors (Vec0Float 3) (fun _ _ => false) [mk_vec 1 1 [0; 0]] init_state)
      = Err e /\
    db (snd (insertObservationVectors (Vec0Float 3) (fun _ _ => false) [mk_vec 1 1 [0; 0]]
               init_state)) = db init_state.
Proof.
  assert (H1 : Vec0Float 3 = Vec0Float 3 \/ Vec0Float 3 = PgVector 3) by (left; reflexivity).
  assert (H2 : tx init_state = None) by reflexivity.
  assert (H3 : In (mk_vec 1 1 [0; 0]) [mk_vec 1 1 [0; 0]]) by (left; reflexivity).
  assert (H4 : List.length (v_embedding (mk_vec 1 1 [0; 0])) <> 3) by (cbn; lia).
  split; [exact H1|]. split; [exact H2|]. split; [exact H3|]. split; [exact H4|].
  exact (insertObservationVectors_fixed_width_rejects _ _ _ _ _ _ H1 H2 H3 H4).
Defined.

End RepoClaims.

Module GraphFacts.
Import GraphDistance GraphSpec.
Local Open Scope nat_scope.

Lemma has_spec x s : has x s = true <-> In x s.
Proof.
  unfold has. rewrite existsb_exists. split.
  - intros [y [Hy Heq]]. apply String.eqb_eq in Heq. subst. exact Hy.
  - intros Hx. exists x. split; [exact Hx | apply String.eqb_refl].
Qed.

Lemma has_false x s : has x s = false <-> ~ In x s.
Proof.
  rewrite <- has_spec. destruct (has x s); split; congruence.
Qed.

Lemma set_add_in x s y : In y (set_add x s) <-> y = x \/ In y s.
Proof.
  unfold set_add. destruct (has x s) eqn:Hx.
  - apply has_spec in Hx. split; [auto | intros [->|H]; auto].
  - rewrite in_app_iff. simpl.
    split; [intros [H|[H|[]]]; auto | intros [->|H]; auto].
Qed.

Lemma connections_fold e rows : forall s0 y,
  In y (fold_left (fun s row =>
               let s1 := if String.eqb (fst row) e then set_add (snd row) s else s in
               if String.eqb (snd row) e then set_add (fst row) s1 else s1) rows s0)
  <-> In y s0 \/ exists row, In row rows /\
        ((fst row = e /\ y = snd row) \/ (snd row = e /\ y = fst row)).
Proof.
  induction rows as [|[f t] rows IH]; intros s0 y; simpl.
  - split; [auto | intros [H|[row [[] _]]]; exact H].
  - rewrite IH.
    assert (Hstep : In y (if String.eqb t e
                          then set_add f (if String.eqb f e then set_add t s0 else s0)
                          else if String.eqb f e then set_add t s0 else s0)
                    <-> In y s0 \/ (f = e /\ y = t) \/ (t = e /\ y = f)).
    { destruct (String.eqb_spec t e); destruct (String.eqb_spec f e);
        repeat rewrite set_add_in; intuition congruence. }
    rewrite Hstep. split.
    + intros [[H|[H|H]]|[row [Hr H]]]; auto.
      * right. exists (f, t). auto.
      * right. exists (f, t). auto.
      * right. exists row. auto.
    + intros [H|[row [[Hr|Hr] H]]].
      * auto.
      * subst row. simpl in H. left. right. exact H.
      * right. exists row. auto.
Qed.

Lemma connections_spec rels e y :
  In y (connections_of e (getRelationsForEntityIds rels [e])) <-> edge rels e y.
Proof.
  unfold connections_of. rewrite connections_fold. unfold getRelationsForEntityIds, edge.
  split.
  - intros [[]|[[f t] [Hin H]]]. apply filter_In in Hin as [Hin _].
    simpl in H. destruct H as [[-> ->]|[-> ->]]; auto.
  - intros [H|H]; right.
    + exists (e, y). rewrite filter_In. simpl. rewrite String.eqb_refl. auto.
    + exists (y, e). rewrite filter_In. simpl. rewrite String.eqb_refl, !orb_true_r. auto.
Qed.

Lemma enqueue_spec conns d : forall q v q' v',
  enqueue conns d q v = (q', v') ->
  exists N, q' = app q (map (fun y => (y, d)) N) /\
    (forall y, In y v' <-> In y v \/ In y N) /\
    (forall y, In y N -> In y conns /\ ~ In y v) /\
    (forall y, In y conns -> In y v \/ In y N) /\
    NoDup N.
Proof.
  induction conns as [|x conns IH]; intros q v q' v' He; simpl in He.
  - inversion He; subst. exists []. rewrite app_nil_r.
    repeat split; simpl; auto; try tauto. constructor.
  - destruct (has x v) eqn:Hx.
    + destruct (IH _ _ _ _ He) as (N & Hq & Hv & HN & Hc & Hnd).
      apply has_spec in Hx.
      exists N. split; [exact Hq|]. split; [exact Hv|]. split; [|split; [|exact Hnd]].
      * intros y Hy. destruct (HN y Hy) as [H1 H2]. split; [right; exact H1 | exact H2].
      * intros y [->|Hy]; auto.
    + apply has_false in Hx.
      destruct (IH _ _ _ _ He) as (N & Hq & Hv & HN & Hc & Hnd).
      exists (x :: N). split; [|split; [|split; [|split]]].
      * rewrite Hq, <- app_assoc. reflexivity.
      * intros y. rewrite Hv. simpl. tauto.
      * intros y [->|Hy]; [split; [left; reflexivity | exact Hx]|].
        destruct (HN y Hy) as [H1 H2]. simpl in H2. split; [right; exact H1 | tauto].
      * intros y [->|Hy]; [right; left; reflexivity|].
        destruct (Hc y Hy) as [[->|H]|H]; simpl; auto.
      * constructor; [|exact Hnd]. intros Hin. apply HN in Hin. simpl in Hin. tauto.
Qed.

Lemma edge_sym rels x y : edge rels x y -> edge rels y x.
Proof. unfold edge. tauto. Qed.

Lemma walk_snoc rels a b n c : walk rels a b n -> edge rels b c -> walk rels a c (S n).
Proof.
  intros Hw. induction Hw as [a|a b' b n He Hw IH]; intros Hbc.
  - apply walk_cons with c; [exact Hbc | constructor].
  - apply walk_cons with b'; auto.
Qed.

Lemma walk_zero rels a b : walk rels a b 0 -> a = b.
Proof. intros H. inversion H. reflexivity. Qed.

Lemma walk_last rels n : forall a c, walk rels a c (S n) ->
  exists b, walk rels a b n /\ edge rels b c.
Proof.
  induction n as [|n IH]; intros a c H;
    inversion H as [|a' b0 c' n' Hab Hbc Ha Hc Hn]; subst.
  - apply walk_zero in Hbc. subst. exists a. split; [constructor | exact Hab].
  - destruct (IH _ _ Hbc) as [b [Hw Hb]]. exists b. split; [|exact Hb].
    apply walk_cons with b0; assumption.
Qed.

Lemma walk_closed rels (V : list string) :
  (forall y, In y V -> forall z, edge rels y z -> In z V) ->
  forall a b n, walk rels a b n -> In a V -> In b V.
Proof.
  intros Hcl a b n Hw. induction Hw as [a|a b' b n He Hw IH]; intros Ha; auto.
  apply IH. exact (Hcl a Ha b' He).
Qed.

Lemma shortest_le rels a b d j : shortest rels a b d -> walk rels a b j -> d <= j.
Proof.
  intros [_ Hmin] Hw. destruct (Nat.lt_ge_cases j d) as [Hlt|Hge]; [|exact Hge].
  exfalso. exact (Hmin j Hlt Hw).
Qed.

Lemma shortest_unique rels a b d d' : shortest rels a b d -> shortest rels a b d' -> d = d'.
Proof.
  intros H H'. pose proof (shortest_le _ _ _ _ _ H (proj1 H')).
  pose proof (shortest_le _ _ _ _ _ H' (proj1 H)). lia.
Qed.

Lemma filter_length_le' {T} (f : T -> bool) l : List.length (filter f l) <= List.length l.
Proof. induction l as [|x l IH]; simpl; [lia | destruct (f x); simpl; lia]. Qed.

Lemma filter_split {T} (f g : T -> bool) l :
  List.length (filter f l) =
  List.length (filter (fun x => f x && g x) l) + List.length (filter (fun x => f x && negb (g x)) l).
Proof.
  induction l as [|x l IH]; simpl; [reflexivity|].
  destruct (f x), (g x); simpl; lia.
Qed.

Lemma measure_count (U V V' N : list string) :
  NoDup N -> (forall y, In y N -> In y U /\ ~ In y V) ->
  (forall y, In y V' <-> In y V \/ In y N) ->
  List.length (filter (fun u => negb (has u V)) (nodup string_dec U)) =
  List.length (filter (fun u => negb (has u V')) (nodup string_dec U)) + List.length N.
Proof.
  intros Hnd HN HV'.
  rewrite (filter_split _ (fun u => has u N)).
  assert (Hmem : forall u, negb (has u V) && negb (has u N) = negb (has u V')).
  { intros u. destruct (has u V') eqn:H1.
    - apply has_spec, HV' in H1. destruct H1 as [H1|H1]; apply has_spec in H1; rewrite H1;
        [reflexivity | apply andb_false_r].
    - apply has_false in H1. rewrite HV' in H1.
      assert (H2 : has u V = false) by (apply has_false; tauto).
      assert (H3 : has u N = false) by (apply has_false; tauto).
      rewrite H2, H3. reflexivity. }
  rewrite (filter_ext _ _ Hmem).
  assert (Hnd' : NoDup (nodup string_dec U)) by apply NoDup_nodup.
  set (L := filter (fun x => negb (has x V) && has x N) (nodup string_dec U)).
  assert (HL : forall y, In y L <-> In y N).
  { intros y. unfold L. rewrite filter_In, andb_true_iff, negb_true_iff, has_false, has_spec,
      nodup_In. split; [tauto|]. intros Hy. destruct (HN y Hy). tauto. }
  assert (HndL : NoDup L) by (apply NoDup_filter; exact Hnd').
  assert (Hle1 : List.length L <= List.length N)
    by (apply NoDup_incl_length; [exact HndL | intros y; apply HL]).
  assert (Hle2 : List.length N <= List.length L)
    by (apply NoDup_incl_length; [exact Hnd | intros y; apply HL]).
  lia.
Qed.

Lemma lookup_map_set_same {V : Type} k (v : V) m : lookup k (map_set k v m) = Some v.
Proof. unfold map_set. simpl. rewrite String.eqb_refl. reflexivity. Qed.

Lemma lookup_filter_other {V : Type} k k' (m : list (string * V)) :
  k <> k' -> lookup k (filter (fun kv => negb (String.eqb k' (fst kv))) m) = lookup k m.
Proof.
  intros Hne. induction m as [|[k0 v0] m IH]; simpl; [reflexivity|].
  destruct (String.eqb_spec k k0) as [->|Hk].
  - assert (Hk' : String.eqb k' k0 = false) by (apply String.eqb_neq; congruence).
    rewrite Hk'. simpl. rewrite String.eqb_refl. reflexivity.
  - destruct (String.eqb k' k0); simpl; [exact IH|].
    apply String.eqb_neq in Hk. rewrite Hk. exact IH.
Qed.

Lemma lookup_map_set_other {V : Type} k k' (v : V) m :
  k <> k' -> lookup k (map_set k' v m) = lookup k m.
Proof.
  intros Hne. unfold map_set. simpl.
  assert (Hk : String.eqb k k' = false) by (apply String.eqb_neq; exact Hne).
  rewrite Hk. apply lookup_filter_other. exact Hne.
Qed.

Lemma getDistance_set_same c a b d : getDistance (setDistance c a b d) a b = d.
Proof. unfold getDistance, setDistance. cbn [distanceCache]. rewrite lookup_map_set_same. reflexivity. Qed.

Lemma getDistance_set_twice c a b d :
  getDistance (setDistance (setDistance c a b d) b a d) a b = d.
Proof.
  unfold getDistance, setDistance. cbn [distanceCache].
  destruct (String.eqb_spec (cache_key a b) (cache_key b a)) as [Heq|Hne].
  - rewrite Heq, lookup_map_set_same. reflexivity.
  - rewrite lookup_map_set_other by exact Hne. rewrite lookup_map_set_same. reflexivity.
Qed.

Lemma adj_consistent_setDistance rels c a b d :
  adj_consistent rels c -> adj_consistent rels (setDistance c a b d).
Proof. intros Hc e s. exact (Hc e s). Qed.

Lemma adj_consistent_setAdjacent rels c x :
  adj_consistent rels c ->
  adj_consistent rels (setAdjacent c x (connections_of x (getRelationsForEntityIds rels [x]))).
Proof.
  intros Hc e s. unfold getAdjacent, setAdjacent. cbn [adjacencyCache].
  destruct (String.eqb_spec e x) as [->|Hne].
  - rewrite lookup_map_set_same. intros H. inversion H. reflexivity.
  - rewrite lookup_map_set_other by exact Hne. apply Hc.
Qed.

Lemma adj_consistent_empty rels : adj_consistent rels empty_cache.
Proof. intros e s H. discriminate H. Qed.

Section BfsCorrect.

Variable rels : list (string * string).
Variable maxDepth : nat.
Variables from to : string.
Variable U : list string.
Hypothesis U_edges : forall x y, edge rels x y -> In y U.

Lemma bfs_inv_shift d0 B V :
  bfs_inv rels from to U d0 (map (fun y => (y, S d0)) B) V ->
  bfs_inv rels from to U (S d0) (map (fun y => (y, S d0)) B) V.
Proof.
  intros (H1 & _ & H3 & H4 & H5 & H6).
  split; [exact H1|]. split; [exists B, []; rewrite app_nil_r; reflexivity|].
  split; [|split; [exact H4 | split; [exact H5 | exact H6]]].
  - intros y j Hw Hj. destruct (Nat.eq_dec j (S d0)) as [->|Hne]; [|apply (H3 y j); auto; lia].
    destruct (walk_last _ _ _ _ Hw) as [z [Hz Hzy]].
    assert (HzV : In z V) by (apply (H3 z d0); auto).
    destruct (H4 z HzV) as [[e He]|Hcl]; [|exact (Hcl y Hzy)].
    exfalso. pose proof He as He'. apply in_map_iff in He' as [z' [Hz' _]].
    inversion Hz'; subst.
    destruct (H1 z (S d0) He) as [[_ Hmin] _].
    exact (Hmin d0 (Nat.lt_succ_diag_r d0) Hz).
Qed.

Lemma bfs_inv_head d0 x d rest V :
  bfs_inv rels from to U d0 ((x, d) :: rest) V ->
  bfs_inv rels from to U d ((x, d) :: rest) V.
Proof.
  intros Hinv. pose proof Hinv as (_ & [A [B HAB]] & _).
  destruct A as [|a A]; simpl in HAB.
  - destruct B as [|b B]; simpl in HAB; [discriminate|].
    injection HAB as Hb Hd Hrest. subst. change ((b, S d0) :: map (fun y => (y, S d0)) B)
      with (map (fun y => (y, S d0)) (b :: B)) in Hinv |- *.
    apply bfs_inv_shift. exact Hinv.
  - injection HAB as Ha Hd Hrest. subst. exact Hinv.
Qed.

Lemma bfs_exit_facts c res :
  adj_consistent rels c -> res = None ->
  adj_consistent rels (setDistance c from to None) /\
  getDistance (setDistance c from to None) from to = res /\
  (forall k, res = Some k -> getDistance (setDistance c from to None) to from = Some k).
Proof.
  intros Hc ->. split; [apply adj_consistent_setDistance; exact Hc|].
  split; [apply getDistance_set_same | discriminate].
Qed.

Lemma bfs_spec fuel : forall d0 q V c res c',
  bfs_inv rels from to U d0 q V -> bfs_measure U q V < fuel -> adj_consistent rels c ->
  bfs rels maxDepth from to fuel q V c = (res, c') ->
  (forall k, res = Some k <-> shortest rels from to k /\ k <= maxDepth) /\
  adj_consistent rels c' /\ getDistance c' from to = res /\
  (forall k, res = Some k -> getDistance c' to from = Some k).
Proof.
  induction fuel as [|fuel IH]; intros d0 q V c res c' Hinv Hm Hc Hrun.
  { unfold bfs_measure in Hm. lia. }
  destruct q as [|[x d] rest].
  - simpl in Hrun. inversion Hrun; subst.
    split; [|apply bfs_exit_facts; auto].
    intros k. split; [discriminate|]. intros [[Hw _] _]. exfalso.
    destruct Hinv as (_ & _ & H3 & H4 & H5 & _).
    apply H5. apply (walk_closed rels V) with from k; auto.
    + intros y Hy. destruct (H4 y Hy) as [[e []]|Hcl]. exact Hcl.
    + apply (H3 from 0); [constructor | lia].
  - apply bfs_inv_head in Hinv.
    destruct (Nat.leb maxDepth d) eqn:Hle.
    + simpl in Hrun. rewrite Hle in Hrun. inversion Hrun; subst.
      split; [|apply bfs_exit_facts; auto].
      intros k. split; [discriminate|]. intros [[Hw _] Hk]. exfalso.
      apply Nat.leb_le in Hle.
      destruct Hinv as (_ & _ & H3 & _ & H5 & _).
      apply H5. apply (H3 to k); [exact Hw | lia].
    + apply Nat.leb_gt in Hle.
      set (conns := connections_of x (getRelationsForEntityIds rels [x])) in *.
      assert (Hf : exists c1, adj_consistent rels c1 /\
        bfs rels maxDepth from to (S fuel) ((x, d) :: rest) V c =
        (if has to conns then
           (Some (S d), setDistance (setDistance c1 from to (Some (S d))) to from (Some (S d)))
         else let '(q', v') := enqueue conns (S d) rest V in
              bfs rels maxDepth from to fuel q' v' c1)).
      { simpl. assert (Hle' : Nat.leb maxDepth d = false) by (apply Nat.leb_gt; exact Hle).
        rewrite Hle'. destruct (getAdjacent c x) as [s|] eqn:Ha.
        - exists c. split; [exact Hc|]. rewrite (Hc _ _ Ha). reflexivity.
        - exists (setAdjacent c x conns). split; [apply adj_consistent_setAdjacent; exact Hc|].
          reflexivity. }
      destruct Hf as [c1 [Hc1 Hf]]. rewrite Hf in Hrun. clear Hf.
      destruct Hinv as (H1 & [A [B HAB]] & H3 & H4 & H5 & H6).
      assert (Hx : shortest rels from x d) by (apply (H1 x d); left; reflexivity).
      destruct (has to conns) eqn:Ht.
      * inversion Hrun; subst.
        apply has_spec in Ht. apply connections_spec in Ht.
        assert (Hsh : shortest rels from to (S d)).
        { split; [apply walk_snoc with x; [apply Hx | exact Ht]|].
          intros j Hj Hw. apply H5. apply (H3 to j); [exact Hw | lia]. }
        split; [|split; [apply adj_consistent_setDistance, adj_consistent_setDistance; exact Hc1|]].
        { intros k. split.
          - intros Hk. inversion Hk; subst. split; [exact Hsh | lia].
          - intros [Hk _]. f_equal. exact (shortest_unique _ _ _ _ _ Hsh Hk). }
        split; [apply getDistance_set_twice|].
        intros k Hk. inversion Hk; subst.
        unfold getDistance, setDistance. cbn [distanceCache]. rewrite lookup_map_set_same. reflexivity.
      * destruct (enqueue conns (S d) rest V) as [q' v'] eqn:He.
        apply enqueue_spec in He as (N & Hq' & Hv' & HN & Hcov & Hnd).
        apply has_false in Ht.
        assert (HNe : forall y, In y N -> edge rels x y).
        { intros y Hy. apply connections_spec. apply HN. exact Hy. }
        apply (IH d q' v' c1 res c'); [| |exact Hc1|exact Hrun].
        -- destruct A as [|a A].
           { destruct B as [|b B]; simpl in HAB; inversion HAB; lia. }
           simpl in HAB. injection HAB as Hxa Hrest. subst a rest.
           split; [|split; [|split; [|split; [|split]]]].
           ++ intros y e Hy. rewrite Hq' in Hy. apply in_app_or in Hy as [Hy|Hy].
              ** destruct (H1 y e (or_intror Hy)) as [Hs HV].
                 split; [exact Hs | apply Hv'; left; exact HV].
              ** apply in_map_iff in Hy as [y' [Hy' HyN]]. inversion Hy'; subst.
                 split; [split|].
                 --- apply walk_snoc with x; [apply Hx | apply HNe; exact HyN].
                 --- intros j Hj Hw. apply (proj2 (HN y HyN)). apply (H3 y j); [exact Hw | lia].
                 --- apply Hv'. right. exact HyN.
           ++ exists A, (app B N). rewrite Hq', map_app, app_assoc. reflexivity.
           ++ intros y j Hw Hj. apply Hv'. left. apply (H3 y j); assumption.
           ++ intros y Hy. apply Hv' in Hy as [Hy|Hy].
              ** destruct (H4 y Hy) as [[e [He|He]]|Hcl].
                 --- inversion He; subst. right. intros z Hz. apply Hv'.
                     apply Hcov. apply connections_spec. exact Hz.
                 --- left. exists e. rewrite Hq'. apply in_or_app. left. exact He.
                 --- right. intros z Hz. apply Hv'. left. exact (Hcl z Hz).
              ** left. exists (S d). rewrite Hq'. apply in_or_app. right.
                 apply in_map_iff. exists y. auto.
           ++ intros Hto. apply Hv' in Hto as [Hto|Hto]; [exact (H5 Hto)|].
              apply Ht. apply HN. exact Hto.
           ++ intros y Hy. apply Hv' in Hy as [Hy|Hy]; [exact (H6 y Hy)|].
              apply (U_edges x). apply HNe. exact Hy.
        -- unfold bfs_measure in *.
           rewrite (measure_count U V v' N) in Hm; [|exact Hnd| |exact Hv'].
           ++ rewrite Hq', length_app, length_map. simpl in Hm. lia.
           ++ intros y Hy. split; [apply (U_edges x); apply HNe; exact Hy | apply HN; exact Hy].
Qed.

End BfsCorrect.

Lemma bfs_universe_edges rels a c :
  forall x y, edge rels x y -> In y (bfs_universe rels a c).
Proof.
  intros x y Hxy. unfold bfs_universe. right. apply in_or_app. left.
  apply in_flat_map. destruct Hxy as [H|H].
  - exists (x, y). split; [exact H | simpl; auto].
  - exists (y, x). split; [exact H | simpl; auto].
Qed.

Lemma bfs_inv_init rels a b U :
  a <> b -> In a U -> bfs_inv rels a b U 0 [(a, 0)] [a].
Proof.
  intros Hab HaU. unfold bfs_inv.
  split; [|split; [|split; [|split; [|split]]]].
  - intros x d [Hx|[]]. inversion Hx; subst.
    split; [split; [constructor | intros j Hj; lia] | left; reflexivity].
  - exists [a], []. reflexivity.
  - intros y j Hw Hj. assert (j = 0) by lia. subst. apply walk_zero in Hw. subst. left. reflexivity.
  - intros y [->|[]]. left. exists 0. left. reflexivity.
  - intros [Hb|[]]. exact (Hab Hb).
  - intros y [->|[]]. exact HaU.
Qed.

(** The search proper, from a cache with no distance for the pair. *)
Lemma calculateGraphDistance_bfs rels maxDepth a b c :
  a <> b -> getDistance c a b = None -> adj_consistent rels c ->
  let '(res, c') := calculateGraphDistance rels maxDepth a b c in
  (forall k, res = Some k <-> shortest rels a b k /\ k <= maxDepth) /\
  getDistance c' a b = res /\
  (forall k, res = Some k -> getDistance c' b a = Some k) /\
  adj_consistent rels c'.
Proof.
  intros Hab Hd Hc. unfold calculateGraphDistance.
  assert (Hab' : String.eqb a b = false) by (apply String.eqb_neq; exact Hab).
  rewrite Hab', Hd.
  destruct (bfs rels maxDepth a b (bfs_fuel rels a c) [(a, 0)] [a] c) as [res c'] eqn:Hrun.
  destruct (bfs_spec rels maxDepth a b (bfs_universe rels a c) (bfs_universe_edges rels a c)
              (bfs_fuel rels a c) 0 [(a, 0)] [a] c res c') as (H1 & H2 & H3 & H4).
  - apply bfs_inv_init; [exact Hab | left; reflexivity].
  - unfold bfs_measure, bfs_fuel. simpl List.length at 1.
    pose proof (filter_length_le' (fun u => negb (has u [a]))
                  (nodup string_dec (bfs_universe rels a c))).
    assert (List.length (nodup string_dec (bfs_universe rels a c))
            <= List.length (bfs_universe rels a c)).
    { apply NoDup_incl_length; [apply NoDup_nodup | intros y; apply nodup_In]. }
    lia.
  - exact Hc.
  - exact Hrun.
  - auto.
Qed.

End GraphFacts.

Module GraphClaims.
Import GraphDistance GraphSpec GraphFacts.
Local Open Scope nat_scope.

(** C3 (amended): [calculateGraphDistance(a, b, maxDepth)] returns 0 when
    [a = b], and returns a distance already cached for [(a, b)] as it is,
    whatever [maxDepth] is.  Otherwise, when no number is cached for the
    pair and every cached adjacency set is the one the search itself
    fetches, it returns the shortest undirected hop count [k] between [a]
    and [b] when [k <= maxDepth] and [null] in every other case.  Afterwards
    the cache holds the result under [(a, b)]; a distance that was found is
    also stored under [(b, a)]. *)
Theorem calculateGraphDistance_amended rels maxDepth a b c :
  (a = b -> calculateGraphDistance rels maxDepth a b c = (Some 0, c)) /\
  (forall d, a <> b -> getDistance c a b = Some d ->
     calculateGraphDistance rels maxDepth a b c = (Some d, c)) /\
  (a <> b -> getDistance c a b = None -> adj_consistent rels c ->
     let '(res, c') := calculateGraphDistance rels maxDepth a b c in
     (forall k, res = Some k <-> shortest rels a b k /\ k <= maxDepth) /\
     getDistance c' a b = res /\
     (forall k, res = Some k -> getDistance c' b a = Some k) /\
     adj_consistent rels c').
Proof.
  split; [|split].
  - intros ->. unfold calculateGraphDistance. rewrite String.eqb_refl. reflexivity.
  - intros d Hab Hd. unfold calculateGraphDistance.
    assert (Hab' : String.eqb a b = false) by (apply String.eqb_neq; exact Hab).
    rewrite Hab', Hd. reflexivity.
  - apply calculateGraphDistance_bfs.
Qed.

Lemma calculateGraphDistance_amended_witness :
  calculateGraphDistance path_rels 3 "A" "A" empty_cache = (Some 0, empty_cache) /\
  calculateGraphDistance path_rels 3 "A" "E" (mk_cache [] [("A:E", Some 4)]) =
    (Some 4, mk_cache [] [("A:E", Some 4)]) /\
  ("A" <> "D" /\ getDistance empty_cache "A" "D" = None /\
   adj_consistent path_rels empty_cache /\
   let '(res, c') := calculateGraphDistance path_rels 3 "A" "D" empty_cache in
   (forall k, res = Some k <-> shortest path_rels "A" "D" k /\ k <= 3) /\
   getDistance c' "A" "D" = res /\
   (forall k, res = Some k -> getDistance c' "D" "A" = Some k) /\
   adj_consistent path_rels c').
Proof.
  assert (Hne : "A" <> "D") by discriminate.
  assert (Hd : getDistance empty_cache "A" "D" = None) by reflexivity.
  pose proof (adj_consistent_empty path_rels) as Hc.
  split; [|split].
  - apply (proj1 (calculateGraphDistance_amended path_rels 3 "A" "A" empty_cache)).
    reflexivity.
  - apply (proj1 (proj2 (calculateGraphDistance_amended path_rels 3 "A" "E"
                            (mk_cache [] [("A:E", Some 4)])))).
    + discriminate.
    + reflexivity.
  - split; [exact Hne|]. split; [exact Hd|]. split; [exact Hc|].
    exact (proj2 (proj2 (calculateGraphDistance_amended path_rels 3 "A" "D" empty_cache))
             Hne Hd Hc).
Defined.

(** C3 counterexample: on the path A - B - C - D - E the shortest hop count
    from A to E is 4.  A call with [maxDepth = 5] caches it, and a later
    call with [maxDepth = 3] returns 4 from the cache instead of [null]. *)
Lemma calculateGraphDistance_stale_cached_distance :
  let c := snd (calculateGraphDistance path_rels 5 "A" "E" empty_cache) in
  shortest path_rels "A" "E" 4 /\ 3 < 4 /\
  calculateGraphDistance path_rels 3 "A" "E" c = (Some 4, c).
Proof.
  intros c. split; [|split; [lia | vm_compute; reflexivity]].
  pose proof (calculateGraphDistance_bfs path_rels 5 "A" "E" empty_cache
                ltac:(discriminate) eq_refl (adj_consistent_empty path_rels)) as H.
  assert (Hr : fst (calculateGraphDistance path_rels 5 "A" "E" empty_cache) = Some 4)
    by (vm_compute; reflexivity).
  destruct (calculateGraphDistance path_rels 5 "A" "E" empty_cache) as [res c'].
  simpl in Hr. subst res. destruct H as [Hk _]. apply Hk. reflexivity.
Qed.

End GraphClaims.

Module ScoringExtraFacts.
Import Js Scoring ScoringExtra.

(** Extra X1: [getImportanceLevelConstant] returns its argument exactly for a
    valid importance level and [null] for every other value. *)
Theorem getImportanceLevelConstant_valid v :
  getImportanceLevelConstant v = if isValidImportanceLevel v then v else JNull.
Proof.
  destruct v as [| | | | s | |]; try reflexivity.
  unfold getImportanceLevelConstant, isValidImportanceLevel, ImportanceLevel_entries.
  cbn [find_level_constant existsb map snd fst str_strict_eq].
  destruct (String.eqb CRITICAL s) eqn:E1;
    [apply String.eqb_eq in E1; subst; reflexivity|].
  destruct (String.eqb IMPORTANT s) eqn:E2;
    [apply String.eqb_eq in E2; subst; reflexivity|].
  destruct (String.eqb NORMAL s) eqn:E3;
    [apply String.eqb_eq in E3; subst; reflexivity|].
  destruct (String.eqb TEMPORARY s) eqn:E4;
    [apply String.eqb_eq in E4; subst; reflexivity|].
  destruct (String.eqb DEPRECATED s) eqn:E5;
    [apply String.eqb_eq in E5; subst; reflexivity|reflexivity].
Qed.

Lemma default_popularity_score a :
  getPopularityScore (JNum (Fin a)) default_popularity =
  if Rle_dec a 0 then Fin 1.0 else Fin (1.0 + ln (1 + a) / ln 10 * 0.1).
Proof.
  unfold getPopularityScore, default_popularity; cbn.
  unfold rlt. destruct (Rlt_dec 0 a) as [Ha|Ha]; destruct (Rle_dec a 0) as [Hb|Hb];
    try lra; simpl.
  - destruct (Rlt_dec 0 (1 + a)); [reflexivity | lra].
  - reflexivity.
Qed.

Lemma ln10_pos : 0 < ln 10.
Proof. rewrite <- ln_1. apply ln_increasing; lra. Qed.

(** Extra X3: under the default popularity configuration the popularity score of
    a finite access count is at least 1.0, is exactly 1.0 for counts at most
    0, and never decreases as the count grows. *)
Theorem getPopularityScore_default_monotone a b (Hab : a <= b) :
  exists pa pb,
    getPopularityScore (JNum (Fin a)) default_popularity = Fin pa /\
    getPopularityScore (JNum (Fin b)) default_popularity = Fin pb /\
    1 <= pa <= pb /\ (a <= 0 -> pa = 1).
Proof.
  rewrite !default_popularity_score.
  pose proof ln10_pos as H10.
  destruct (Rle_dec a 0) as [Ha|Ha]; destruct (Rle_dec b 0) as [Hb|Hb].
  - exists 1.0, 1.0. repeat split; try reflexivity; intros; lra.
  - exists 1.0, (1.0 + ln (1 + b) / ln 10 * 0.1). split; [reflexivity|split; [reflexivity|]].
    assert (0 <= ln (1 + b) / ln 10).
    { apply Rmult_le_pos; [|left; apply Rinv_0_lt_compat; exact H10].
      rewrite <- ln_1. left. apply ln_increasing; lra. }
    split; [split; lra | intros; lra].
  - lra.
  - exists (1.0 + ln (1 + a) / ln 10 * 0.1), (1.0 + ln (1 + b) / ln 10 * 0.1).
    split; [reflexivity|split; [reflexivity|]].
    assert (0 <= ln (1 + a) / ln 10).
    { apply Rmult_le_pos; [|left; apply Rinv_0_lt_compat; exact H10].
      rewrite <- ln_1. left. apply ln_increasing; lra. }
    assert (ln (1 + a) <= ln (1 + b)).
    { destruct (Req_dec a b) as [->|Hne]; [lra|]. left; apply ln_increasing; lra. }
    assert (ln (1 + a) / ln 10 <= ln (1 + b) / ln 10).
    { apply Rmult_le_compat_r; [left; apply Rinv_0_lt_compat; exact H10 | exact H0]. }
    split; [split; lra | intros; lra].
Qed.

Lemma getPopularityScore_default_monotone_witness :
  exists pa pb,
    getPopularityScore (JNum (Fin 0)) default_popularity = Fin pa /\
    getPopularityScore (JNum (Fin 9)) default_popularity = Fin pb /\
    1 <= pa <= pb /\ (0 <= 0 -> pa = 1).
Proof. apply (getPopularityScore_default_monotone 0 9). lra. Defined.

Lemma fold_min_fin rs a :
  exists m, fold_left min (map Fin rs) (Fin a) = Fin m /\ (m = a \/ In m rs) /\
            m <= a /\ forall r, In r rs -> m <= r.
Proof.
  revert a; induction rs as [|r rs IH]; intro a; simpl.
  - exists a. repeat split; auto; [lra | intros r []].
  - unfold rlt. destruct (Rlt_dec r a) as [H|H].
    + destruct (IH r) as (m & E & Hin & Hle & Hall). exists m.
      split; [exact E|]. split; [destruct Hin; auto|].
      split; [lra|]. intros r' [<-|Hr']; [lra | auto].
    + destruct (IH a) as (m & E & Hin & Hle & Hall). exists m.
      split; [exact E|]. split; [destruct Hin; auto|].
      split; [lra|]. intros r' [<-|Hr']; [lra | auto].
Qed.

Lemma fold_max_fin rs a :
  exists m, fold_left max (map Fin rs) (Fin a) = Fin m /\ (m = a \/ In m rs) /\
            a <= m /\ forall r, In r rs -> r <= m.
Proof.
  revert a; induction rs as [|r rs IH]; intro a; simpl.
  - exists a. repeat split; auto; [lra | intros r []].
  - unfold rlt. destruct (Rlt_dec a r) as [H|H].
    + destruct (IH r) as (m & E & Hin & Hle & Hall). exists m.
      split; [exact E|]. split; [destruct Hin; auto|].
      split; [lra|]. intros r' [<-|Hr']; [lra | auto].
    + destruct (IH a) as (m & E & Hin & Hle & Hall). exists m.
      split; [exact E|]. split; [destruct Hin; auto|].
      split; [lra|]. intros r' [<-|Hr']; [lra | auto].
Qed.

(** Extra X4: on a non-empty list of finite scores, each of magnitude at
    most 1e307 (so that [max - min], at most 2e307, stays below the largest
    double and does not overflow to Infinity), [normalizeScores] maps each
    score [r] to [(r - min) / (max - min)], or every score to 1.0 when all
    are equal; every result lies in [0, 1]. *)
Theorem normalizeScores_finite (rs : list R) (Hne : rs <> [])
    (Hb : forall r, In r rs -> -1e307 <= r <= 1e307) :
  exists m M, In m rs /\ In M rs /\ (forall r, In r rs -> m <= r <= M) /\
    normalizeScores (Some (map Fin rs)) =
      map (fun r => Fin (if Req_dec_T m M then 1.0 else (r - m) / (M - m))) rs /\
    Forall (fun y => exists q, y = Fin q /\ 0 <= q <= 1) (normalizeScores (Some (map Fin rs))).
Proof.
  destruct rs as [|r0 rs]; [congruence|].
  destruct (fold_min_fin rs r0) as (m & Em & Hm & Hm0 & Hmall).
  destruct (fold_max_fin rs r0) as (M & EM & HM & HM0 & HMall).
  assert (Hbound : forall r, In r (r0 :: rs) -> m <= r <= M).
  { intros r [<-|Hr]; split; try lra; auto. }
  assert (Hnorm : normalizeScores (Some (map Fin (r0 :: rs))) =
      map (fun r => Fin (if Req_dec_T m M then 1.0 else (r - m) / (M - m))) (r0 :: rs)).
  { assert (Emin : math_min_list (map Fin (r0 :: rs)) = Fin m) by exact Em.
    assert (Emax : math_max_list (map Fin (r0 :: rs)) = Fin M) by exact EM.
    set (xs := map Fin (r0 :: rs)) in *.
    assert (Hn : normalizeScores (Some xs) =
      if num_strict_eq (math_min_list xs) (math_max_list xs)
      then map (fun _ => Fin 1.0) xs
      else map (fun score => div (sub score (math_min_list xs))
                                 (sub (math_max_list xs) (math_min_list xs))) xs)
      by reflexivity.
    rewrite Hn, Emin, Emax. subst xs. rewrite !map_map. unfold num_strict_eq, req.
    destruct (Req_dec_T m M) as [HmM|HmM]; [reflexivity|].
    apply map_ext_in. intros r Hr.
    unfold div, sub, add, neg, req.
    destruct (Req_dec_T (M + - m) 0) as [Z|Z]; [exfalso; apply HmM; lra|].
    reflexivity. }
  exists m, M. split; [destruct Hm as [->|]; [left|right]; auto|].
  split; [destruct HM as [->|]; [left|right]; auto|].
  split; [exact Hbound|]. split; [exact Hnorm|].
  rewrite Hnorm. apply Forall_forall. intros y Hy. apply in_map_iff in Hy.
  destruct Hy as (r & <- & Hr). apply Hbound in Hr.
  destruct (Req_dec_T m M) as [HmM|HmM].
  - eexists; split; [reflexivity|lra].
  - eexists; split; [reflexivity|].
    assert (0 < M - m) by lra. split.
    + apply Rmult_le_pos; [lra | left; apply Rinv_0_lt_compat; lra].
    + apply (Rmult_le_reg_r (M - m)); [lra|].
      unfold Rdiv. rewrite Rmult_assoc, Rinv_l by lra. lra.
Qed.

Lemma normalizeScores_finite_witness :
  (forall r, In r [0.5; 1.0; 2.0] -> -1e307 <= r <= 1e307) /\
  exists m M, In m [0.5; 1.0; 2.0] /\ In M [0.5; 1.0; 2.0] /\
    (forall r, In r [0.5; 1.0; 2.0] -> m <= r <= M) /\
    normalizeScores (Some (map Fin [0.5; 1.0; 2.0])) =
      map (fun r => Fin (if Req_dec_T m M then 1.0 else (r - m) / (M - m))) [0.5; 1.0; 2.0] /\
    Forall (fun y => exists q, y = Fin q /\ 0 <= q <= 1)
      (normalizeScores (Some (map Fin [0.5; 1.0; 2.0]))).
Proof.
  assert (Hb : forall r, In r [0.5; 1.0; 2.0] -> -1e307 <= r <= 1e307).
  { intros r Hr. destruct Hr as [<-|[<-|[<-|[]]]]; lra. }
  split; [exact Hb|].
  apply (normalizeScores_finite [0.5; 1.0; 2.0]); [discriminate | exact Hb].
Defined.

End ScoringExtraFacts.

Module JsSortFacts.
Import Js JsSort.

Lemma in_firstn_in {A} n (l : list A) x : In x (firstn n l) -> In x l.
Proof. intro H. rewrite <- (firstn_skipn n l). apply in_app_iff; auto. Qed.

Lemma insert_sorted_perm {A} (cmp : A -> A -> num) x s :
  Permutation (insert_sorted cmp x s) (x :: s).
Proof.
  induction s as [|y s IH]; simpl; [auto|].
  destruct (cmp_gt (cmp y x)); [auto|].
  eapply perm_trans; [apply perm_skip, IH | apply perm_swap].
Qed.

Lemma js_sort_fold_perm {A} (cmp : A -> A -> num) xs acc :
  Permutation (fold_left (fun acc x => insert_sorted cmp x acc) xs acc) (app xs acc).
Proof.
  revert acc; induction xs as [|x xs IH]; intro acc; simpl; [auto|].
  eapply perm_trans; [apply IH|].
  eapply perm_trans; [apply Permutation_app_head, insert_sorted_perm|].
  apply Permutation_sym, Permutation_middle.
Qed.

Lemma js_sort_perm {A} (cmp : A -> A -> num) xs : Permutation (js_sort cmp xs) xs.
Proof.
  unfold js_sort. eapply perm_trans; [apply js_sort_fold_perm|]. rewrite app_nil_r; auto.
Qed.

Lemma insert_sorted_in {A} (cmp : A -> A -> num) x s y :
  In y (insert_sorted cmp x s) <-> y = x \/ In y s.
Proof.
  split; intro H.
  - apply (Permutation_in _ (insert_sorted_perm cmp x s)) in H. destruct H; auto.
  - apply (Permutation_in _ (Permutation_sym (insert_sorted_perm cmp x s))).
    destruct H as [->|H]; simpl; auto.
Qed.

Lemma Sorted_impl {A} (R1 R2 : A -> A -> Prop) l :
  (forall a b, R1 a b -> R2 a b) -> Sorted R1 l -> Sorted R2 l.
Proof.
  intros HR H; induction H as [|a l Hs IH Hd]; constructor; auto.
  destruct Hd; constructor; auto.
Qed.

Section KeyedSort.
Context {A : Type} (cmp : A -> A -> num) (k : A -> R) (U : list A).
Hypothesis Hcmp : forall a b, In a U -> In b U -> cmp a b = Fin (k a - k b).


Lemma insert_sorted_sorted x s :
  In x U -> (forall y, In y s -> In y U) -> Sorted (fun a b : A => k a <= k b) s ->
  Sorted (fun a b : A => k a <= k b) (insert_sorted cmp x s).
Proof.
  intros Hx; induction s as [|y s IH]; intros Hs Hsort; simpl; [auto|].
  rewrite (Hcmp y x) by (auto || apply Hs; simpl; auto).
  unfold cmp_gt, rlt. destruct (Rlt_dec 0 (k y - k x)) as [Hlt|Hlt].
  - constructor; [exact Hsort|]. constructor. lra.
  - apply Sorted_inv in Hsort as [Hs' Hd].
    constructor; [apply IH; auto; intros z Hz; apply Hs; simpl; auto|].
    destruct s as [|z s]; simpl.
    + constructor. lra.
    + destruct (cmp_gt (cmp z x)); constructor; [lra|].
      inversion Hd; auto.
Qed.

Lemma js_sort_fold_sorted xs acc :
  (forall y, In y xs -> In y U) -> (forall y, In y acc -> In y U) -> Sorted (fun a b : A => k a <= k b) acc ->
  Sorted (fun a b : A => k a <= k b) (fold_left (fun acc x => insert_sorted cmp x acc) xs acc).
Proof.
  revert acc; induction xs as [|x xs IH]; intros acc Hxs Hacc Hs; simpl; [auto|].
  apply IH.
  - intros y Hy; apply Hxs; simpl; auto.
  - intros y Hy. apply insert_sorted_in in Hy as [->|Hy]; [apply Hxs; simpl|]; auto.
  - apply insert_sorted_sorted; auto. apply Hxs; simpl; auto.
Qed.

Lemma js_sort_sorted xs :
  (forall y, In y xs -> In y U) -> Sorted (fun a b : A => k a <= k b) (js_sort cmp xs).
Proof.
  intro H. apply js_sort_fold_sorted; auto. intros y [].
Qed.


Lemma filter_insert_other v x s :
  (fun a : A => req (k a) v) x = false -> filter ((fun a : A => req (k a) v)) (insert_sorted cmp x s) = filter ((fun a : A => req (k a) v)) s.
Proof.
  intro Hx; induction s as [|y s IH]; simpl.
  - rewrite Hx; reflexivity.
  - destruct (cmp_gt (cmp y x)); simpl; rewrite ?Hx; [reflexivity|].
    destruct ((fun a : A => req (k a) v) y); rewrite IH; reflexivity.
Qed.

Lemma keyed_le_trans : forall a b c, (fun a b : A => k a <= k b) a b -> (fun a b : A => k a <= k b) b c -> (fun a b : A => k a <= k b) a c.
Proof. intros; lra. Qed.

Lemma filter_none_above v y s :
  Sorted (fun a b : A => k a <= k b) (y :: s) -> v < k y -> filter ((fun a : A => req (k a) v)) (y :: s) = [].
Proof.
  intros Hsort Hlt.
  apply Sorted_StronglySorted in Hsort; [|exact keyed_le_trans].
  apply StronglySorted_inv in Hsort as [_ Hall].
  cbn [filter]. unfold req at 1.
  destruct (Req_dec_T (k y) v) as [E|_]; [lra|].
  induction s as [|z s IHs]; [reflexivity|].
  cbn [filter]. apply Forall_inv in Hall as Hz. cbv beta in Hz.
  unfold req at 1. destruct (Req_dec_T (k z) v); [lra|].
  apply IHs. apply Forall_inv_tail in Hall; exact Hall.
Qed.

Lemma filter_insert_same v x s :
  In x U -> (forall y, In y s -> In y U) -> Sorted (fun a b : A => k a <= k b) s -> req (k x) v = true ->
  filter ((fun a : A => req (k a) v)) (insert_sorted cmp x s) = app (filter ((fun a : A => req (k a) v)) s) [x].
Proof.
  intros Hx; induction s as [|y s IH]; intros Hs Hsort Hv.
  - cbn. rewrite Hv; reflexivity.
  - cbn [insert_sorted].
    rewrite (Hcmp y x) by (auto || apply Hs; simpl; auto).
    unfold cmp_gt, rlt. destruct (Rlt_dec 0 (k y - k x)) as [Hlt|Hlt].
    + assert (Ekx : k x = v)
        by (unfold req in Hv; destruct (Req_dec_T (k x) v); [assumption|discriminate]).
      assert (Hn := filter_none_above v y s Hsort ltac:(lra)).
      transitivity (x :: filter (fun a : A => req (k a) v) (y :: s)).
      { cbn [filter]. rewrite Hv. reflexivity. }
      rewrite Hn. reflexivity.
    + apply Sorted_inv in Hsort as [Hs' _].
      cbn [filter]. destruct (req (k y) v); rewrite IH; auto;
        intros z Hz; apply Hs; simpl; auto.
Qed.

Lemma js_sort_fold_stable v xs acc :
  (forall y, In y xs -> In y U) -> (forall y, In y acc -> In y U) -> Sorted (fun a b : A => k a <= k b) acc ->
  filter ((fun a : A => req (k a) v)) (fold_left (fun acc x => insert_sorted cmp x acc) xs acc) =
  app (filter ((fun a : A => req (k a) v)) acc) (filter ((fun a : A => req (k a) v)) xs).
Proof.
  revert acc; induction xs as [|x xs IH]; intros acc Hxs Hacc Hs; simpl.
  - rewrite app_nil_r; reflexivity.
  - rewrite IH.
    + destruct ((fun a : A => req (k a) v) x) eqn:Ev.
      * rewrite filter_insert_same; auto; [|apply Hxs; simpl; auto].
        rewrite <- app_assoc. reflexivity.
      * rewrite filter_insert_other by exact Ev. reflexivity.
    + intros y Hy; apply Hxs; simpl; auto.
    + intros y Hy. apply insert_sorted_in in Hy as [->|Hy]; [apply Hxs; simpl|]; auto.
    + apply insert_sorted_sorted; auto. apply Hxs; simpl; auto.
Qed.

Lemma js_sort_stable v xs :
  (forall y, In y xs -> In y U) ->
  filter ((fun a : A => req (k a) v)) (js_sort cmp xs) = filter ((fun a : A => req (k a) v)) xs.
Proof.
  intro H. unfold js_sort. rewrite js_sort_fold_stable; auto. intros y [].
Qed.

End KeyedSort.

End JsSortFacts.

Module SortRelevanceFacts.
Import Js JsSort SortRelevance JsSortFacts ExtraExamples.

Lemma req_opp a b : req (- a) (- b) = req a b.
Proof.
  unfold req. destruct (Req_dec_T (- a) (- b)), (Req_dec_T a b); auto; exfalso; lra.
Qed.

(** Extra X5: when every entity's score reads as a finite number, [sortByRelevance]
    returns a permutation of the entities ordered by non-increasing score, and
    entities with equal scores keep their input order. *)
Theorem sortByRelevance_sorted entities scoreField (rs : value -> R)
  (Hfin : forall e, In e entities -> relevance_key scoreField e = Fin (rs e)) :
  Permutation (sortByRelevance entities scoreField) entities /\
  Sorted (fun a b => rs b <= rs a) (sortByRelevance entities scoreField) /\
  forall v, filter (fun e => req (rs e) v) (sortByRelevance entities scoreField) =
            filter (fun e => req (rs e) v) entities.
Proof.
  assert (Hcmp : forall a b, In a entities -> In b entities ->
            relevance_cmp scoreField a b = Fin ((fun e => - rs e) a - (fun e => - rs e) b)).
  { intros a b Ha Hb. unfold relevance_cmp.
    change (sub (relevance_key scoreField b) (relevance_key scoreField a) =
            Fin (- rs a - - rs b)).
    rewrite (Hfin a Ha), (Hfin b Hb). unfold sub, add, neg. f_equal. ring. }
  split; [apply js_sort_perm|]. split.
  - eapply Sorted_impl; [|apply (js_sort_sorted _ _ _ Hcmp); auto].
    cbv beta; intros; lra.
  - intro v. unfold sortByRelevance.
    rewrite (filter_ext (fun e => req (rs e) v) (fun e => req ((fun e => - rs e) e) (- v)))
      by (intro; cbv beta; rewrite req_opp; reflexivity).
    rewrite (js_sort_stable _ _ _ Hcmp); auto.
    apply filter_ext. intro; cbv beta; rewrite req_opp; reflexivity.
Qed.

Lemma sortByRelevance_sorted_witness :
  Permutation (sortByRelevance sort_rows "s") sort_rows /\
  Sorted (fun a b => sort_rank b <= sort_rank a) (sortByRelevance sort_rows "s") /\
  forall v, filter (fun e => req (sort_rank e) v) (sortByRelevance sort_rows "s") =
            filter (fun e => req (sort_rank e) v) sort_rows.
Proof.
  apply (sortByRelevance_sorted sort_rows "s" sort_rank).
  intros e He. repeat destruct He as [<-|He]; [reflexivity..|destruct He].
Defined.

End SortRelevanceFacts.

Module HybridSearchFacts.
Import Js JsSort HybridSearch JsSortFacts.

Lemma le_fin a b : le (Fin a) (Fin b) = true <-> a <= b.
Proof.
  unfold le, lt, rlt. destruct (Rlt_dec b a); simpl; split; intro; try discriminate; lra.
Qed.

Lemma keep_vec_rows_fold fts thr vr acc r :
  In r (fold_left
    (fun results row =>
       if le (Fin (snd row)) (Fin (thr * 1.5)%R)
       then app results
              [mk_hrow (fst row) (snd row)
                 (if fts_has fts (fst row) then (snd row * 0.3)%R else snd row)]
       else results) vr acc) <->
  In r acc \/ exists id d, In (id, d) vr /\ d <= thr * 1.5 /\
    r = mk_hrow id d (if fts_has fts id then (d * 0.3)%R else d).
Proof.
  revert acc; induction vr as [|[id d] vr IH]; intro acc; cbn [fold_left fst snd In].
  - split; [auto|]. intros [H|(id & d & [] & _)]; exact H.
  - rewrite IH. destruct (le (Fin d) (Fin (thr * 1.5))) eqn:E.
    + apply le_fin in E. rewrite in_app_iff. split.
      * intros [[H|[<-|[]]]|(id' & d' & H1 & H2 & H3)]; auto.
        -- right. exists id, d. auto.
        -- right. exists id', d'. auto.
      * intros [H|(id' & d' & [H1|H1] & H2 & H3)]; auto.
        -- injection H1 as E1 E2; subst id' d'. left; right; left; auto.
        -- right. exists id', d'. auto.
    + split.
      * intros [H|(id' & d' & H1 & H2 & H3)]; auto. right. exists id', d'. auto.
      * intros [H|(id' & d' & [H1|H1] & H2 & H3)]; auto.
        -- injection H1 as E1 E2; subst id' d'. exfalso.
           assert (le (Fin d) (Fin (thr * 1.5)) = true) by (apply le_fin; exact H2).
           congruence.
        -- right. exists id', d'. auto.
Qed.

Lemma keep_vec_rows_in fts thr vr r :
  In r (keep_vec_rows fts thr vr) <->
  exists id d, In (id, d) vr /\ d <= thr * 1.5 /\
    r = mk_hrow id d (if fts_has fts id then (d * 0.3)%R else d).
Proof.
  unfold keep_vec_rows. rewrite keep_vec_rows_fold. split; [intros [[]|H]; exact H | auto].
Qed.

Lemma add_fts_rows_fold thr fts acc r :
  In r (fold_left
    (fun results id =>
       match find (fun row => Nat.eqb (h_entity_id row) id) results with
       | Some _ => results
       | None => app results [mk_hrow id (thr * 0.5)%R (thr * 0.5)%R]
       end) fts acc) ->
  In r acc \/ exists id, In id fts /\ r = mk_hrow id (thr * 0.5)%R (thr * 0.5)%R /\
    forall r', In r' acc -> h_entity_id r' <> id.
Proof.
  revert acc; induction fts as [|id fts IH]; intros acc H; simpl in H; [auto|].
  destruct (find (fun row => Nat.eqb (h_entity_id row) id) acc) eqn:F.
  - destruct (IH acc H) as [H'|(id' & H1 & H2 & H3)]; auto.
    right. exists id'. simpl; auto.
  - destruct (IH _ H) as [H'|(id' & H1 & H2 & H3)].
    + apply in_app_iff in H' as [H'|[<-|[]]]; auto.
      right. exists id. split; [simpl; auto|]. split; [reflexivity|].
      intros r' Hr' E. apply (find_none _ _ F) in Hr'. apply Nat.eqb_neq in Hr'. auto.
    + right. exists id'. split; [simpl; auto|]. split; [exact H2|].
      intros r' Hr'. apply H3. apply in_app_iff; auto.
Qed.

Lemma hybrid_sort_perm (rows : list hybrid_row) :
  Permutation (js_sort (fun a b => sub (Fin (h_score a)) (Fin (h_score b))) rows) rows.
Proof. apply js_sort_perm. Qed.

Lemma hybridSearch_row_cases fts vecAll topK thr r :
  In r (hybridSearch fts vecAll topK thr) ->
  (exists d, In (h_entity_id r, d) (firstn (topK * 2) vecAll) /\ d <= thr * 1.5 /\
     h_distance r = d /\
     h_score r = (if fts_has fts (h_entity_id r) then (d * 0.3)%R else d)) \/
  (In (h_entity_id r) fts /\ h_distance r = (thr * 0.5)%R /\ h_score r = (thr * 0.5)%R /\
     forall d, In (h_entity_id r, d) (firstn (topK * 2) vecAll) -> thr * 1.5 < d).
Proof.
  unfold hybridSearch; cbv zeta.
  set (cmp := fun a b : hybrid_row => sub (Fin (h_score a)) (Fin (h_score b))).
  set (rows := add_fts_rows thr fts (keep_vec_rows fts thr (firstn (topK * 2) vecAll))).
  intros Hr. apply in_firstn_in in Hr.
  apply (Permutation_in _ (js_sort_perm cmp rows)) in Hr.
  unfold rows, add_fts_rows in Hr. apply add_fts_rows_fold in Hr.
  destruct Hr as [Hr|(id & Hid & -> & Hno)].
  - left. apply keep_vec_rows_in in Hr as (id & d & H1 & H2 & ->). simpl.
    exists d. auto.
  - right. simpl. split; [exact Hid|]. split; [reflexivity|]. split; [reflexivity|].
    intros d Hd. destruct (Rlt_dec (thr * 1.5) d) as [Hlt|Hge]; [exact Hlt|].
    exfalso. apply (Hno (mk_hrow id d (if fts_has fts id then (d * 0.3)%R else d)));
      [|reflexivity].
    apply keep_vec_rows_in. exists id, d. split; [exact Hd|]. split; [lra|reflexivity].
Qed.

(** Extra X6: [hybridSearch] returns at most [topK] rows in non-decreasing score
    order; each row is either a vector row among the first [2 * topK] nearest
    ones with distance at most [1.5 * adjustedThreshold], scored
    [0.3 * distance] if its entity is an FTS match and [distance] otherwise,
    or an FTS match none of whose retrieved vector rows passed, given distance
    and score [0.5 * adjustedThreshold]. *)
Theorem hybridSearch_rows fts vecAll topK thr :
  (List.length (hybridSearch fts vecAll topK thr) <= topK)%nat /\
  Sorted (fun a b => h_score a <= h_score b) (hybridSearch fts vecAll topK thr) /\
  forall r, In r (hybridSearch fts vecAll topK thr) ->
    (exists d, In (h_entity_id r, d) (firstn (topK * 2) vecAll) /\ d <= thr * 1.5 /\
       h_distance r = d /\
       h_score r = (if fts_has fts (h_entity_id r) then (d * 0.3)%R else d)) \/
    (In (h_entity_id r) fts /\ h_distance r = (thr * 0.5)%R /\ h_score r = (thr * 0.5)%R /\
       forall d, In (h_entity_id r, d) (firstn (topK * 2) vecAll) -> thr * 1.5 < d).
Proof.
  split; [unfold hybridSearch; apply firstn_le_length|]. split.
  - unfold hybridSearch; cbv zeta.
    set (cmp := fun a b : hybrid_row => sub (Fin (h_score a)) (Fin (h_score b))).
    set (rows := add_fts_rows thr fts (keep_vec_rows fts thr (firstn (topK * 2) vecAll))).
    assert (Hcmp : forall a b, In a rows -> In b rows -> cmp a b = Fin (h_score a - h_score b))
      by reflexivity.
    assert (Hs := js_sort_sorted cmp h_score rows Hcmp rows (fun y H => H)).
    revert Hs. generalize (js_sort cmp rows). intros l Hs.
    revert Hs; generalize topK; induction l as [|a l IH]; intros [|t] Hs; simpl; auto.
    apply Sorted_inv in Hs as [Hs Hd]. constructor; [apply IH; auto|].
    destruct l as [|b l]; destruct t; simpl; constructor. inversion Hd; auto.
  - apply hybridSearch_row_cases.
Qed.

(** Extra X7: in hybrid mode [searchNodes] selects at most [topK] entity ids
    for scoring, each one
    with a retrieved vector row within [threshold] or an FTS match without
    a retrieved vector row within [1.5 * threshold] (then only for a
    non-negative threshold); an FTS match whose retrieved vector rows all
    lie beyond [threshold], one of them within [1.5 * threshold], is never
    selected. *)
Theorem searchNodes_hybrid_ids_cases fts vecAll topK thr :
  let V := firstn (Nat.max (topK * 3) (topK + 10) * 2) vecAll in
  (List.length (searchNodes_hybrid_ids fts vecAll topK thr) <= topK)%nat /\
  (forall id, In id (searchNodes_hybrid_ids fts vecAll topK thr) ->
     (exists d, In (id, d) V /\ d <= thr) \/
     (In id fts /\ 0 <= thr /\ forall d, In (id, d) V -> thr * 1.5 < d)) /\
  (forall id, (forall d, In (id, d) V -> thr < d) -> (exists d, In (id, d) V /\ d <= thr * 1.5) ->
     ~ In id (searchNodes_hybrid_ids fts vecAll topK thr)).
Proof.
  intro V.
  assert (Hin : forall id, In id (searchNodes_hybrid_ids fts vecAll topK thr) ->
     (exists d, In (id, d) V /\ d <= thr) \/
     (In id fts /\ 0 <= thr /\ forall d, In (id, d) V -> thr * 1.5 < d)).
  { intros id H. unfold searchNodes_hybrid_ids in H; cbv zeta in H.
    apply in_map_iff in H as (r & <- & Hr). apply in_firstn_in in Hr.
    apply filter_In in Hr as [Hr Hle]. apply le_fin in Hle.
    destruct (hybridSearch_row_cases _ _ _ _ _ Hr) as [(d & H1 & H2 & H3 & H4)|(H1 & H2 & H3 & H4)].
    - left. exists d. split; [exact H1|]. lra.
    - right. split; [exact H1|]. split; [lra|exact H4]. }
  split; [|split; [exact Hin|]].
  - unfold searchNodes_hybrid_ids. rewrite length_map. apply firstn_le_length.
  - intros id Hfar (d & Hd & Hd') Hid.
    destruct (Hin id Hid) as [(d0 & H0 & H0')|(_ & _ & H4)].
    + specialize (Hfar d0 H0). lra.
    + specialize (H4 d Hd). lra.
Qed.

End HybridSearchFacts.

Module MergeResultsFacts.
Import Js MergeResults MergeSpec ExtraExamples.

Lemma num_svz_sym a b : num_same_value_zero a b = num_same_value_zero b a.
Proof.
  destruct a, b; simpl; auto. unfold req.
  destruct (Req_dec_T r r0), (Req_dec_T r0 r); auto; exfalso; auto.
Qed.

Lemma num_svz_trans a b c :
  num_same_value_zero a b = true -> num_same_value_zero b c = true ->
  num_same_value_zero a c = true.
Proof.
  destruct a, b, c; simpl; try discriminate; auto. unfold req.
  destruct (Req_dec_T r r0), (Req_dec_T r0 r1), (Req_dec_T r r1); auto; congruence.
Qed.

Lemma svz_sym a b : same_value_zero a b = same_value_zero b a.
Proof.
  destruct a, b; simpl; auto.
  - destruct b, b0; reflexivity.
  - apply num_svz_sym.
  - apply String.eqb_sym.
Qed.

Lemma svz_trans a b c :
  same_value_zero a b = true -> same_value_zero b c = true -> same_value_zero a c = true.
Proof.
  destruct a, b, c; simpl; try discriminate; auto.
  - destruct b, b0, b1; simpl; congruence.
  - apply num_svz_trans.
  - intros H1 H2. apply String.eqb_eq in H1, H2. subst. apply String.eqb_refl.
Qed.

Lemma svz_refl a : is_primitive a = true -> same_value_zero a a = true.
Proof.
  destruct a; simpl; try discriminate; auto.
  - destruct b; reflexivity.
  - destruct n; simpl; auto. unfold req. destruct (Req_dec_T r r); congruence.
  - intros _. apply String.eqb_refl.
Qed.

Lemma svz_congr a b c :
  same_value_zero a b = true -> same_value_zero a c = same_value_zero b c.
Proof.
  intros Hab. destruct (same_value_zero a c) eqn:Ea, (same_value_zero b c) eqn:Eb; auto.
  - rewrite svz_sym in Hab. rewrite (svz_trans _ _ _ Hab Ea) in Eb. discriminate.
  - rewrite (svz_trans _ _ _ Hab Eb) in Ea. discriminate.
Qed.

Lemma map_get_compat a b m :
  same_value_zero a b = true -> map_get a m = map_get b m.
Proof.
  intro H; induction m as [|[k v] m IH]; simpl; auto.
  rewrite (svz_congr _ _ k H). destruct (same_value_zero b k); auto.
Qed.

Lemma map_get_set k k' v m :
  map_get k (map_set k' v m) = if same_value_zero k k' then Some v else map_get k m.
Proof.
  induction m as [|[k2 v2] m IH]; simpl.
  - destruct (same_value_zero k k'); reflexivity.
  - destruct (same_value_zero k' k2) eqn:E'; simpl.
    + destruct (same_value_zero k k') eqn:E.
      * rewrite (svz_trans _ _ _ E E'). reflexivity.
      * destruct (same_value_zero k k2) eqn:E2; auto.
        rewrite svz_sym in E'. rewrite (svz_trans _ _ _ E2 E') in E. discriminate.
    + rewrite IH. destruct (same_value_zero k k') eqn:E, (same_value_zero k k2) eqn:E2; auto.
      rewrite svz_sym in E. rewrite (svz_trans _ _ _ E E2) in E'. discriminate.
Qed.

Lemma map_get_in k m e :
  map_get k m = Some e -> exists k2, In (k2, e) m /\ same_value_zero k k2 = true.
Proof.
  induction m as [|[k2 v2] m IH]; simpl; [discriminate|].
  destruct (same_value_zero k k2) eqn:E.
  - intros [= ->]. exists k2; auto.
  - intro H. destruct (IH H) as (k3 & H1 & H2). exists k3; auto.
Qed.

Lemma map_set_keys k v m :
  map fst (map_set k v m) = map fst m \/
  (map fst (map_set k v m) = app (map fst m) [k] /\
   forall e, In e m -> same_value_zero k (fst e) = false).
Proof.
  induction m as [|[k2 v2] m IH]; simpl.
  - right. split; [reflexivity | intros e []].
  - destruct (same_value_zero k k2) eqn:E; simpl; [left; reflexivity|].
    destruct IH as [H|[H1 H2]]; [left; rewrite H; reflexivity|].
    right. rewrite H1. split; [reflexivity|]. intros e [<-|He]; auto.
Qed.

Lemma map_set_forall (P : value * merged -> Prop) k v m :
  Forall P m -> (map_get k m = None -> P (k, v)) ->
  (forall k2 e, In (k2, e) m -> map_get k m = Some e -> P (k2, v)) ->
  Forall P (map_set k v m).
Proof.
  induction m as [|[k2 v2] m IH]; intros Hall Hnew Hold; simpl.
  - constructor; [apply Hnew; reflexivity | constructor].
  - simpl in Hnew, Hold. inversion Hall as [|? ? Hp Hm]; subst.
    destruct (same_value_zero k k2) eqn:E.
    + constructor; [apply (Hold k2 v2); auto | exact Hm].
    + constructor; [exact Hp|]. apply IH; auto.
      intros k3 e Hin Hg. apply (Hold k3 e); auto.
Qed.

Lemma FOP_snoc {A} (R : A -> A -> Prop) l x :
  ForallOrdPairs R l -> Forall (fun a => R a x) l -> ForallOrdPairs R (app l [x]).
Proof.
  induction 1 as [|a l Ha Hl IH]; intro Hx; simpl.
  - constructor; [constructor | constructor].
  - inversion Hx; subst. constructor; [|apply IH; auto].
    apply Forall_app; split; auto.
Qed.

Lemma FOP_map {A B C} (f : A -> B) (g : A -> C) (h : C -> B) (R : B -> B -> Prop) l :
  ForallOrdPairs R (map f l) -> (forall x, In x l -> h (g x) = f x) ->
  ForallOrdPairs (fun a b => R (h a) (h b)) (map g l).
Proof.
  induction l as [|a l IH]; simpl; intros H Hfg; constructor; inversion H; subst.
  - apply Forall_map. rewrite Forall_map in *. rewrite Forall_forall in *.
    intros x Hx. rewrite Hfg, (Hfg x); auto.
  - apply IH; auto.
Qed.

Lemma map_set_ok k v m :
  map_ok m -> is_primitive k = true ->
  (map_get k m = None -> k = result_key (m_result v)) ->
  (forall e, map_get k m = Some e -> m_result v = m_result e) ->
  map_ok (map_set k v m).
Proof.
  intros [Hd Hk] Hp Hnew Hold. split.
  - destruct (map_set_keys k v m) as [H|[H1 H2]]; rewrite ?H, ?H1; auto.
    apply FOP_snoc; auto. apply Forall_forall. intros a Ha.
    apply in_map_iff in Ha as (e & <- & He). rewrite svz_sym. auto.
  - apply map_set_forall; [exact Hk | intro Hg; cbn; auto |].
    intros k2 e Hin Hg. cbn. rewrite (Hold e Hg).
    rewrite Forall_forall in Hk. exact (Hk _ Hin).
Qed.


Lemma keyword_fold_ok kw m :
  map_ok m -> (forall r, In r kw -> is_primitive (result_key (res_value r)) = true) ->
  map_ok (fold_left keyword_step kw m).
Proof.
  revert m; induction kw as [|r kw IH]; intros m Hm Hp; simpl; auto.
  apply IH; [|intros; apply Hp; simpl; auto].
  unfold keyword_step. destruct (map_get _ m) eqn:E; auto.
  apply map_set_ok; auto; [apply Hp; simpl; auto | intros e He; congruence].
Qed.

Lemma semantic_fold_ok sem sem' m :
  map_ok m -> (forall r, In r sem' -> is_primitive (result_key (res_value r)) = true) ->
  map_ok (fold_left (semantic_step sem) sem' m).
Proof.
  revert m; induction sem' as [|r sem' IH]; intros m Hm Hp; simpl; auto.
  apply IH; [|intros; apply Hp; simpl; auto].
  unfold semantic_step. destruct (map_get _ m) eqn:E.
  - apply map_set_ok; auto; [apply Hp; simpl; auto | intros; congruence | ].
    intros e He. rewrite E in He. injection He as ->. reflexivity.
  - apply map_set_ok; auto; [apply Hp; simpl; auto | intros e He; congruence].
Qed.

Lemma keyword_fold_some k kw m e :
  map_get k m = Some e -> map_get k (fold_left keyword_step kw m) = Some e.
Proof.
  revert m; induction kw as [|r kw IH]; intros m H; simpl; auto.
  apply IH. unfold keyword_step.
  destruct (map_get (result_key (res_value r)) m) eqn:E; auto.
  rewrite map_get_set. destruct (same_value_zero k (result_key (res_value r))) eqn:S; auto.
  rewrite (map_get_compat _ _ m S) in H. congruence.
Qed.

Lemma keyword_fold_none k kw m :
  map_get k m = None ->
  match find (fun r => same_value_zero k (result_key (res_value r))) kw with
  | None => map_get k (fold_left keyword_step kw m) = None
  | Some r => exists e, map_get k (fold_left keyword_step kw m) = Some e /\
      m_result e = res_value r /\ searchMethods e = ["keyword"] /\ hybridBoost e = None /\
      keywordRank e <> None
  end.
Proof.
  revert m; induction kw as [|r kw IH]; intros m H; simpl; auto.
  destruct (same_value_zero k (result_key (res_value r))) eqn:S.
  - unfold keyword_step at 2.
    rewrite <- (map_get_compat _ _ m S), H.
    eexists; split; [apply keyword_fold_some; rewrite map_get_set, S; reflexivity|].
    cbn. split; [reflexivity|]. split; [reflexivity|]. split; [reflexivity|]. discriminate.
  - apply IH. unfold keyword_step.
    destruct (map_get (result_key (res_value r)) m); auto.
    rewrite map_get_set, S. exact H.
Qed.




Lemma semantic_fold_get k sem sem' m :
  map_get k (fold_left (semantic_step sem) sem' m) =
  fold_left (sem_update sem k) sem' (map_get k m).
Proof.
  revert m; induction sem' as [|r sem' IH]; intro m; simpl; auto.
  rewrite IH. f_equal. unfold semantic_step, sem_update.
  destruct (same_value_zero k (result_key (res_value r))) eqn:S.
  - rewrite <- (map_get_compat _ _ m S).
    destruct (map_get k m); rewrite map_get_set, S; reflexivity.
  - destruct (map_get (result_key (res_value r)) m); rewrite map_get_set, S; reflexivity.
Qed.

Lemma sem_update_eq sem k o r :
  sem_update sem k o r =
  if same_value_zero k (result_key (res_value r)) then
    Some (match o with
          | Some e => mk_merged (m_result e) (app (searchMethods e) ["semantic"])
                        (keywordRank e) (Some (indexOf sem r)) (Some (Fin 1.2))
          | None => mk_merged (res_value r) ["semantic"] None (Some (indexOf sem r)) None
          end)
  else o.
Proof. reflexivity. Qed.

Lemma sem_update_some sem k sem' e :
  exists e', fold_left (sem_update sem k) sem' (Some e) = Some e' /\
    m_result e' = m_result e /\
    searchMethods e' =
      app (searchMethods e)
        (List.repeat "semantic"
           (List.length (filter (fun r => same_value_zero k (result_key (res_value r))) sem'))) /\
    hybridBoost e' =
      (if Nat.eqb (List.length (filter (fun r => same_value_zero k (result_key (res_value r))) sem')) 0
       then hybridBoost e else Some (Fin 1.2)).
Proof.
  revert e; induction sem' as [|r sem' IH]; intro e; simpl.
  - exists e. rewrite app_nil_r. auto.
  - rewrite sem_update_eq. destruct (same_value_zero k (result_key (res_value r))) eqn:S.
    + destruct (IH (mk_merged (m_result e) (app (searchMethods e) ["semantic"])
                 (keywordRank e) (Some (indexOf sem r)) (Some (Fin 1.2))))
        as (e' & H1 & H2 & H3 & H4).
      exists e'. split; [exact H1|]. split; [exact H2|]. split.
      * rewrite H3. simpl. rewrite <- app_assoc. reflexivity.
      * rewrite H4. simpl. destruct (Nat.eqb _ 0); reflexivity.
    + apply IH.
Qed.

Lemma sem_update_none sem k sem' :
  match find (fun r => same_value_zero k (result_key (res_value r))) sem' with
  | None => fold_left (sem_update sem k) sem' None = None
  | Some r => exists e', fold_left (sem_update sem k) sem' None = Some e' /\
      m_result e' = res_value r /\
      searchMethods e' =
        List.repeat "semantic"
          (List.length (filter (fun r => same_value_zero k (result_key (res_value r))) sem')) /\
      hybridBoost e' =
        (if Nat.leb (List.length (filter (fun r => same_value_zero k (result_key (res_value r))) sem')) 1
         then None else Some (Fin 1.2))
  end.
Proof.
  induction sem' as [|r sem' IH]; simpl; auto.
  rewrite sem_update_eq. destruct (same_value_zero k (result_key (res_value r))) eqn:S.
  - destruct (sem_update_some sem k sem'
                (mk_merged (res_value r) ["semantic"] None (Some (indexOf sem r)) None))
      as (e' & H1 & H2 & H3 & H4).
    exists e'. split; [exact H1|]. split; [exact H2|]. split.
    + rewrite H3. reflexivity.
    + rewrite H4. simpl. destruct (List.length _); reflexivity.
  - exact IH.
Qed.


Lemma find_app' {A} (f : A -> bool) l1 l2 :
  find f (app l1 l2) = match find f l1 with Some x => Some x | None => find f l2 end.
Proof. induction l1 as [|a l1 IH]; simpl; auto. destruct (f a); auto. Qed.

Lemma merged_map_get k kw sem :
  match find (fun r => same_value_zero k (result_key (res_value r))) (app kw sem) with
  | None => map_get k (merged_map kw sem) = None
  | Some r => exists e, map_get k (merged_map kw sem) = Some e /\ m_result e = res_value r /\
      searchMethods e =
        app (if existsb (fun r => same_value_zero k (result_key (res_value r))) kw
             then ["keyword"] else [])
          (List.repeat "semantic"
             (List.length (filter (fun r => same_value_zero k (result_key (res_value r))) sem))) /\
      hybridBoost e =
        (if Nat.leb 2 (List.length (searchMethods e)) then Some (Fin 1.2) else None)
  end.
Proof.
  unfold merged_map. rewrite semantic_fold_get.
  pose proof (keyword_fold_none k kw [] eq_refl) as Hk.
  rewrite find_app'.
  destruct (find (fun r => same_value_zero k (result_key (res_value r))) kw) as [r|] eqn:F.
  - destruct Hk as (e0 & H1 & H2 & H3 & H4 & _). rewrite H1.
    destruct (sem_update_some sem k sem e0) as (e & G1 & G2 & G3 & G4).
    exists e. rewrite G1. split; [reflexivity|]. split; [congruence|].
    assert (Hex : existsb (fun r => same_value_zero k (result_key (res_value r))) kw = true).
    { apply existsb_exists. apply find_some in F as [F1 F2]. exists r; auto. }
    rewrite Hex. split; [rewrite G3, H3; reflexivity|].
    rewrite G4, G3, H3, H4. simpl. rewrite List.repeat_length.
    destruct (List.length _); reflexivity.
  - rewrite Hk.
    assert (Hex : existsb (fun r => same_value_zero k (result_key (res_value r))) kw = false).
    { apply Bool.not_true_iff_false. intro H. apply existsb_exists in H as (r & Hr & Hs).
      apply (find_none _ _ F) in Hr. congruence. }
    rewrite Hex. pose proof (sem_update_none sem k sem) as Hs.
    destruct (find _ sem) as [r|]; [|exact Hs].
    destruct Hs as (e & G1 & G2 & G3 & G4). exists e.
    split; [exact G1|]. split; [exact G2|]. split; [exact G3|].
    rewrite G4, G3, List.repeat_length.
    destruct (List.length _) as [|[|c]]; reflexivity.
Qed.

Lemma merged_map_ok kw sem :
  (forall r, In r (app kw sem) -> is_primitive (result_key (res_value r)) = true) ->
  map_ok (merged_map kw sem).
Proof.
  intro Hprim. unfold merged_map. apply semantic_fold_ok; [apply keyword_fold_ok|].
  - split; constructor.
  - intros r Hr; apply Hprim, in_app_iff; auto.
  - intros r Hr; apply Hprim, in_app_iff; auto.
Qed.

Lemma map_ok_get m : map_ok m -> forall k2 e, In (k2, e) m -> map_get k2 m = Some e.
Proof.
  intros [Hd Hk]. revert Hd Hk.
  induction m as [|[k3 e3] m IH]; intros Hd Hk k2 e Hin; [destruct Hin|].
  simpl in Hd. inversion Hd as [|? ? Hfirst Hrest]; subst.
  inversion Hk as [|? ? [Hk3 Hp3] Hk']; subst. simpl.
  destruct Hin as [[= <- <-]|Hin].
  - simpl in Hp3. rewrite (svz_refl _ Hp3). reflexivity.
  - destruct (same_value_zero k2 k3) eqn:S.
    + exfalso. rewrite Forall_forall in Hfirst.
      rewrite svz_sym in S. rewrite (Hfirst k2) in S; [discriminate|].
      apply in_map_iff. exists (k2, e); auto.
    + apply IH; auto.
Qed.

(** Extra X8: when every key [entity_id || id] is a primitive value,
    [mergeAndScoreResults] returns one entry per distinct key (keys compared
    by SameValueZero), built from the first result with that key; its
    [searchMethods] is ['keyword'] if the key occurs among the keyword
    results, followed by 'semantic' once per semantic result with that key,
    and [hybridBoost] is set to 1.2 exactly when [searchMethods] has at least
    two entries, so also for a key repeated among the semantic results only. *)
Theorem mergeAndScoreResults_entries kw sem
  (Hprim : forall r, In r (app kw sem) -> is_primitive (result_key (res_value r)) = true) :
  ForallOrdPairs
    (fun a b => same_value_zero (result_key (m_result a)) (result_key (m_result b)) = false)
    (mergeAndScoreResults kw sem) /\
  (forall r, In r (app kw sem) -> exists e, In e (mergeAndScoreResults kw sem) /\
     same_value_zero (result_key (res_value r)) (result_key (m_result e)) = true) /\
  (forall e, In e (mergeAndScoreResults kw sem) ->
     let k := result_key (m_result e) in
     (exists r, find (fun r => same_value_zero k (result_key (res_value r))) (app kw sem) = Some r /\
        m_result e = res_value r) /\
     searchMethods e =
       app (if existsb (fun r => same_value_zero k (result_key (res_value r))) kw
            then ["keyword"] else [])
         (List.repeat "semantic"
            (List.length (filter (fun r => same_value_zero k (result_key (res_value r))) sem))) /\
     hybridBoost e =
       (if Nat.leb 2 (List.length (searchMethods e)) then Some (Fin 1.2) else None)).
Proof.
  destruct (merged_map_ok kw sem Hprim) as [Hd Hk].
  pose proof (map_ok_get _ (merged_map_ok kw sem Hprim)) as Hget.
  unfold mergeAndScoreResults. split; [|split].
  - apply (FOP_map fst snd (fun e => result_key (m_result e)) _ _ Hd).
    intros [k2 e] Hin. rewrite Forall_forall in Hk. destruct (Hk _ Hin) as [H _]. simpl in *.
    congruence.
  - intros r Hr. pose proof (merged_map_get (result_key (res_value r)) kw sem) as G.
    destruct (find _ (app kw sem)) as [r'|] eqn:F.
    + destruct G as (e & G1 & _). apply map_get_in in G1 as (k2 & H1 & H2).
      exists e. split; [apply in_map_iff; exists (k2, e); auto|].
      rewrite Forall_forall in Hk. destruct (Hk _ H1) as [H3 _]. simpl in H3.
      rewrite <- H3. exact H2.
    + exfalso. pose proof (find_none _ _ F r Hr) as Hn. cbv beta in Hn.
      rewrite svz_refl in Hn; [discriminate|]. apply Hprim; exact Hr.
  - intros e He. apply in_map_iff in He as ([k2 e'] & Hs & Hin). simpl in Hs; subst e'.
    rewrite Forall_forall in Hk. destruct (Hk _ Hin) as [H3 _]. simpl in H3.
    cbv zeta. rewrite <- H3.
    pose proof (merged_map_get k2 kw sem) as G. rewrite (Hget _ _ Hin) in G.
    destruct (find _ (app kw sem)) as [r|]; [|discriminate].
    destruct G as (e' & [= <-] & G2 & G3 & G4).
    split; [exists r; auto|]. auto.
Qed.

Lemma mergeAndScoreResults_entries_witness :
  ForallOrdPairs
    (fun a b => same_value_zero (result_key (m_result a)) (result_key (m_result b)) = false)
    (mergeAndScoreResults merge_kw merge_sem) /\
  (forall r, In r (app merge_kw merge_sem) -> exists e, In e (mergeAndScoreResults merge_kw merge_sem) /\
     same_value_zero (result_key (res_value r)) (result_key (m_result e)) = true) /\
  (forall e, In e (mergeAndScoreResults merge_kw merge_sem) ->
     let k := result_key (m_result e) in
     (exists r, find (fun r => same_value_zero k (result_key (res_value r))) (app merge_kw merge_sem) = Some r /\
        m_result e = res_value r) /\
     searchMethods e =
       app (if existsb (fun r => same_value_zero k (result_key (res_value r))) merge_kw
            then ["keyword"] else [])
         (List.repeat "semantic"
            (List.length (filter (fun r => same_value_zero k (result_key (res_value r))) merge_sem))) /\
     hybridBoost e =
       (if Nat.leb 2 (List.length (searchMethods e)) then Some (Fin 1.2) else None)).
Proof.
  apply (mergeAndScoreResults_entries merge_kw merge_sem).
  intros r Hr. repeat destruct Hr as [<-|Hr]; [reflexivity..|destruct Hr].
Defined.


Lemma sem_update_some_rank sem k sem' e :
  exists e', fold_left (sem_update sem k) sem' (Some e) = Some e' /\ keywordRank e' = keywordRank e.
Proof.
  revert e; induction sem' as [|r sem' IH]; intro e; simpl; [eauto|].
  rewrite sem_update_eq. destruct (same_value_zero k (result_key (res_value r))).
  - destruct (IH (mk_merged (m_result e) (app (searchMethods e) ["semantic"])
                 (keywordRank e) (Some (indexOf sem r)) (Some (Fin 1.2)))) as (e' & H1 & H2).
    exists e'. auto.
  - apply IH.
Qed.

Lemma sem_update_none_rank sem k sem' e :
  fold_left (sem_update sem k) sem' None = Some e -> keywordRank e = None.
Proof.
  induction sem' as [|r sem' IH]; simpl; [discriminate|].
  rewrite sem_update_eq. destruct (same_value_zero k (result_key (res_value r))); [|exact IH].
  intro H.
  destruct (sem_update_some_rank sem k sem'
              (mk_merged (res_value r) ["semantic"] None (Some (indexOf sem r)) None))
    as (e' & H1 & H2).
  rewrite H1 in H. injection H as <-. exact H2.
Qed.

Lemma merged_map_rank k kw sem e :
  map_get k (merged_map kw sem) = Some e ->
  (keywordRank e <> None <->
   existsb (fun r => same_value_zero k (result_key (res_value r))) kw = true).
Proof.
  unfold merged_map. rewrite semantic_fold_get.
  pose proof (keyword_fold_none k kw [] eq_refl) as Hk.
  destruct (find (fun r => same_value_zero k (result_key (res_value r))) kw) as [r|] eqn:F.
  - destruct Hk as (e0 & H1 & _ & _ & _ & H5). rewrite H1.
    destruct (sem_update_some_rank sem k sem e0) as (e' & G1 & G2).
    rewrite G1. intros [= <-]. rewrite G2. split; [|auto]. intros _.
    apply existsb_exists. apply find_some in F as [F1 F2]. exists r; auto.
  - rewrite Hk. intro H. apply sem_update_none_rank in H. rewrite H. split; [tauto|].
    intro Hex. apply existsb_exists in Hex as (r & Hr & Hs).
    apply (find_none _ _ F) in Hr. congruence.
Qed.

Lemma map_set_nth k v m i x :
  nth_error (map_set k v m) i = Some x ->
  nth_error m i = Some x \/
  (snd x = v /\
   ((map_get k m = None /\ i = List.length m /\ fst x = k) \/
    (exists y, nth_error m i = Some y /\ fst y = fst x /\ map_get k m = Some (snd y)))).
Proof.
  revert i; induction m as [|[k2 v2] m IH]; intros i H; simpl in H.
  - destruct i as [|[|i]]; simpl in H; try discriminate. injection H as <-.
    right. simpl. auto.
  - destruct (same_value_zero k k2) eqn:S.
    + destruct i as [|i]; simpl in H.
      * injection H as <-. right. split; [reflexivity|]. right.
        exists (k2, v2). simpl. rewrite S. auto.
      * left. exact H.
    + destruct i as [|i]; simpl in H.
      * left. exact H.
      * destruct (IH i H) as [H'|[Hv [(H1 & H2 & H3)|(y & H1 & H2 & H3)]]].
        -- left. exact H'.
        -- right. split; [exact Hv|]. left. simpl. rewrite S. auto.
        -- right. split; [exact Hv|]. right. exists y. simpl. rewrite S. auto.
Qed.

Lemma keyword_fold_rank kw m :
  (forall i x, nth_error m i = Some x -> keywordRank (snd x) = Some (Fin (INR i))) ->
  forall i x, nth_error (fold_left keyword_step kw m) i = Some x ->
    keywordRank (snd x) = Some (Fin (INR i)).
Proof.
  revert m; induction kw as [|r kw IH]; intros m Hm; simpl; auto.
  apply IH. unfold keyword_step.
  destruct (map_get (result_key (res_value r)) m) eqn:E; auto.
  intros i x Hx. apply map_set_nth in Hx as [Hx|[Hv [(H1 & H2 & H3)|(y & H1 & H2 & H3)]]].
  - auto.
  - rewrite Hv, H2. reflexivity.
  - congruence.
Qed.

Lemma semantic_fold_rank sem sem' m :
  (forall i x, nth_error m i = Some x ->
     keywordRank (snd x) = None \/ keywordRank (snd x) = Some (Fin (INR i))) ->
  forall i x, nth_error (fold_left (semantic_step sem) sem' m) i = Some x ->
    keywordRank (snd x) = None \/ keywordRank (snd x) = Some (Fin (INR i)).
Proof.
  revert m; induction sem' as [|r sem' IH]; intros m Hm; simpl; auto.
  apply IH. unfold semantic_step.
  intros i x Hx.
  destruct (map_get (result_key (res_value r)) m) as [ex|] eqn:E;
    apply map_set_nth in Hx as [Hx|[Hv [(H1 & H2 & H3)|(y & H1 & H2 & H3)]]]; auto.
  - congruence.
  - rewrite Hv. simpl. rewrite E in H3. injection H3 as Hy. rewrite Hy. exact (Hm i y H1).
  - rewrite Hv. auto.
  - rewrite Hv. auto.
Qed.

(** Extra X9: when every key [entity_id || id] is a primitive value, the
    [keywordRank] of each entry of [mergeAndScoreResults] is its index in the
    returned array if its key occurs among the keyword results, and is not
    set otherwise. *)
Theorem mergeAndScoreResults_keywordRank kw sem
  (Hprim : forall r, In r (app kw sem) -> is_primitive (result_key (res_value r)) = true) :
  forall i e, nth_error (mergeAndScoreResults kw sem) i = Some e ->
    keywordRank e =
      (if existsb (fun r => same_value_zero (result_key (m_result e)) (result_key (res_value r))) kw
       then Some (Fin (INR i)) else None).
Proof.
  destruct (merged_map_ok kw sem Hprim) as [Hd Hk].
  pose proof (map_ok_get _ (merged_map_ok kw sem Hprim)) as Hget.
  intros i e He. unfold mergeAndScoreResults in He. rewrite nth_error_map in He.
  destruct (nth_error (merged_map kw sem) i) as [[k2 e']|] eqn:N; [|discriminate].
  injection He as <-.
  assert (Hin : In (k2, e') (merged_map kw sem)) by (eapply nth_error_In; exact N).
  rewrite Forall_forall in Hk. destruct (Hk _ Hin) as [H3 _]. simpl in H3. rewrite <- H3.
  pose proof (merged_map_rank k2 kw sem e' (Hget _ _ Hin)) as Hr.
  assert (Hpos : keywordRank e' = None \/ keywordRank e' = Some (Fin (INR i))).
  { unfold merged_map in N.
    apply (semantic_fold_rank sem sem (fold_left keyword_step kw []) ) with (x := (k2, e')); auto.
    intros j x Hx. right. apply (keyword_fold_rank kw []) with (x := x); auto.
    intros j' x' Hx'. destruct j'; discriminate. }
  destruct (existsb _ kw).
  - destruct Hpos as [Hn|Hs]; [|exact Hs]. exfalso. apply (proj2 Hr); auto.
  - destruct Hpos as [Hn|Hs]; [exact Hn|]. exfalso.
    assert (Hne : keywordRank e' <> None) by (rewrite Hs; discriminate).
    apply Hr in Hne. discriminate.
Qed.

Lemma mergeAndScoreResults_keywordRank_witness :
  exists e, nth_error (mergeAndScoreResults merge_kw merge_sem) 0 = Some e /\
    keywordRank e =
      (if existsb (fun r => same_value_zero (result_key (m_result e)) (result_key (res_value r))) merge_kw
       then Some (Fin (INR 0)) else None).
Proof.
  eexists. split; [reflexivity|].
  apply (mergeAndScoreResults_keywordRank merge_kw merge_sem).
  - intros r Hr. repeat destruct Hr as [<-|Hr]; [reflexivity..|destruct Hr].
  - reflexivity.
Defined.

End MergeResultsFacts.

Module RepoDeletesFacts.
Import Repo RepoSpec RepoFacts RepoDeletes RepoDeletesSpec ExtraExamples.
Local Open Scope nat_scope.

Lemma find_entity_filter_names names n es :
  find_entity_by_name n (filter (fun e => negb (in_names names (e_name e))) es) =
  if in_names names n then None else find_entity_by_name n es.
Proof.
  induction es as [|e es IH]; cbn; [destruct (in_names names n); reflexivity|].
  destruct (String.eqb_spec (e_name e) n) as [E|E].
  - rewrite E. destruct (in_names names n) eqn:I; cbn [negb filter find_entity_by_name];
      [exact IH|]. rewrite E, String.eqb_refl. reflexivity.
  - apply String.eqb_neq in E.
    destruct (negb (in_names names (e_name e))); cbn [filter find_entity_by_name];
      [rewrite E|]; exact IH.
Qed.

Lemma in_deleted_ids names es x :
  in_ids (map e_id (filter (fun e => in_names names (e_name e)) es)) x = true <->
  exists e, In e es /\ In (e_name e) names /\ e_id e = x.
Proof.
  rewrite in_ids_spec, in_map_iff. split.
  - intros (e & <- & He). apply filter_In in He as [He Hn].
    apply in_names_spec in Hn. eauto.
  - intros (e & He & Hn & <-). exists e. split; [reflexivity|].
    apply filter_In. split; [exact He|apply in_names_spec; exact Hn].
Qed.

Lemma filter_all {A} (f : A -> bool) l : (forall x, In x l -> f x = true) -> filter f l = l.
Proof.
  induction l as [|x l IH]; cbn; intros H; [reflexivity|].
  rewrite H, IH; auto.
Qed.

Lemma delete_entities_tables_nil t : delete_entities_tables [] t = t.
Proof.
  destruct t as [es os rs vs q1 q2]. unfold delete_entities_tables. cbn [entities].
  replace (filter (fun e => in_names [] (e_name e)) es) with (@nil entity_row)
    by (induction es as [|e es IH]; [reflexivity|exact IH]).
  rewrite !filter_all; auto.
Qed.

Lemma deleteEntities_step names s :
  deleteEntities names s = (Ok tt, set_db (delete_entities_tables names (db s)) s).
Proof.
  destruct names as [|n names]; [|reflexivity].
  rewrite delete_entities_tables_nil. destruct s as [[es os rs vs q1 q2] t l]. reflexivity.
Qed.

Lemma readGraph_step s : exists g, readGraph s = (Ok g, s).
Proof. eexists. reflexivity. Qed.

Lemma filter_filter_in {A} (f g : A -> bool) l :
  (forall x, In x l -> f x = true -> g x = true) ->
  filter f (filter g l) = filter f l.
Proof.
  induction l as [|x l IH]; cbn; intros H; [reflexivity|].
  destruct (g x) eqn:G; cbn.
  - destruct (f x); rewrite IH; auto; intros; apply H; auto.
  - destruct (f x) eqn:F; [rewrite (H x (or_introl eq_refl) F) in G; discriminate|].
    apply IH; auto.
Qed.

Lemma flat_map_ext_in {A B} (f g : A -> list B) l :
  (forall x, In x l -> f x = g x) -> flat_map f l = flat_map g l.
Proof.
  induction l as [|x l IH]; cbn; intros H; [reflexivity|].
  rewrite H, IH; auto.
Qed.



(** [deleteObservations] in the repository, from one state. *)
Lemma deleteObservations_step eid cs s :
  deleteObservations eid cs s =
  (Ok tt, set_db (mk_tables (entities (db s))
            (filter (fun o => negb (Nat.eqb (o_entity o) eid && in_names cs (o_content o)))
                    (observations (db s)))
            (relations (db s)) (obs_vec (db s)) (ent_seq (db s)) (obs_seq (db s))) s).
Proof.
  destruct cs as [|c cs].
  - destruct s as [[es os rs vs q1 q2] t l]. unfold set_db. cbn.
    rewrite filter_all; [reflexivity|]. intros o _. rewrite andb_false_r. reflexivity.
  - reflexivity.
Qed.

Lemma in_names_single c x : in_names [c] x = String.eqb x c.
Proof. unfold in_names. cbn. apply orb_false_r. Qed.

Lemma count_obs_filter eid c os :
  count_obs eid c os = 0 ->
  filter (fun o => negb (Nat.eqb (o_entity o) eid && String.eqb (o_content o) c)) os = os.
Proof.
  unfold count_obs. induction os as [|o os IH]; cbn; [reflexivity|].
  destruct (Nat.eqb (o_entity o) eid && String.eqb (o_content o) c); cbn; [discriminate|].
  intros H. rewrite IH; auto.
Qed.

Lemma rel_eqb_spec a b : rel_eqb a b = true <-> a = b.
Proof.
  destruct a as [f t ty], b as [f' t' ty']. unfold rel_eqb. cbn.
  rewrite !andb_true_iff, !Nat.eqb_eq, String.eqb_eq. split.
  - intros [[-> ->] ->]. reflexivity.
  - intros E. injection E as -> -> ->. auto.
Qed.


(** Extra X10: [deleteEntities(names)] never fails and removes exactly the
    entities with a listed name: afterwards a listed name is not found and
    every other name finds the entity it found before.  The cascade removes
    the observations and the relations (on either end) of the deleted
    entities and keeps all others; the [obs_vec] rows, the id counters and
    the transaction state are untouched. *)
Theorem deleteEntities_cascade names s :
  exists s1,
    deleteEntities names s = (Ok tt, s1) /\
    tx s1 = tx s /\ embed_log s1 = embed_log s /\
    (forall n, find_entity_by_name n (entities (db s1)) =
               if in_names names n then None else find_entity_by_name n (entities (db s))) /\
    (forall o, In o (observations (db s1)) <->
               In o (observations (db s)) /\
               forall e, In e (entities (db s)) -> In (e_name e) names -> e_id e <> o_entity o) /\
    (forall r, In r (relations (db s1)) <->
               In r (relations (db s)) /\
               forall e, In e (entities (db s)) -> In (e_name e) names ->
                         e_id e <> r_from r /\ e_id e <> r_to r) /\
    obs_vec (db s1) = obs_vec (db s) /\
    ent_seq (db s1) = ent_seq (db s) /\ obs_seq (db s1) = obs_seq (db s).
Proof.
  eexists. split; [apply deleteEntities_step|]. cbn.
  split; [reflexivity|]. split; [reflexivity|].
  split; [intros n; apply find_entity_filter_names|].
  split; [|split; [|auto]].
  - intros o. rewrite filter_In, negb_true_iff. split.
    + intros [Ho Hn]. split; [exact Ho|]. intros e He Hen Eid.
      assert (Hin : in_ids (map e_id (filter (fun e => in_names names (e_name e)) (entities (db s))))
                           (o_entity o) = true) by (apply in_deleted_ids; eauto).
      congruence.
    + intros [Ho Hn]. split; [exact Ho|].
      destruct (in_ids _ (o_entity o)) eqn:I; [|reflexivity].
      apply in_deleted_ids in I as (e & He & Hen & Eid). exfalso. exact (Hn e He Hen Eid).
  - intros r. rewrite filter_In, negb_true_iff, orb_false_iff. split.
    + intros [Hr [Hf Ht]]. split; [exact Hr|]. intros e He Hen.
      split; intros Eid.
      * assert (Hin : in_ids (map e_id (filter (fun e => in_names names (e_name e)) (entities (db s))))
                             (r_from r) = true) by (apply in_deleted_ids; eauto).
        congruence.
      * assert (Hin : in_ids (map e_id (filter (fun e => in_names names (e_name e)) (entities (db s))))
                             (r_to r) = true) by (apply in_deleted_ids; eauto).
        congruence.
    + intros [Hr Hn]. split; [exact Hr|]. split.
      * destruct (in_ids _ (r_from r)) eqn:I; [|reflexivity].
        apply in_deleted_ids in I as (e & He & Hen & Eid). exfalso. exact (proj1 (Hn e He Hen) Eid).
      * destruct (in_ids _ (r_to r)) eqn:I; [|reflexivity].
        apply in_deleted_ids in I as (e & He & Hen & Eid). exfalso. exact (proj2 (Hn e He Hen) Eid).
Qed.

(** Extra X11: after [deleteEntities(names)], [readGraph] lists no entity with a
    listed name and no relation with a listed name at either end. *)
Theorem readGraph_after_deleteEntities names s :
  exists s1 g,
    deleteEntities names s = (Ok tt, s1) /\ readGraph s1 = (Ok g, s1) /\
    (forall x, In x (or_entities g) -> ~ In (n_name x) names) /\
    (forall x, In x (or_relations g) -> ~ In (from x) names /\ ~ In (to x) names).
Proof.
  do 2 eexists. split; [apply deleteEntities_step|]. split; [reflexivity|].
  cbn [or_entities or_relations db set_db delete_entities_tables entities].
  set (es := filter (fun e => negb (in_names names (e_name e))) (entities (db s))).
  assert (Kept : forall e, In e es -> ~ In (e_name e) names).
  { intros e He Hn. apply filter_In in He as [_ He]. apply in_names_spec in Hn.
    rewrite Hn in He. discriminate. }
  split.
  - intros x Hx. apply in_map_iff in Hx as (e & <- & He). exact (Kept e He).
  - intros x Hx. apply in_flat_map in Hx as (r & _ & Hx).
    apply in_flat_map in Hx as (ef & Hef & Hx). apply in_flat_map in Hx as (et & Het & Hx).
    apply filter_In in Hef as [Hef _]. apply filter_In in Het as [Het _].
    destruct Hx as [<-|[]]. cbn. split; [exact (Kept ef Hef)|exact (Kept et Het)].
Qed.

(** With every query's rows taken in table order, [openNodes] on the names of
    all stored entities computes what [readGraph] computes. *)
Lemma openNodes_all_names_table_order s :
  openNodes (map e_name (entities (db s))) s = readGraph s.
Proof.
  unfold openNodes, readGraph, gets. f_equal. f_equal.
  assert (Hall : forall es, filter (fun e => in_names (map e_name es) (e_name e)) es = es).
  { intros es. apply filter_all. intros e He. apply in_names_spec, in_map. exact He. }
  rewrite Hall.
  destruct (entities (db s)) as [|e0 es'] eqn:Es.
  - cbn. f_equal. symmetry. apply flat_map_nil. intros r. reflexivity.
  - change (map e_name (e0 :: es')) with (e_name e0 :: map e_name es').
    cbv beta iota. set (es := e0 :: es').
    assert (Hid : forall e, In e es -> in_ids (map e_id es) (e_id e) = true).
    { intros e He. apply in_ids_spec, in_map. exact He. }
    f_equal.
    + apply map_ext_in. intros e He. f_equal. f_equal. apply filter_filter_in.
      intros o _ E. apply Nat.eqb_eq in E. rewrite E. apply Hid. exact He.
    + unfold open_relation_rows. rewrite Es. apply flat_map_ext_in. intros r _.
      apply flat_map_ext_in. intros ef Hef. apply flat_map_ext_in. intros et Het.
      apply filter_In in Hef as [Hef Ef]. apply filter_In in Het as [Het Et].
      apply Nat.eqb_eq in Ef, Et.
      rewrite <- Ef, <- Et, (Hid ef Hef), (Hid et Het). reflexivity.
Qed.


(** Extra X13: for an [entityId] of a stored entity (the foreign key of
    [observations] holds, so the insert is not refused),
    [insertObservation(entityId, content)] followed by
    [deleteObservations(entityId, [content])] leaves the observations as
    they were minus every row of that pair, so exactly as they were when the
    pair was not stored before; entities, relations and [obs_vec] are not
    changed. *)
Theorem insertObservation_deleteObservations eid c s
    (Hex : In eid (map e_id (entities (db s)))) :
  exists r s1 s2,
    insertObservation eid c s = (Ok r, s1) /\
    deleteObservations eid [c] s1 = (Ok tt, s2) /\
    observations (db s2) =
      filter (fun o => negb (Nat.eqb (o_entity o) eid && String.eqb (o_content o) c))
             (observations (db s)) /\
    (count_obs eid c (observations (db s)) = 0 -> observations (db s2) = observations (db s)) /\
    entities (db s2) = entities (db s) /\ relations (db s2) = relations (db s) /\
    obs_vec (db s2) = obs_vec (db s).
Proof.
  assert (Hf : forall os, filter (fun o => negb (Nat.eqb (o_entity o) eid && in_names [c] (o_content o))) os
                         = filter (fun o => negb (Nat.eqb (o_entity o) eid && String.eqb (o_content o) c)) os).
  { intros os. apply filter_ext. intros o. rewrite in_names_single. reflexivity. }
  rewrite insertObservation_step.
  destruct (find_obs eid c (observations (db s))) as [o|] eqn:F.
  - do 3 eexists. split; [reflexivity|]. split; [apply deleteObservations_step|]. cbn.
    rewrite Hf. split; [reflexivity|]. split; [|auto].
    intros Hz. apply find_obs_none in Hz. congruence.
  - do 3 eexists. split; [reflexivity|]. split; [apply deleteObservations_step|]. cbn.
    rewrite Hf, filter_app. cbn. rewrite Nat.eqb_refl, String.eqb_refl. cbn. rewrite app_nil_r.
    assert (Hz : count_obs eid c (observations (db s)) = 0) by (apply find_obs_none; exact F).
    rewrite (count_obs_filter _ _ _ Hz). auto.
Qed.

(** Witness for X13: a new observation of entity 1 of [one_obs_state],
    inserted and deleted again. *)
Lemma insertObservation_deleteObservations_witness :
  In 1%nat (map e_id (entities (db RepoExamples.one_obs_state))) /\
  exists r s1 s2,
    insertObservation 1 "y" RepoExamples.one_obs_state = (Ok r, s1) /\
    deleteObservations 1 ["y"] s1 = (Ok tt, s2) /\
    observations (db s2) =
      filter (fun o => negb (Nat.eqb (o_entity o) 1 && String.eqb (o_content o) "y"))
             (observations (db RepoExamples.one_obs_state)) /\
    (count_obs 1 "y" (observations (db RepoExamples.one_obs_state)) = 0 ->
       observations (db s2) = observations (db RepoExamples.one_obs_state)) /\
    entities (db s2) = entities (db RepoExamples.one_obs_state) /\
    relations (db s2) = relations (db RepoExamples.one_obs_state) /\
    obs_vec (db s2) = obs_vec (db RepoExamples.one_obs_state).
Proof.
  assert (Hex : In 1%nat (map e_id (entities (db RepoExamples.one_obs_state))))
    by (left; reflexivity).
  split; [exact Hex|].
  exact (insertObservation_deleteObservations 1 "y" RepoExamples.one_obs_state Hex).
Defined.

Lemma same_graph_refl g : same_graph g g.
Proof.
  exists (or_entities g). split; [apply Permutation_refl|]. split; [|apply Permutation_refl].
  induction (or_entities g) as [|x xs IH]; constructor; [|exact IH].
  split; [reflexivity|]. split; [reflexivity|apply Permutation_refl].
Qed.

(** Extra X12: [openNodes] called with the names of all stored entities
    succeeds, leaves the state as it is, and returns the graph [readGraph]
    returns: the same entities, each with the same type and observations,
    and the same relations, up to the order the database returns the rows
    in; also for an empty database. *)
Theorem openNodes_all_names s :
  exists g1 g2,
    openNodes (map e_name (entities (db s))) s = (Ok g1, s) /\
    readGraph s = (Ok g2, s) /\ same_graph g1 g2.
Proof.
  rewrite openNodes_all_names_table_order.
  destruct (readGraph_step s) as (g & Hg). rewrite Hg.
  exists g, g. split; [reflexivity|]. split; [reflexivity|]. apply same_graph_refl.
Qed.

Lemma getEntityId_step n s :
  getEntityId n s = (Ok (option_map e_id (find_entity_by_name n (entities (db s)))), s).
Proof. reflexivity. Qed.

Lemma find_entity_in n es e : find_entity_by_name n es = Some e -> In e es /\ e_name e = n.
Proof.
  induction es as [|x es IH]; cbn; [discriminate|].
  destruct (String.eqb_spec (e_name x) n) as [E|E].
  - intros H. injection H as <-. auto.
  - intros H. apply IH in H as [H1 H2]. auto.
Qed.

(** Extra X14: the manager's [deleteObservations(list)] never fails and removes
    exactly the observations whose entity is named by an entry (found, with
    a non-zero id) and whose content is listed in that entry; entries naming
    an unknown entity are skipped, and entities, relations and [obs_vec] are
    not changed. *)
Theorem kgm_deleteObservations_spec entries s :
  exists s1,
    RepoDeletes.KnowledgeGraphManager.deleteObservations entries s = (Ok tt, s1) /\
    tx s1 = tx s /\ embed_log s1 = embed_log s /\
    entities (db s1) = entities (db s) /\ relations (db s1) = relations (db s) /\
    obs_vec (db s1) = obs_vec (db s) /\
    (forall o, In o (observations (db s1)) <->
       In o (observations (db s)) /\
       ~ (exists entityName cs e,
            In (entityName, cs) entries /\
            find_entity_by_name entityName (entities (db s)) = Some e /\ e_id e <> 0 /\
            o_entity o = e_id e /\ In (o_content o) cs)).
Proof.
  revert s; induction entries as [|[n cs] entries IH]; intros s.
  - exists s. split; [reflexivity|]. do 5 (split; [reflexivity|]).
    intros o. split; [intros H; split; [exact H|intros (? & ? & ? & [] & _)]|tauto].
  - cbn [RepoDeletes.KnowledgeGraphManager.deleteObservations].
    rewrite (bind_ok _ _ _ _ _ (getEntityId_step n s)).
    destruct (find_entity_by_name n (entities (db s))) as [e|] eqn:F.
    + cbn [option_map]. destruct (e_id e) as [|id] eqn:Eid.
      * unfold bind at 1. cbn [ret].
        destruct (IH s) as (s1 & H1 & T1 & L1 & E1 & R1 & V1 & O1).
        exists s1. split; [exact H1|]. do 5 (split; [assumption|]).
        intros o. rewrite O1. split.
        -- intros [Ho Hn]. split; [exact Ho|]. intros (nm & cs' & e' & Hin & F' & Z & Eo & Hc).
           destruct Hin as [Hin|Hin].
           ++ injection Hin as -> ->. rewrite F in F'. injection F' as <-. contradiction.
           ++ apply Hn. exists nm, cs', e'. auto.
        -- intros [Ho Hn]. split; [exact Ho|]. intros (nm & cs' & e' & Hin & Rest).
           apply Hn. exists nm, cs', e'. split; [right; exact Hin|exact Rest].
      * cbv beta iota. rewrite (bind_ok _ _ _ _ _ (deleteObservations_step (S id) cs s)).
        set (s0 := set_db _ s).
        destruct (IH s0) as (s1 & H1 & T1 & L1 & E1 & R1 & V1 & O1).
        exists s1. split; [exact H1|].
        split; [exact T1|]. split; [exact L1|]. split; [exact E1|]. split; [exact R1|].
        split; [exact V1|].
        intros o. rewrite O1. cbn [s0 set_db db entities observations]. rewrite filter_In, negb_true_iff.
        split.
        -- intros [[Ho Hd] Hn]. split; [exact Ho|].
           intros (nm & cs' & e' & Hin & F' & Z & Eo & Hc). destruct Hin as [Hin|Hin].
           ++ injection Hin as -> ->. rewrite F in F'. injection F' as <-.
              rewrite Eo, Eid, Nat.eqb_refl in Hd. apply in_names_spec in Hc.
              rewrite Hc in Hd. discriminate.
           ++ apply Hn. exists nm, cs', e'. auto.
        -- intros [Ho Hn]. split; [split; [exact Ho|]|].
           ++ destruct (Nat.eqb_spec (o_entity o) (S id)) as [Eo|]; [|reflexivity].
              destruct (in_names cs (o_content o)) eqn:Hc; [|reflexivity].
              exfalso. apply Hn. exists n, cs, e. apply in_names_spec in Hc.
              rewrite Eid. repeat split; auto. left; reflexivity.
           ++ intros (nm & cs' & e' & Hin & Rest). apply Hn. exists nm, cs', e'.
              split; [right; exact Hin|exact Rest].
    + cbn [option_map]. unfold bind at 1. cbn [ret].
      destruct (IH s) as (s1 & H1 & T1 & L1 & E1 & R1 & V1 & O1).
      exists s1. split; [exact H1|]. do 5 (split; [assumption|]).
      intros o. rewrite O1. split.
      * intros [Ho Hn]. split; [exact Ho|]. intros (nm & cs' & e' & Hin & F' & Rest).
        destruct Hin as [Hin|Hin].
        -- injection Hin as -> ->. congruence.
        -- apply Hn. exists nm, cs', e'. auto.
      * intros [Ho Hn]. split; [exact Ho|]. intros (nm & cs' & e' & Hin & Rest).
        apply Hn. exists nm, cs', e'. split; [right; exact Hin|exact Rest].
Qed.


Lemma deleteRelations_cons x rest s :
  exists s0,
    deleteRelations (x :: rest) s = deleteRelations rest s0 /\
    tx s0 = tx s /\ embed_log s0 = embed_log s /\
    entities (db s0) = entities (db s) /\ observations (db s0) = observations (db s) /\
    obs_vec (db s0) = obs_vec (db s) /\
    (forall r, In r (relations (db s0)) <->
       In r (relations (db s)) /\
       ~ (exists ef et,
            find_entity_by_name (from x) (entities (db s)) = Some ef /\
            find_entity_by_name (to x) (entities (db s)) = Some et /\
            e_id ef <> 0 /\ e_id et <> 0 /\
            r = mk_rel (e_id ef) (e_id et) (relationType x))).
Proof.
  cbn [deleteRelations].
  rewrite (bind_ok _ _ _ _ _ (getEntityId_step (from x) s)).
  rewrite (bind_ok _ _ _ _ _ (getEntityId_step (to x) s)).
  assert (Skip : (forall ef et, find_entity_by_name (from x) (entities (db s)) = Some ef ->
                                find_entity_by_name (to x) (entities (db s)) = Some et ->
                                e_id ef = 0 \/ e_id et = 0) ->
                 exists s0, deleteRelations rest s = deleteRelations rest s0 /\
                   tx s0 = tx s /\ embed_log s0 = embed_log s /\
                   entities (db s0) = entities (db s) /\ observations (db s0) = observations (db s) /\
                   obs_vec (db s0) = obs_vec (db s) /\
                   (forall r, In r (relations (db s0)) <->
                      In r (relations (db s)) /\
                      ~ (exists ef et,
                           find_entity_by_name (from x) (entities (db s)) = Some ef /\
                           find_entity_by_name (to x) (entities (db s)) = Some et /\
                           e_id ef <> 0 /\ e_id et <> 0 /\
                           r = mk_rel (e_id ef) (e_id et) (relationType x)))).
  { intros Hz. exists s. split; [reflexivity|]. do 5 (split; [reflexivity|]).
    intros r. split; [|tauto]. intros Hr. split; [exact Hr|].
    intros (ef & et & F & T & Zf & Zt & _). destruct (Hz ef et F T); contradiction. }
  destruct (find_entity_by_name (from x) (entities (db s))) as [ef|] eqn:F;
    [|cbn; apply Skip; discriminate].
  destruct (find_entity_by_name (to x) (entities (db s))) as [et|] eqn:T;
    [|cbn; destruct (e_id ef); apply Skip; discriminate].
  cbn [option_map].
  destruct (e_id ef) as [|f] eqn:Ef;
    [cbv beta iota; unfold bind at 1; cbn [ret]; apply Skip; intros ef' et' F' _;
     left; congruence|].
  destruct (e_id et) as [|t] eqn:Et;
    [cbv beta iota; unfold bind at 1; cbn [ret]; apply Skip; intros ef' et' _ T';
     right; congruence|].
  cbv beta iota. unfold bind at 1, delete_relation_row, modify. cbn [db set_db].
  eexists. split; [reflexivity|]. cbn. do 5 (split; [reflexivity|]).
  intros r. rewrite filter_In, negb_true_iff. split.
  - intros [Hr Hd]. split; [exact Hr|]. intros (ef' & et' & F' & T' & _ & _ & ->).
    injection F' as <-. injection T' as <-. rewrite Ef, Et, rel_eqb_refl in Hd. discriminate.
  - intros [Hr Hn]. split; [exact Hr|].
    destruct (rel_eqb (mk_rel (S f) (S t) (relationType x)) r) eqn:E; [|reflexivity].
    apply rel_eqb_spec in E. exfalso. apply Hn. exists ef, et. rewrite Ef, Et.
    repeat split; auto.
Qed.

(** Extra X15: [deleteRelations(relations)] never fails and removes exactly the
    relation rows ([fromId], [toId], [relationType]) of the listed relations
    whose two endpoint names are both stored with non-zero ids; relations
    with an unknown endpoint are skipped, and entities, observations and
    [obs_vec] are not changed. *)
Theorem deleteRelations_spec rels s :
  exists s1,
    deleteRelations rels s = (Ok tt, s1) /\
    tx s1 = tx s /\ embed_log s1 = embed_log s /\
    entities (db s1) = entities (db s) /\ observations (db s1) = observations (db s) /\
    obs_vec (db s1) = obs_vec (db s) /\
    (forall r, In r (relations (db s1)) <->
       In r (relations (db s)) /\
       ~ (exists x ef et,
            In x rels /\
            find_entity_by_name (from x) (entities (db s)) = Some ef /\
            find_entity_by_name (to x) (entities (db s)) = Some et /\
            e_id ef <> 0 /\ e_id et <> 0 /\
            r = mk_rel (e_id ef) (e_id et) (relationType x))).
Proof.
  revert s; induction rels as [|x rels IH]; intros s.
  - exists s. split; [reflexivity|]. do 5 (split; [reflexivity|]).
    intros r. split; [intros H; split; [exact H|intros (? & ? & ? & [] & _)]|tauto].
  - destruct (deleteRelations_cons x rels s) as (s0 & H0 & T0 & L0 & E0 & O0 & V0 & R0).
    destruct (IH s0) as (s1 & H1 & T1 & L1 & E1 & O1 & V1 & R1).
    exists s1. rewrite H0. split; [exact H1|].
    split; [congruence|]. split; [congruence|]. split; [congruence|].
    split; [congruence|]. split; [congruence|].
    intros r. rewrite R1, R0, E0. split.
    + intros [[Hr Hn0] Hn1]. split; [exact Hr|]. intros (y & ef & et & Hy & Rest).
      destruct Hy as [<-|Hy]; [apply Hn0; exists ef, et; exact Rest|].
      apply Hn1. exists y, ef, et. auto.
    + intros [Hr Hn]. split; [split; [exact Hr|]|].
      * intros (ef & et & Rest). apply Hn. exists x, ef, et. split; [left; reflexivity|exact Rest].
      * intros (y & ef & et & Hy & Rest). apply Hn. exists y, ef, et. split; [right; exact Hy|exact Rest].
Qed.


Lemma bind_ok_inv {A B} (m : M A) (f : A -> M B) s b s1 :
  bind m f s = (Ok b, s1) -> exists a s0, m s = (Ok a, s0) /\ f a s0 = (Ok b, s1).
Proof.
  unfold bind. destruct (m s) as [[a|e] s0]; [intros H; exists a, s0; auto|discriminate].
Qed.

Lemma insert_contents_keeps eid cs s ins s1 :
  insert_contents eid cs s = (Ok ins, s1) ->
  entities (db s1) = entities (db s) /\ ent_seq (db s1) = ent_seq (db s) /\ tx s1 = tx s.
Proof.
  revert s ins s1; induction cs as [|c cs IH]; intros s ins s1 H.
  - cbn in H. injection H as _ <-. auto.
  - cbn [insert_contents] in H. unfold bind at 1 in H. rewrite insertObservation_step in H.
    destruct (find_obs eid c (observations (db s))) as [o|]; cbv beta iota in H.
    + unfold bind at 1 in H. destruct (insert_contents eid cs s) as [[tl|err] sB] eqn:HB;
        [|discriminate].
      apply IH in HB. destruct tl; cbn in H; injection H as _ <-; exact HB.
    + set (s0 := set_db _ s) in H.
      unfold bind at 1 in H. destruct (insert_contents eid cs s0) as [[tl|err] sB] eqn:HB;
        [|discriminate].
      apply IH in HB. cbn in H. injection H as _ <-. exact HB.
Qed.

Lemma addObservations_entry_keeps col fails embed name cs s r s1 e :
  find_entity_by_name name (entities (db s)) = Some e ->
  addObservations_entry col fails embed name cs s = (Ok r, s1) ->
  entities (db s1) = entities (db s) /\ ent_seq (db s1) = ent_seq (db s).
Proof.
  intros F H. unfold addObservations_entry in H.
  assert (HA : getOrCreateEntityId name "Unknown" s = (Ok (e_id e), s)).
  { unfold getOrCreateEntityId, getEntityId, gets, bind. rewrite F. reflexivity. }
  rewrite (bind_ok _ _ _ _ _ HA) in H.
  unfold bind at 1 in H.
  destruct (insert_contents (e_id e) cs s) as [[ins|err] sB] eqn:HB; [|discriminate].
  apply insert_contents_keeps in HB as (EB & QB & _).
  destruct ins as [|p ins'].
  - cbn in H. injection H as _ <-. auto.
  - cbv beta iota delta [bind embedTexts ret] in H.
    match type of H with
    | context [insertObservationVectors ?a ?b ?c ?d] =>
        destruct (insertObservationVectors a b c d) as [[u|err] sD] eqn:HD
    end; [|discriminate].
    destruct u. injection H as _ <-. apply insertObservationVectors_ok in HD as (HD & _).
    rewrite HD. cbn. auto.
Qed.

Lemma in_names_ext k1 k2 x : (forall n, In n k1 <-> In n k2) -> in_names k1 x = in_names k2 x.
Proof.
  intros H. destruct (in_names k1 x) eqn:A, (in_names k2 x) eqn:B; auto.
  - apply in_names_spec, H, in_names_spec in A. congruence.
  - apply in_names_spec, H, in_names_spec in B. congruence.
Qed.

Lemma new_entities_ext k1 k2 xs :
  (forall n, In n k1 <-> In n k2) -> new_entities k1 xs = new_entities k2 xs.
Proof.
  revert k1 k2; induction xs as [|x xs IH]; intros k1 k2 H; cbn; [reflexivity|].
  rewrite (in_names_ext k1 k2 _ H). destruct (in_names k2 (RepoDeletes.KnowledgeGraphManager.ei_name x)).
  - apply IH. exact H.
  - f_equal. apply IH. intros n. cbn. rewrite H. tauto.
Qed.

Lemma find_entity_none_in n es : find_entity_by_name n es = None -> ~ In n (map e_name es).
Proof.
  induction es as [|x es IH]; cbn; [auto|].
  destruct (String.eqb_spec (e_name x) n) as [E|E]; [discriminate|].
  intros H [H'|H']; [contradiction|exact (IH H H')].
Qed.

Lemma createEntities_loop_spec col fails embed ents created s res s1 :
  RepoDeletes.KnowledgeGraphManager.createEntities_loop col fails embed ents created s = (Ok res, s1) ->
  (forall e, In e (entities (db s)) -> e_id e <> 0) -> ent_seq (db s) <> 0 ->
  res = app created (new_entities (map e_name (entities (db s))) ents) /\
  map (fun e => (e_name e, e_type e)) (entities (db s1)) =
  app (map (fun e => (e_name e, e_type e)) (entities (db s)))
      (map (fun x => (RepoDeletes.KnowledgeGraphManager.ei_name x, RepoDeletes.KnowledgeGraphManager.ei_entityType x))
           (new_entities (map e_name (entities (db s))) ents)).
Proof.
  revert created s; induction ents as [|x ents IH]; intros created s H Hid Hseq.
  - cbn in H. injection H as <- <-. cbn. rewrite !app_nil_r. auto.
  - cbn [RepoDeletes.KnowledgeGraphManager.createEntities_loop] in H.
    rewrite (bind_ok _ _ _ _ _ (getEntityId_step _ s)) in H.
    set (nm := RepoDeletes.KnowledgeGraphManager.ei_name x) in *.
    (* the state after the creation step *)
    assert (Step : exists created' s0,
      (match option_map e_id (find_entity_by_name nm (entities (db s))) with
       | None | Some 0 =>
           _ <- createEntity nm (RepoDeletes.KnowledgeGraphManager.ei_entityType x) ;; ret (app created [x])
       | Some _ => ret created
       end) s = (Ok created', s0) /\
      find_entity_by_name nm (entities (db s0)) <> None /\
      (forall e, In e (entities (db s0)) -> e_id e <> 0) /\ ent_seq (db s0) <> 0 /\
      created' = app created (if in_names (map e_name (entities (db s))) nm then [] else [x]) /\
      (forall n, In n (map e_name (entities (db s0))) <->
                 In n (if in_names (map e_name (entities (db s))) nm then map e_name (entities (db s))
                       else nm :: map e_name (entities (db s)))) /\
      map (fun e => (e_name e, e_type e)) (entities (db s0)) =
      app (map (fun e => (e_name e, e_type e)) (entities (db s)))
          (if in_names (map e_name (entities (db s))) nm then []
           else [(nm, RepoDeletes.KnowledgeGraphManager.ei_entityType x)])).
    { destruct (find_entity_by_name nm (entities (db s))) as [e|] eqn:F.
      - destruct (find_entity_in _ _ _ F) as [He En].
        assert (I : in_names (map e_name (entities (db s))) nm = true).
        { apply in_names_spec. rewrite <- En. apply in_map. exact He. }
        rewrite I. cbn [option_map].
        destruct (e_id e) eqn:Eid; [exfalso; exact (Hid e He Eid)|].
        exists created, s. split; [reflexivity|]. split; [congruence|].
        split; [exact Hid|]. split; [exact Hseq|]. split; [rewrite app_nil_r; reflexivity|].
        split; [tauto|rewrite app_nil_r; reflexivity].
      - assert (I : in_names (map e_name (entities (db s))) nm = false).
        { destruct (in_names _ nm) eqn:I; [|reflexivity].
          apply in_names_spec in I. exfalso. exact (find_entity_none_in _ _ F I). }
        rewrite I. cbn [option_map]. unfold bind at 1, createEntity. rewrite F.
        eexists _, _. split; [reflexivity|]. cbn [db set_db entities ent_seq].
        split; [rewrite (find_entity_app_none _ _ _ F); cbn; rewrite String.eqb_refl; discriminate|].
        split; [intros e He; apply in_app_or in He as [He|[<-|[]]]; [exact (Hid e He)|exact Hseq]|].
        split; [discriminate|]. split; [reflexivity|].
        split; [intros n; rewrite map_app; cbn; rewrite in_app_iff; cbn; tauto|].
        rewrite map_app. reflexivity. }
    destruct Step as (created' & s0 & H0 & F0 & Hid0 & Hseq0 & C0 & N0 & P0).
    rewrite (bind_ok _ _ _ _ _ H0) in H.
    assert (Obs : exists s2, entities (db s2) = entities (db s0) /\ ent_seq (db s2) = ent_seq (db s0) /\
                  RepoDeletes.KnowledgeGraphManager.createEntities_loop col fails embed ents created' s2 = (Ok res, s1)).
    { destruct (find_entity_by_name nm (entities (db s0))) as [e0|] eqn:F0'; [|congruence].
      destruct (RepoDeletes.KnowledgeGraphManager.ei_observations x) as [[|o os]|].
      - exists s0. auto.
      - cbv beta iota in H. apply bind_ok_inv in H as (u & s2 & HA & H).
        apply bind_ok_inv in HA as (rs & s3 & HA & Hr). cbn in Hr. injection Hr as _ <-.
        exists s3. cbn [addObservations] in HA.
        apply bind_ok_inv in HA as (r & s4 & HE & HA).
        apply bind_ok_inv in HA as (rs' & s5 & HR & HA). cbn in HR, HA.
        injection HR as _ <-. injection HA as _ <-.
        destruct (addObservations_entry_keeps _ _ _ _ _ _ _ _ _ F0' HE) as [E3 Q3].
        split; [exact E3|]. split; [exact Q3|]. exact H.
      - exists s0. auto. }
    destruct Obs as (s2 & E2 & Q2 & H2).
    destruct (IH _ _ H2) as [R1 P1]; [rewrite E2; exact Hid0|rewrite Q2; exact Hseq0|].
    rewrite E2 in R1, P1.
    rewrite (new_entities_ext _ _ ents N0) in R1, P1.
    cbn [new_entities]. fold nm.
    destruct (in_names (map e_name (entities (db s))) nm).
    + rewrite app_nil_r in C0. subst created'. split; [exact R1|]. rewrite P1, P0, app_nil_r.
      reflexivity.
    + subst created'. rewrite <- app_assoc in R1. split; [exact R1|].
      rewrite P1, P0, <- app_assoc. reflexivity.
Qed.

(** Extra X16: when every stored entity id and the next id are non-zero and
    [createEntities(entities)] succeeds, it returns exactly the inputs whose
    name was neither stored nor taken by an earlier returned input, and the
    entity table gains exactly their (name, type) pairs, in order, after the
    existing ones: stored entities keep their type and a repeated name is
    created once, with its first type. *)
Theorem createEntities_created col fails embed ents s created s1
    (Hok : RepoDeletes.KnowledgeGraphManager.createEntities col fails embed ents s = (Ok created, s1))
    (Hid : forall e, In e (entities (db s)) -> e_id e <> 0)
    (Hseq : ent_seq (db s) <> 0) :
  created = new_entities (map e_name (entities (db s))) ents /\
  map (fun e => (e_name e, e_type e)) (entities (db s1)) =
  app (map (fun e => (e_name e, e_type e)) (entities (db s)))
      (map (fun x => (RepoDeletes.KnowledgeGraphManager.ei_name x, RepoDeletes.KnowledgeGraphManager.ei_entityType x))
           created).
Proof.
  destruct (createEntities_loop_spec _ _ _ _ _ _ _ _ Hok Hid Hseq) as [R P].
  cbn in R. rewrite R. split; [reflexivity|exact P].
Qed.

Lemma createEntities_created_witness :
  exists created s1,
    RepoDeletes.KnowledgeGraphManager.createEntities (Vec0Float 2) (fun _ _ => false)
      (fun _ => [0; 0]) sample_inputs init_state = (Ok created, s1) /\
    created = new_entities (map e_name (entities (db init_state))) sample_inputs /\
    map (fun e => (e_name e, e_type e)) (entities (db s1)) =
    app (map (fun e => (e_name e, e_type e)) (entities (db init_state)))
        (map (fun x => (RepoDeletes.KnowledgeGraphManager.ei_name x,
                        RepoDeletes.KnowledgeGraphManager.ei_entityType x)) created).
Proof.
  eexists _, _. split; [reflexivity|].
  apply (createEntities_created (Vec0Float 2) (fun _ _ => false) (fun _ => [0; 0])
           sample_inputs init_state _ _ eq_refl).
  - intros e [].
  - discriminate.
Defined.

End RepoDeletesFacts.
